(** * Serene AI: the live voice session hook

    A shallow embedding of [useLiveSession] (hooks/useLiveSession.ts) and of
    [saveTranscript] (utils/firebase.ts), followed by the orb
    (components/Orb.tsx) and the application component (App.tsx) that use
    them.

    The hook keeps its state in React state cells and in refs; every callback
    is a closure over the same cells.  Here the cells are the fields of one
    record, [Hook]; the browser objects the hook creates live in a second
    record, [Browser]; and each callback is a computation in a small monad
    that threads both, may complete abruptly (a JavaScript exception or a
    rejected [await]), and records the calls it makes on the outside world in
    program order.

    Conventions.
    - A JavaScript [number] is an exact rational ([Q]); IEEE rounding is not
      modelled.  Times are seconds on the clock of the output audio context.
    - A JavaScript string is the UTF-8 encoding of its code points, one
      [ascii] per byte: [String.prototype.trim] strips the encodings of the
      white space and line terminator code points, not the ASCII ones only.
    - A callback runs until it returns or reaches an [await], and nothing
      else runs in between.  The two [async] functions are given in one
      piece ([connect], [onmessage]: the function when nothing else runs
      while it is suspended) and as their two halves around the [await]
      ([connectUntilAwait] and [connectAfterAwait], [onmessageUntilAwait]
      and [audioAfterAwait]); the event loop [turn] runs the halves, with
      any other turn in between.
    - [decodeAudioData] and [base64ToUint8Array] come from utils/audioUtils,
      which is not among the sources: the handler takes the decoder as a
      parameter that maps the base64 payload to the decoded buffer, or to
      [None] when either helper throws, and how long the decoder takes is
      left open.  For the same reason the capture callback
      [onaudioprocess], which only encodes and sends microphone chunks, is
      left out.
    - What the browser and the SDK answer (is the credential defined, does
      the microphone open, ...) is an input of the callback that asks. *)

From Stdlib Require Import ZArith QArith Qminmax Lqa Lia List String Ascii Bool.
Import ListNotations.

Local Open Scope string_scope.
Local Open Scope list_scope.

(** ** Values *)

(** [export type SessionStatus = 'disconnected' | 'connecting' | 'connected' | 'error'] *)
Inductive SessionStatus : Type :=
| disconnected
| connecting
| connected
| error.

(** The [role] argument of [saveTranscript]: ['user' | 'model']. *)
Inductive Role : Type :=
| user
| model.

(** Browser objects are told apart by identity; the identity is a number the
    browser model hands out. *)
Record AudioContext : Type := { context_id : nat; sampleRate : Z }.

Inductive NodeKind : Type :=
| Analyser
| Gain
| MediaStreamSource
| ScriptProcessor.

Record AudioNode : Type := { node_id : nat; node_kind : NodeKind }.

Record MediaStream : Type := { stream_id : nat }.

(** The promise returned by [ai.live.connect]. *)
Record Session : Type := { channel_id : nat }.

(** What the hook reads of a decoded [AudioBuffer]. *)
Record AudioBuffer : Type := { duration : Q }.

Record AudioBufferSourceNode : Type :=
  { source_id : nat; buffer : AudioBuffer }.

(** JavaScript truthiness of a string: every string but the empty one. *)
Definition truthy (s : string) : bool :=
  match s with
  | EmptyString => false
  | String _ _ => true
  end.

(** The same for a value that may be [undefined], such as
    [process.env.API_KEY] or an optional field of a message. *)
Definition truthy_opt (v : option string) : bool :=
  match v with
  | Some s => truthy s
  | None => false
  end.

(** ** Inbound messages

    [LiveServerMessage], restricted to the fields the handler reads.  Each
    optional chain of the source ([serverContent?.inputTranscription?.text],
    [serverContent?.modelTurn?.parts?.[0]?.inlineData?.data]) is an option. *)
Record Part : Type := { inlineData : option string }.

Record ServerContent : Type :=
  { inputTranscription : option string;
    outputTranscription : option string;
    turnComplete : bool;
    interrupted : bool;
    modelTurn : option (list Part) }.

Record LiveServerMessage : Type := { serverContent : option ServerContent }.

(** [serverContent?.inputTranscription?.text], as far as the test
    [if (...)] can tell: the text when it is truthy. *)
Definition text_of (t : option string) : string :=
  match t with
  | Some s => s
  | None => ""
  end.

Definition inputText (message : LiveServerMessage) : string :=
  match serverContent message with
  | Some sc => text_of (inputTranscription sc)
  | None => ""
  end.

Definition outputText (message : LiveServerMessage) : string :=
  match serverContent message with
  | Some sc => text_of (outputTranscription sc)
  | None => ""
  end.

(** [serverContent?.turnComplete] and [serverContent?.interrupted], as tests. *)
Definition isTurnComplete (message : LiveServerMessage) : bool :=
  match serverContent message with
  | Some sc => turnComplete sc
  | None => false
  end.

Definition isInterrupted (message : LiveServerMessage) : bool :=
  match serverContent message with
  | Some sc => interrupted sc
  | None => false
  end.

(** [serverContent?.modelTurn?.parts?.[0]?.inlineData?.data] *)
Definition base64Audio (message : LiveServerMessage) : option string :=
  match serverContent message with
  | Some sc =>
      match modelTurn sc with
      | Some (part :: _) => inlineData part
      | _ => None
      end
  | None => None
  end.

(** The message carries inline audio data the handler would act on. *)
Definition carriesAudio (message : LiveServerMessage) : bool :=
  truthy_opt (base64Audio message).

(** ** The hook's cells

    [useState] cells first, then the refs in the order the source declares
    them.  [activeSourcesRef] is a JavaScript [Set] of objects: insertion
    ordered, and an object the browser has just created is never a member, so
    a list in insertion order represents it. *)
Record Hook : Type :=
  { status : SessionStatus;
    volume : Q;
    isSpeaking : bool;
    inputContextRef : option AudioContext;
    outputContextRef : option AudioContext;
    inputSourceRef : option AudioNode;
    processorRef : option AudioNode;
    outputGainNodeRef : option AudioNode;
    analyzerRef : option AudioNode;
    nextStartTimeRef : Q;
    activeSourcesRef : list AudioBufferSourceNode;
    sessionRef : option Session;
    streamRef : option MediaStream;
    currentInputRef : string;
    currentOutputRef : string;
    sessionIdRef : string;
    rafIdRef : option nat }.

Definition with_status (v : SessionStatus) (h : Hook) : Hook :=
  {| status := v; volume := volume h; isSpeaking := isSpeaking h;
     inputContextRef := inputContextRef h;
     outputContextRef := outputContextRef h;
     inputSourceRef := inputSourceRef h; processorRef := processorRef h;
     outputGainNodeRef := outputGainNodeRef h; analyzerRef := analyzerRef h;
     nextStartTimeRef := nextStartTimeRef h;
     activeSourcesRef := activeSourcesRef h; sessionRef := sessionRef h;
     streamRef := streamRef h; currentInputRef := currentInputRef h;
     currentOutputRef := currentOutputRef h; sessionIdRef := sessionIdRef h;
     rafIdRef := rafIdRef h |}.

Definition with_volume (v : Q) (h : Hook) : Hook :=
  {| status := status h; volume := v; isSpeaking := isSpeaking h;
     inputContextRef := inputContextRef h;
     outputContextRef := outputContextRef h;
     inputSourceRef := inputSourceRef h; processorRef := processorRef h;
     outputGainNodeRef := outputGainNodeRef h; analyzerRef := analyzerRef h;
     nextStartTimeRef := nextStartTimeRef h;
     activeSourcesRef := activeSourcesRef h; sessionRef := sessionRef h;
     streamRef := streamRef h; currentInputRef := currentInputRef h;
     currentOutputRef := currentOutputRef h; sessionIdRef := sessionIdRef h;
     rafIdRef := rafIdRef h |}.

Definition with_isSpeaking (v : bool) (h : Hook) : Hook :=
  {| status := status h; volume := volume h; isSpeaking := v;
     inputContextRef := inputContextRef h;
     outputContextRef := outputContextRef h;
     inputSourceRef := inputSourceRef h; processorRef := processorRef h;
     outputGainNodeRef := outputGainNodeRef h; analyzerRef := analyzerRef h;
     nextStartTimeRef := nextStartTimeRef h;
     activeSourcesRef := activeSourcesRef h; sessionRef := sessionRef h;
     streamRef := streamRef h; currentInputRef := currentInputRef h;
     currentOutputRef := currentOutputRef h; sessionIdRef := sessionIdRef h;
     rafIdRef := rafIdRef h |}.

Definition with_inputContextRef (v : option AudioContext) (h : Hook) : Hook :=
  {| status := status h; volume := volume h; isSpeaking := isSpeaking h;
     inputContextRef := v; outputContextRef := outputContextRef h;
     inputSourceRef := inputSourceRef h; processorRef := processorRef h;
     outputGainNodeRef := outputGainNodeRef h; analyzerRef := analyzerRef h;
     nextStartTimeRef := nextStartTimeRef h;
     activeSourcesRef := activeSourcesRef h; sessionRef := sessionRef h;
     streamRef := streamRef h; currentInputRef := currentInputRef h;
     currentOutputRef := currentOutputRef h; sessionIdRef := sessionIdRef h;
     rafIdRef := rafIdRef h |}.

Definition with_outputContextRef (v : option AudioContext) (h : Hook) : Hook :=
  {| status := status h; volume := volume h; isSpeaking := isSpeaking h;
     inputContextRef := inputContextRef h; outputContextRef := v;
     inputSourceRef := inputSourceRef h; processorRef := processorRef h;
     outputGainNodeRef := outputGainNodeRef h; analyzerRef := analyzerRef h;
     nextStartTimeRef := nextStartTimeRef h;
     activeSourcesRef := activeSourcesRef h; sessionRef := sessionRef h;
     streamRef := streamRef h; currentInputRef := currentInputRef h;
     currentOutputRef := currentOutputRef h; sessionIdRef := sessionIdRef h;
     rafIdRef := rafIdRef h |}.

Definition with_inputSourceRef (v : option AudioNode) (h : Hook) : Hook :=
  {| status := status h; volume := volume h; isSpeaking := isSpeaking h;
     inputContextRef := inputContextRef h;
     outputContextRef := outputContextRef h; inputSourceRef := v;
     processorRef := processorRef h; outputGainNodeRef := outputGainNodeRef h;
     analyzerRef := analyzerRef h; nextStartTimeRef := nextStartTimeRef h;
     activeSourcesRef := activeSourcesRef h; sessionRef := sessionRef h;
     streamRef := streamRef h; currentInputRef := currentInputRef h;
     currentOutputRef := currentOutputRef h; sessionIdRef := sessionIdRef h;
     rafIdRef := rafIdRef h |}.

Definition with_processorRef (v : option AudioNode) (h : Hook) : Hook :=
  {| status := status h; volume := volume h; isSpeaking := isSpeaking h;
     inputContextRef := inputContextRef h;
     outputContextRef := outputContextRef h;
     inputSourceRef := inputSourceRef h; processorRef := v;
     outputGainNodeRef := outputGainNodeRef h; analyzerRef := analyzerRef h;
     nextStartTimeRef := nextStartTimeRef h;
     activeSourcesRef := activeSourcesRef h; sessionRef := sessionRef h;
     streamRef := streamRef h; currentInputRef := currentInputRef h;
     currentOutputRef := currentOutputRef h; sessionIdRef := sessionIdRef h;
     rafIdRef := rafIdRef h |}.

Definition with_outputGainNodeRef (v : option AudioNode) (h : Hook) : Hook :=
  {| status := status h; volume := volume h; isSpeaking := isSpeaking h;
     inputContextRef := inputContextRef h;
     outputContextRef := outputContextRef h;
     inputSourceRef := inputSourceRef h; processorRef := processorRef h;
     outputGainNodeRef := v; analyzerRef := analyzerRef h;
     nextStartTimeRef := nextStartTimeRef h;
     activeSourcesRef := activeSourcesRef h; sessionRef := sessionRef h;
     streamRef := streamRef h; currentInputRef := currentInputRef h;
     currentOutputRef := currentOutputRef h; sessionIdRef := sessionIdRef h;
     rafIdRef := rafIdRef h |}.

Definition with_analyzerRef (v : option AudioNode) (h : Hook) : Hook :=
  {| status := status h; volume := volume h; isSpeaking := isSpeaking h;
     inputContextRef := inputContextRef h;
     outputContextRef := outputContextRef h;
     inputSourceRef := inputSourceRef h; processorRef := processorRef h;
     outputGainNodeRef := outputGainNodeRef h; analyzerRef := v;
     nextStartTimeRef := nextStartTimeRef h;
     activeSourcesRef := activeSourcesRef h; sessionRef := sessionRef h;
     streamRef := streamRef h; currentInputRef := currentInputRef h;
     currentOutputRef := currentOutputRef h; sessionIdRef := sessionIdRef h;
     rafIdRef := rafIdRef h |}.

Definition with_nextStartTimeRef (v : Q) (h : Hook) : Hook :=
  {| status := status h; volume := volume h; isSpeaking := isSpeaking h;
     inputContextRef := inputContextRef h;
     outputContextRef := outputContextRef h;
     inputSourceRef := inputSourceRef h; processorRef := processorRef h;
     outputGainNodeRef := outputGainNodeRef h; analyzerRef := analyzerRef h;
     nextStartTimeRef := v; activeSourcesRef := activeSourcesRef h;
     sessionRef := sessionRef h; streamRef := streamRef h;
     currentInputRef := currentInputRef h;
     currentOutputRef := currentOutputRef h; sessionIdRef := sessionIdRef h;
     rafIdRef := rafIdRef h |}.

Definition with_activeSourcesRef (v : list AudioBufferSourceNode) (h : Hook) : Hook :=
  {| status := status h; volume := volume h; isSpeaking := isSpeaking h;
     inputContextRef := inputContextRef h;
     outputContextRef := outputContextRef h;
     inputSourceRef := inputSourceRef h; processorRef := processorRef h;
     outputGainNodeRef := outputGainNodeRef h; analyzerRef := analyzerRef h;
     nextStartTimeRef := nextStartTimeRef h; activeSourcesRef := v;
     sessionRef := sessionRef h; streamRef := streamRef h;
     currentInputRef := currentInputRef h;
     currentOutputRef := currentOutputRef h; sessionIdRef := sessionIdRef h;
     rafIdRef := rafIdRef h |}.

Definition with_sessionRef (v : option Session) (h : Hook) : Hook :=
  {| status := status h; volume := volume h; isSpeaking := isSpeaking h;
     inputContextRef := inputContextRef h;
     outputContextRef := outputContextRef h;
     inputSourceRef := inputSourceRef h; processorRef := processorRef h;
     outputGainNodeRef := outputGainNodeRef h; analyzerRef := analyzerRef h;
     nextStartTimeRef := nextStartTimeRef h;
     activeSourcesRef := activeSourcesRef h; sessionRef := v;
     streamRef := streamRef h; currentInputRef := currentInputRef h;
     currentOutputRef := currentOutputRef h; sessionIdRef := sessionIdRef h;
     rafIdRef := rafIdRef h |}.

Definition with_streamRef (v : option MediaStream) (h : Hook) : Hook :=
  {| status := status h; volume := volume h; isSpeaking := isSpeaking h;
     inputContextRef := inputContextRef h;
     outputContextRef := outputContextRef h;
     inputSourceRef := inputSourceRef h; processorRef := processorRef h;
     outputGainNodeRef := outputGainNodeRef h; analyzerRef := analyzerRef h;
     nextStartTimeRef := nextStartTimeRef h;
     activeSourcesRef := activeSourcesRef h; sessionRef := sessionRef h;
     streamRef := v; currentInputRef := currentInputRef h;
     currentOutputRef := currentOutputRef h; sessionIdRef := sessionIdRef h;
     rafIdRef := rafIdRef h |}.

Definition with_currentInputRef (v : string) (h : Hook) : Hook :=
  {| status := status h; volume := volume h; isSpeaking := isSpeaking h;
     inputContextRef := inputContextRef h;
     outputContextRef := outputContextRef h;
     inputSourceRef := inputSourceRef h; processorRef := processorRef h;
     outputGainNodeRef := outputGainNodeRef h; analyzerRef := analyzerRef h;
     nextStartTimeRef := nextStartTimeRef h;
     activeSourcesRef := activeSourcesRef h; sessionRef := sessionRef h;
     streamRef := streamRef h; currentInputRef := v;
     currentOutputRef := currentOutputRef h; sessionIdRef := sessionIdRef h;
     rafIdRef := rafIdRef h |}.

Definition with_currentOutputRef (v : string) (h : Hook) : Hook :=
  {| status := status h; volume := volume h; isSpeaking := isSpeaking h;
     inputContextRef := inputContextRef h;
     outputContextRef := outputContextRef h;
     inputSourceRef := inputSourceRef h; processorRef := processorRef h;
     outputGainNodeRef := outputGainNodeRef h; analyzerRef := analyzerRef h;
     nextStartTimeRef := nextStartTimeRef h;
     activeSourcesRef := activeSourcesRef h; sessionRef := sessionRef h;
     streamRef := streamRef h; currentInputRef := currentInputRef h;
     currentOutputRef := v; sessionIdRef := sessionIdRef h;
     rafIdRef := rafIdRef h |}.

Definition with_sessionIdRef (v : string) (h : Hook) : Hook :=
  {| status := status h; volume := volume h; isSpeaking := isSpeaking h;
     inputContextRef := inputContextRef h;
     outputContextRef := outputContextRef h;
     inputSourceRef := inputSourceRef h; processorRef := processorRef h;
     outputGainNodeRef := outputGainNodeRef h; analyzerRef := analyzerRef h;
     nextStartTimeRef := nextStartTimeRef h;
     activeSourcesRef := activeSourcesRef h; sessionRef := sessionRef h;
     streamRef := streamRef h; currentInputRef := currentInputRef h;
     currentOutputRef := currentOutputRef h; sessionIdRef := v;
     rafIdRef := rafIdRef h |}.

Definition with_rafIdRef (v : option nat) (h : Hook) : Hook :=
  {| status := status h; volume := volume h; isSpeaking := isSpeaking h;
     inputContextRef := inputContextRef h;
     outputContextRef := outputContextRef h;
     inputSourceRef := inputSourceRef h; processorRef := processorRef h;
     outputGainNodeRef := outputGainNodeRef h; analyzerRef := analyzerRef h;
     nextStartTimeRef := nextStartTimeRef h;
     activeSourcesRef := activeSourcesRef h; sessionRef := sessionRef h;
     streamRef := streamRef h; currentInputRef := currentInputRef h;
     currentOutputRef := currentOutputRef h; sessionIdRef := sessionIdRef h;
     rafIdRef := v |}.

(** The cells as the first render leaves them; [uuid] is the value
    [crypto.randomUUID()] returned for [sessionIdRef]. *)
Definition initialHook (uuid : string) : Hook :=
  {| status := disconnected; volume := 0; isSpeaking := false;
     inputContextRef := None; outputContextRef := None;
     inputSourceRef := None; processorRef := None;
     outputGainNodeRef := None; analyzerRef := None;
     nextStartTimeRef := 0; activeSourcesRef := [];
     sessionRef := None; streamRef := None;
     currentInputRef := ""; currentOutputRef := ""; sessionIdRef := uuid;
     rafIdRef := None |}.

(** ** The outside world *)

(** What the browser holds on behalf of the page: the audio contexts that
    have been created and not closed, the microphone streams whose tracks
    have not been stopped, and [openChannels], the channels the hook has
    asked for.  The hook makes no call that closes a channel ([cleanup] only
    drops its reference), and whether the other end has closed one is not
    recorded: [openChannels] is a log of [ai.live.connect] calls. *)
Record Browser : Type :=
  { fresh : nat;
    openContexts : list AudioContext;
    liveStreams : list MediaStream;
    openChannels : list Session }.

Definition initialBrowser : Browser :=
  {| fresh := 0; openContexts := []; liveStreams := []; openChannels := [] |}.

Record Sys : Type := { hook : Hook; browser : Browser }.

(** The calls a callback makes on React, the console, the Web Audio and
    media APIs, the agent SDK and the persistence module. *)
Inductive Event : Type :=
| SetStatus (s : SessionStatus)
| SetVolume (v : Q)
| SetIsSpeaking (b : bool)
| ConsoleLog (text : string)
| ConsoleError (text : string)
| NewAudioContext (rate : Z)
| ContextClose (ctx : AudioContext)
| CreateNode (node : AudioNode) (ctx : AudioContext)
| NodeConnect (from to : nat)
| ConnectDestination (from : nat) (ctx : AudioContext)
| NodeDisconnect (node : AudioNode)
| GetUserMedia
| TrackStop (stream : MediaStream)
| RequestAnimationFrame (handle : nat)
| CancelAnimationFrame (handle : nat)
| NewGoogleGenAI (apiKey : string)
| LiveConnect (modelName : string)
| SaveTranscript (role : Role) (text sessionId : string)
| CreateBufferSource (source : AudioBufferSourceNode)
| SourceStart (source : AudioBufferSourceNode) (when : Q)
| SourceStop (source : AudioBufferSourceNode).

(** ** Callbacks as computations *)

Inductive Completion (A : Type) : Type :=
| Normal (a : A)
| Throw.

Arguments Normal {A} a.
Arguments Throw {A}.

Record Step (A : Type) : Type :=
  { completion : Completion A; after : Sys; emitted : list Event }.

Arguments completion {A} _.
Arguments after {A} _.
Arguments emitted {A} _.

Definition M (A : Type) : Type := Sys -> Step A.

Definition ret {A : Type} (a : A) : M A :=
  fun s => {| completion := Normal a; after := s; emitted := [] |}.

Definition bind {A B : Type} (m : M A) (k : A -> M B) : M B :=
  fun s =>
    match m s with
    | {| completion := Normal a; after := s1; emitted := e1 |} =>
        match k a s1 with
        | {| completion := c; after := s2; emitted := e2 |} =>
            {| completion := c; after := s2; emitted := e1 ++ e2 |}
        end
    | {| completion := Throw; after := s1; emitted := e1 |} =>
        {| completion := Throw; after := s1; emitted := e1 |}
    end.

Declare Scope hook_scope.
Delimit Scope hook_scope with hook.
Notation "x <- m ;; k" := (bind m (fun x => k))
  (at level 61, m at next level, right associativity) : hook_scope.
Notation "m ;; k" := (bind m (fun _ => k))
  (at level 61, right associativity) : hook_scope.
Local Open Scope hook_scope.

Definition throw {A : Type} : M A :=
  fun s => {| completion := Throw; after := s; emitted := [] |}.

(** [try { body } catch (e) { handler }] *)
Definition try_catch (body handler : M unit) : M unit :=
  fun s =>
    match body s with
    | {| completion := Normal a; after := s1; emitted := e1 |} =>
        {| completion := Normal a; after := s1; emitted := e1 |}
    | {| completion := Throw; after := s1; emitted := e1 |} =>
        match handler s1 with
        | {| completion := c; after := s2; emitted := e2 |} =>
            {| completion := c; after := s2; emitted := e1 ++ e2 |}
        end
    end.

Definition get : M Hook :=
  fun s => {| completion := Normal (hook s); after := s; emitted := [] |}.

Definition modify (f : Hook -> Hook) : M unit :=
  fun s =>
    {| completion := Normal tt;
       after := {| hook := f (hook s); browser := browser s |};
       emitted := [] |}.

Definition world (f : Browser -> Browser) : M unit :=
  fun s =>
    {| completion := Normal tt;
       after := {| hook := hook s; browser := f (browser s) |};
       emitted := [] |}.

Definition emit (e : Event) : M unit :=
  fun s => {| completion := Normal tt; after := s; emitted := [e] |}.

(** A new object identity. *)
Definition alloc : M nat :=
  fun s =>
    let b := browser s in
    {| completion := Normal (fresh b);
       after := {| hook := hook s;
                   browser := {| fresh := S (fresh b);
                                 openContexts := openContexts b;
                                 liveStreams := liveStreams b;
                                 openChannels := openChannels b |} |};
       emitted := [] |}.

(** [collection.forEach(f)] *)
Fixpoint forEach {A : Type} (l : list A) (f : A -> M unit) : M unit :=
  match l with
  | [] => ret tt
  | x :: rest => f x ;; forEach rest f
  end.

(** [if (ref.current) f(ref.current)] for a ref that holds an object. *)
Definition whenSome {A : Type} (o : option A) (f : A -> M unit) : M unit :=
  match o with
  | Some x => f x
  | None => ret tt
  end.

(** *** React state setters and the console *)

Definition setStatus (v : SessionStatus) : M unit :=
  modify (with_status v) ;; emit (SetStatus v).

Definition setVolume (v : Q) : M unit :=
  modify (with_volume v) ;; emit (SetVolume v).

Definition setIsSpeaking (v : bool) : M unit :=
  modify (with_isSpeaking v) ;; emit (SetIsSpeaking v).

Definition console_log (text : string) : M unit := emit (ConsoleLog text).

Definition console_error (text : string) : M unit := emit (ConsoleError text).

(** *** Web Audio, media devices, animation frames *)

Definition remove_context (ctx : AudioContext) (b : Browser) : Browser :=
  {| fresh := fresh b;
     openContexts :=
       filter (fun c => negb (context_id c =? context_id ctx)%nat)
              (openContexts b);
     liveStreams := liveStreams b;
     openChannels := openChannels b |}.

Definition add_context (ctx : AudioContext) (b : Browser) : Browser :=
  {| fresh := fresh b;
     openContexts := openContexts b ++ [ctx];
     liveStreams := liveStreams b;
     openChannels := openChannels b |}.

Definition remove_stream (st : MediaStream) (b : Browser) : Browser :=
  {| fresh := fresh b;
     openContexts := openContexts b;
     liveStreams :=
       filter (fun x => negb (stream_id x =? stream_id st)%nat)
              (liveStreams b);
     openChannels := openChannels b |}.

Definition add_stream (st : MediaStream) (b : Browser) : Browser :=
  {| fresh := fresh b;
     openContexts := openContexts b;
     liveStreams := liveStreams b ++ [st];
     openChannels := openChannels b |}.

Definition add_channel (ch : Session) (b : Browser) : Browser :=
  {| fresh := fresh b;
     openContexts := openContexts b;
     liveStreams := liveStreams b;
     openChannels := openChannels b ++ [ch] |}.

(** [new AudioContext({ sampleRate })]; [available] is the browser's answer:
    the constructor throws when it is [false]. *)
Definition newAudioContext (available : bool) (rate : Z) : M AudioContext :=
  emit (NewAudioContext rate) ;;
  if available then
    id <- alloc ;;
    let ctx := {| context_id := id; sampleRate := rate |} in
    world (add_context ctx) ;;
    ret ctx
  else throw.

(** [ctx.close()].  It returns a promise the hook drops, so it never throws
    into the caller. *)
Definition close (ctx : AudioContext) : M unit :=
  emit (ContextClose ctx) ;; world (remove_context ctx).

Definition createNode (kind : NodeKind) (ctx : AudioContext) : M AudioNode :=
  id <- alloc ;;
  let node := {| node_id := id; node_kind := kind |} in
  emit (CreateNode node ctx) ;;
  ret node.

(** [node.disconnect()] with no argument drops every outgoing connection and
    does not throw when there is none. *)
Definition disconnectNode (node : AudioNode) : M unit :=
  emit (NodeDisconnect node).

(** [await navigator.mediaDevices.getUserMedia({ audio: true })]; the promise
    rejects when [granted] is [false]. *)
Definition getUserMedia (granted : bool) : M MediaStream :=
  emit GetUserMedia ;;
  if granted then
    id <- alloc ;;
    let st := {| stream_id := id |} in
    world (add_stream st) ;;
    ret st
  else throw.

(** [stream.getTracks().forEach(track => track.stop())] *)
Definition stopTracks (st : MediaStream) : M unit :=
  emit (TrackStop st) ;; world (remove_stream st).

(** [requestAnimationFrame(callback)]: the handle is a non-zero integer. *)
Definition requestAnimationFrame : M nat :=
  id <- alloc ;;
  emit (RequestAnimationFrame (S id)) ;;
  ret (S id).

Definition cancelAnimationFrame (handle : nat) : M unit :=
  emit (CancelAnimationFrame handle).

(** [try { source.stop(); } catch (e) {}]: the call is made and whatever it
    throws is swallowed. *)
Definition stopSource (source : AudioBufferSourceNode) : M unit :=
  emit (SourceStop source).

(** *** The agent SDK *)

Definition MODEL_NAME : string :=
  "gemini-2.5-flash-native-audio-preview-09-2025".

(** [new GoogleGenAI({ apiKey })]; throws when [constructed] is [false]. *)
Definition newGoogleGenAI (constructed : bool) (apiKey : string) : M unit :=
  emit (NewGoogleGenAI apiKey) ;;
  if constructed then ret tt else throw.

(** [ai.live.connect({...})]: returns a promise at once; the hook does not
    await it. *)
Definition liveConnect : M Session :=
  emit (LiveConnect MODEL_NAME) ;;
  id <- alloc ;;
  let ch := {| channel_id := id |} in
  world (add_channel ch) ;;
  ret ch.

(** *** Persistence (utils/firebase.ts) *)

(** The call [saveTranscript(role, text, sessionId)] as the hook makes it.
    The function is [async] and catches what [addDoc] throws, so the call
    never throws into the hook. *)
Definition saveTranscript (role : Role) (text sessionId : string) : M unit :=
  emit (SaveTranscript role text sessionId).

(** The body of [saveTranscript]: the document one call hands to [addDoc]
    for the [transcripts] collection, if any.  Blank text is dropped, other
    text is stored trimmed.  (A write that fails is caught and logged; that
    is not represented.)  Of the document the three fields the call
    determines are kept: [timestamp] is the sentinel [serverTimestamp()],
    which the server replaces, and [createdAt] is the wall clock at the
    call; they are not represented, and no statement compares the documents
    of two calls. *)
Record TranscriptDoc : Type :=
  { doc_sessionId : string; doc_role : Role; doc_text : string }.

(** The code points [String.prototype.trim] strips: the WhiteSpace and the
    LineTerminator code points of ECMAScript.  WhiteSpace is TAB, VT, FF,
    ZWNBSP (U+FEFF) and the space separators (category Zs): SP, NBSP
    (U+00A0), U+1680, U+2000 to U+200A, U+202F, U+205F and U+3000.
    LineTerminator is LF, CR, U+2028 and U+2029. *)
Definition whiteSpaceCodePoints : list N :=
  [ 9; 11; 12; 65279;
    32; 160; 5760;
    8192; 8193; 8194; 8195; 8196; 8197; 8198; 8199; 8200; 8201; 8202;
    8239; 8287; 12288;
    10; 13; 8232; 8233 ]%N.

(** The UTF-8 encoding of a code point below U+10000. *)
Definition utf8 (codePoint : N) : list ascii :=
  (if codePoint <? 128 then [ascii_of_N codePoint]
   else if codePoint <? 2048 then
     [ascii_of_N (192 + codePoint / 64); ascii_of_N (128 + codePoint mod 64)]
   else
     [ascii_of_N (224 + codePoint / 4096);
      ascii_of_N (128 + (codePoint / 64) mod 64);
      ascii_of_N (128 + codePoint mod 64)])%N.

(** The white space characters, each as its bytes.  Only a whole encoding
    is ever stripped, never a byte of another character. *)
Definition whiteSpace : list (list ascii) :=
  Eval vm_compute in map utf8 whiteSpaceCodePoints.

(** [l] without the prefix [p], when it begins with [p]. *)
Fixpoint dropPrefix (p l : list ascii) : option (list ascii) :=
  match p, l with
  | [], _ => Some l
  | c :: p', d :: l' => if Ascii.eqb c d then dropPrefix p' l' else None
  | _ :: _, [] => None
  end.

(** [l] without the character of [characters] it begins with, when it
    begins with one. *)
Fixpoint dropOne (characters : list (list ascii)) (l : list ascii)
  : option (list ascii) :=
  match characters with
  | [] => None
  | p :: others =>
      match dropPrefix p l with
      | Some rest => Some rest
      | None => dropOne others l
      end
  end.

(** [l] without the characters of [characters] it begins with.  Every
    character is at least one byte long, so the length of [l] is fuel
    enough. *)
Fixpoint strip (characters : list (list ascii)) (fuel : nat)
    (l : list ascii) : list ascii :=
  match fuel with
  | O => l
  | S fuel' =>
      match dropOne characters l with
      | Some rest => strip characters fuel' rest
      | None => l
      end
  end.

Definition trimStart (s : string) : string :=
  let l := list_ascii_of_string s in
  string_of_list_ascii (strip whiteSpace (List.length l) l).

(** The same from the end: on the reversed bytes, with the characters
    reversed. *)
Definition trimEnd (s : string) : string :=
  let l := List.rev (list_ascii_of_string s) in
  string_of_list_ascii
    (List.rev (strip (map (@List.rev ascii) whiteSpace) (List.length l) l)).

Definition trim (s : string) : string := trimEnd (trimStart s).

Definition addDoc (role : Role) (text sessionId : string)
  : option TranscriptDoc :=
  if negb (truthy text) || negb (truthy (trim text)) then None
  else Some {| doc_sessionId := sessionId; doc_role := role;
               doc_text := trim text |}.

(** ** The hook (hooks/useLiveSession.ts) *)

(** *** [cleanup], exported as [disconnect]

    No step changes a cell before the step that reads it, so the cells are
    read once, after [sessionRef] is dropped. *)
Definition cleanup : M unit :=
  (* if (sessionRef.current) sessionRef.current = null; *)
  modify (with_sessionRef None) ;;
  (* Stop all active sources *)
  h <- get ;;
  forEach (activeSourcesRef h) stopSource ;;
  modify (with_activeSourcesRef []) ;;
  (* Disconnect audio nodes *)
  whenSome (inputSourceRef h) disconnectNode ;;
  whenSome (processorRef h) disconnectNode ;;
  whenSome (outputGainNodeRef h) disconnectNode ;;
  whenSome (analyzerRef h) disconnectNode ;;
  (* Close contexts *)
  whenSome (inputContextRef h) close ;;
  whenSome (outputContextRef h) close ;;
  (* Stop mic stream *)
  whenSome (streamRef h)
    (fun st => stopTracks st ;; modify (with_streamRef None)) ;;
  (* if (rafIdRef.current): a handle, and 0 is falsy *)
  match rafIdRef h with
  | Some (S n) =>
      cancelAnimationFrame (S n) ;; modify (with_rafIdRef None)
  | _ => ret tt
  end ;;
  (* Save any pending partial transcripts on disconnect *)
  (if truthy (currentInputRef h) then
     saveTranscript user (currentInputRef h) (sessionIdRef h) ;;
     modify (with_currentInputRef "")
   else ret tt) ;;
  (if truthy (currentOutputRef h) then
     saveTranscript model (currentOutputRef h) (sessionIdRef h) ;;
     modify (with_currentOutputRef "")
   else ret tt) ;;
  modify (with_inputContextRef None) ;;
  modify (with_outputContextRef None) ;;
  setStatus disconnected ;;
  setIsSpeaking false ;;
  setVolume 0.

Definition disconnect : M unit := cleanup.

(** *** The volume monitoring loop

    [analyzerRef.current.fftSize = 256], so [frequencyBinCount] is 128;
    [dataArray] is the content [getByteFrequencyData] wrote. *)
Definition bufferLength : nat := 128.

(** [Math.min(1, average / 50)] for the bytes of [dataArray]. *)
Definition normalizedVolume (dataArray : list Z) : Q :=
  let sum := fold_left Z.add (firstn bufferLength dataArray) 0%Z in
  let average := (inject_Z sum / inject_Z (Z.of_nat bufferLength))%Q in
  Qmin 1 (average / 50).

Definition updateVolume (dataArray : list Z) : M unit :=
  h <- get ;;
  match analyzerRef h with
  | Some _ => setVolume (normalizedVolume dataArray)
  | None => ret tt
  end ;;
  handle <- requestAnimationFrame ;;
  modify (with_rafIdRef (Some handle)).

(** *** [connect] *)

(** What the environment answers during one call of [connect]. *)
Record Env : Type :=
  { API_KEY : option string;          (* process.env.API_KEY *)
    randomUUID : string;              (* crypto.randomUUID() *)
    inputContextAvailable : bool;     (* new AudioContext({16000}) returns *)
    outputContextAvailable : bool;    (* new AudioContext({24000}) returns *)
    frequencyData : list Z;           (* first getByteFrequencyData *)
    microphoneGranted : bool;         (* getUserMedia resolves *)
    clientConstructed : bool }.       (* new GoogleGenAI returns *)

Definition connect (env : Env) : M unit :=
  if negb (truthy_opt (API_KEY env)) then
    console_error "API Key missing" ;;
    setStatus error
  else
    (* Generate a new session ID for this connection *)
    modify (with_sessionIdRef (randomUUID env)) ;;
    try_catch
      (setStatus connecting ;;
       (* 1. Initialize Audio Contexts *)
       inputContext <- newAudioContext (inputContextAvailable env) 16000 ;;
       modify (with_inputContextRef (Some inputContext)) ;;
       outputContext <- newAudioContext (outputContextAvailable env) 24000 ;;
       modify (with_outputContextRef (Some outputContext)) ;;
       (* 2. Setup Audio Analysis for Visualization *)
       analyzer <- createNode Analyser outputContext ;;
       modify (with_analyzerRef (Some analyzer)) ;;
       updateVolume (frequencyData env) ;;
       (* 3. Setup Output Chain *)
       gain <- createNode Gain outputContext ;;
       modify (with_outputGainNodeRef (Some gain)) ;;
       emit (NodeConnect (node_id gain) (node_id analyzer)) ;;
       emit (ConnectDestination (node_id analyzer) outputContext) ;;
       (* 4. Get Microphone Access *)
       stream <- getUserMedia (microphoneGranted env) ;;
       modify (with_streamRef (Some stream)) ;;
       (* 5. Initialize Gemini Client *)
       newGoogleGenAI (clientConstructed env) (text_of (API_KEY env)) ;;
       (* 6. Establish Connection *)
       sessionPromise <- liveConnect ;;
       modify (with_sessionRef (Some sessionPromise)))
      (console_error "Failed to connect" ;;
       setStatus error ;;
       cleanup).

(** *** The channel callbacks *)

Definition onopen : M unit :=
  setStatus connected ;;
  (* Setup Input Processing ONLY after connection is open *)
  h <- get ;;
  match inputContextRef h, streamRef h with
  | Some inputContext, Some _ =>
      source <- createNode MediaStreamSource inputContext ;;
      modify (with_inputSourceRef (Some source)) ;;
      processor <- createNode ScriptProcessor inputContext ;;
      modify (with_processorRef (Some processor)) ;;
      emit (NodeConnect (node_id source) (node_id processor)) ;;
      emit (ConnectDestination (node_id processor) inputContext)
  | _, _ => ret tt
  end.

(** 1. Handle Transcription *)
Definition handleTranscription (message : LiveServerMessage) : M unit :=
  (if truthy (inputText message) then
     modify (fun h =>
       with_currentInputRef (currentInputRef h ++ inputText message) h)
   else ret tt) ;;
  (if truthy (outputText message) then
     modify (fun h =>
       with_currentOutputRef (currentOutputRef h ++ outputText message) h)
   else ret tt).

(** 2. Handle Turn Completion (Save to DB) *)
Definition handleTurnCompletion (message : LiveServerMessage) : M unit :=
  if isTurnComplete message then
    h <- get ;;
    (* Save user part if available *)
    (if truthy (currentInputRef h) then
       saveTranscript user (currentInputRef h) (sessionIdRef h) ;;
       modify (with_currentInputRef "")
     else ret tt) ;;
    (* Save model part if available *)
    (if truthy (currentOutputRef h) then
       saveTranscript model (currentOutputRef h) (sessionIdRef h) ;;
       modify (with_currentOutputRef "")
     else ret tt) ;;
    setIsSpeaking false
  else ret tt.

(** 3. Handle Interruption (Barge-In): the body of
    [if (serverContent?.interrupted) { ...; return; }] *)
Definition INTERRUPTED : string := " [INTERRUPTED]".

Definition handleInterruption : M unit :=
  console_log "User interrupted. Clearing audio queue." ;;
  h <- get ;;
  (* Save whatever model said before being interrupted *)
  (if truthy (currentOutputRef h) then
     saveTranscript model (currentOutputRef h ++ INTERRUPTED) (sessionIdRef h) ;;
     modify (with_currentOutputRef "")
   else ret tt) ;;
  forEach (activeSourcesRef h) stopSource ;;
  modify (with_activeSourcesRef []) ;;
  modify (with_nextStartTimeRef 0) ;;
  setIsSpeaking false.

(** 4. Handle Audio Data, in one piece: the step when nothing else runs
    while the decoder is awaited.  [currentTime] is [ctx.currentTime] as the
    handler reads it, once, before decoding.  The two halves around the
    [await] are [audioUntilAwait] and [audioAfterAwait] below. *)
Definition handleAudioData
    (decodeAudioData : string -> option AudioBuffer) (currentTime : Q)
    (message : LiveServerMessage) : M unit :=
  h <- get ;;
  match base64Audio message, outputContextRef h, outputGainNodeRef h with
  | Some data, Some ctx, Some gain =>
      if truthy data then
        setIsSpeaking true ;;
        (* Ensure playback timing is continuous *)
        modify (fun h =>
          with_nextStartTimeRef (Qmax (nextStartTimeRef h) currentTime) h) ;;
        audioBuffer <-
          match decodeAudioData data with
          | Some decoded => ret decoded
          | None => throw
          end ;;
        id <- alloc ;;
        let source := {| source_id := id; buffer := audioBuffer |} in
        emit (CreateBufferSource source) ;;
        emit (NodeConnect id (node_id gain)) ;;
        h <- get ;;
        emit (SourceStart source (nextStartTimeRef h)) ;;
        modify (fun h =>
          with_nextStartTimeRef
            (nextStartTimeRef h + duration audioBuffer)%Q h) ;;
        modify (fun h =>
          with_activeSourcesRef (activeSourcesRef h ++ [source]) h)
      else ret tt
  | _, _, _ => ret tt
  end.

Definition onmessage
    (decodeAudioData : string -> option AudioBuffer) (currentTime : Q)
    (message : LiveServerMessage) : M unit :=
  handleTranscription message ;;
  handleTurnCompletion message ;;
  if isInterrupted message then handleInterruption
  else handleAudioData decodeAudioData currentTime message.

(** [source.onended] *)
Definition onended (source : AudioBufferSourceNode) : M unit :=
  modify (fun h =>
    with_activeSourcesRef
      (filter (fun s => negb (source_id s =? source_id source)%nat)
              (activeSourcesRef h)) h) ;;
  h <- get ;;
  (* Simple heuristic: if no sources active, we aren't speaking *)
  match activeSourcesRef h with
  | [] => setIsSpeaking false
  | _ :: _ => ret tt
  end.

Definition onclose : M unit :=
  console_log "Session closed" ;;
  setStatus disconnected.

Definition onerror : M unit :=
  console_error "Session error" ;;
  setStatus error.

(** ** Runs and observations *)

(** The persistence writes of a trace: the calls of [saveTranscript], in
    order, each with its role, text and session identifier. *)
Definition writes (trace : list Event) : list (Role * string * string) :=
  flat_map (fun e =>
    match e with
    | SaveTranscript role text sessionId => [(role, text, sessionId)]
    | _ => []
    end) trace.

(** The documents those calls add to the store. *)
Definition documents (trace : list Event) : list TranscriptDoc :=
  flat_map (fun e =>
    match e with
    | SaveTranscript role text sessionId =>
        match addDoc role text sessionId with
        | Some doc => [doc]
        | None => []
        end
    | _ => []
    end) trace.

(** The segments a trace schedules, each with the time handed to
    [source.start], and the segments it stops. *)
Definition starts (trace : list Event)
  : list (AudioBufferSourceNode * Q) :=
  flat_map (fun e =>
    match e with
    | SourceStart source when => [(source, when)]
    | _ => []
    end) trace.

Definition stops (trace : list Event) : list AudioBufferSourceNode :=
  flat_map (fun e =>
    match e with
    | SourceStop source => [source]
    | _ => []
    end) trace.

(** An inbound message together with the clock reading its handler takes. *)
Record Arrival : Type := { clock : Q; message : LiveServerMessage }.

(** Messages handled one after the other, in arrival order, each handler
    in one piece.  A handler that rejects (its decoder threw) leaves the
    cells as it had set them and the next message is handled all the
    same. *)
Fixpoint run (decodeAudioData : string -> option AudioBuffer)
    (arrivals : list Arrival) (s : Sys) : Step unit :=
  match arrivals with
  | [] => ret tt s
  | a :: rest =>
      match onmessage decodeAudioData (clock a) (message a) s with
      | {| completion := _; after := s1; emitted := e1 |} =>
          match run decodeAudioData rest s1 with
          | {| completion := c; after := s2; emitted := e2 |} =>
              {| completion := c; after := s2; emitted := e1 ++ e2 |}
          end
      end
  end.

(** The live output devices: the open contexts that run at the playback
    rate.  [connect] creates the input context at 16 kHz and the output
    context at 24 kHz. *)
Definition outputDevices (b : Browser) : list AudioContext :=
  filter (fun c => (sampleRate c =? 24000)%Z) (openContexts b).

Definition optionList {A : Type} (o : option A) : list A :=
  match o with
  | Some x => [x]
  | None => []
  end.

(** Every live context and stream is one the hook still refers to. *)
Definition owned (s : Sys) : Prop :=
  openContexts (browser s)
    = optionList (inputContextRef (hook s))
      ++ optionList (outputContextRef (hook s))
  /\ liveStreams (browser s) = optionList (streamRef (hook s)).

(** ** Vocabulary for the statements *)

(** The two buffers once the fragments of [message] are appended. *)
Definition inboundWith (message : LiveServerMessage) (h : Hook) : string :=
  currentInputRef h ++ inputText message.

Definition outboundWith (message : LiveServerMessage) (h : Hook) : string :=
  currentOutputRef h ++ outputText message.

(** The write that flushing a buffer issues: none when it is empty. *)
Definition flush (role : Role) (text sessionId : string) : list Event :=
  if truthy text then [SaveTranscript role text sessionId] else [].

(** The same on interruption: the text is written with the marker. *)
Definition flushInterrupted (text sessionId : string) : list Event :=
  if truthy text then [SaveTranscript model (text ++ INTERRUPTED) sessionId]
  else [].

Definition isSome {A : Type} (o : option A) : bool :=
  match o with
  | Some _ => true
  | None => false
  end.

(** The audio step runs: the message carries inline audio and the output
    context and gain node exist. *)
Definition audioStepRuns (message : LiveServerMessage) (h : Hook) : bool :=
  carriesAudio message
  && isSome (outputContextRef h) && isSome (outputGainNodeRef h).

(** The written records of a flush, as [writes] reports them. *)
Definition written (role : Role) (text sessionId : string)
  : list (Role * string * string) :=
  if truthy text then [(role, text, sessionId)] else [].

(** The cells as [cleanup] leaves them.  The node refs, the playback cursor
    and the session identifier are not reset. *)
Definition torn (h : Hook) : Hook :=
  {| status := disconnected; volume := 0; isSpeaking := false;
     inputContextRef := None; outputContextRef := None;
     inputSourceRef := inputSourceRef h; processorRef := processorRef h;
     outputGainNodeRef := outputGainNodeRef h; analyzerRef := analyzerRef h;
     nextStartTimeRef := nextStartTimeRef h; activeSourcesRef := [];
     sessionRef := None; streamRef := None;
     currentInputRef := ""; currentOutputRef := "";
     sessionIdRef := sessionIdRef h;
     rafIdRef :=
       match rafIdRef h with
       | Some (S _) => None
       | other => other
       end |}.

(** The browser once [cleanup] has closed the contexts and stopped the
    stream the hook refers to. *)
Definition released (h : Hook) (b : Browser) : Browser :=
  let b1 := match inputContextRef h with
            | Some ctx => remove_context ctx b
            | None => b
            end in
  let b2 := match outputContextRef h with
            | Some ctx => remove_context ctx b1
            | None => b1
            end in
  match streamRef h with
  | Some st => remove_stream st b2
  | None => b2
  end.

(** The calls [cleanup] makes, in order. *)
Definition teardown (h : Hook) : list Event :=
  map SourceStop (activeSourcesRef h)
  ++ map NodeDisconnect
       (optionList (inputSourceRef h) ++ optionList (processorRef h)
        ++ optionList (outputGainNodeRef h) ++ optionList (analyzerRef h))
  ++ map ContextClose
       (optionList (inputContextRef h) ++ optionList (outputContextRef h))
  ++ map TrackStop (optionList (streamRef h))
  ++ match rafIdRef h with
     | Some (S n) => [CancelAnimationFrame (S n)]
     | _ => []
     end
  ++ flush user (currentInputRef h) (sessionIdRef h)
  ++ flush model (currentOutputRef h) (sessionIdRef h)
  ++ [SetStatus disconnected; SetIsSpeaking false; SetVolume 0].

(** The status updates of a trace, as the presentation layer receives them. *)
Definition statuses (trace : list Event) : list SessionStatus :=
  flat_map (fun e =>
    match e with
    | SetStatus st => [st]
    | _ => []
    end) trace.

(** The acquisition calls of a trace: audio contexts, microphone requests,
    client constructions and channel opens. *)
Definition acquisitions (trace : list Event) : list Event :=
  filter (fun e =>
    match e with
    | GetUserMedia | LiveConnect _ | NewGoogleGenAI _ | NewAudioContext _ =>
        true
    | _ => false
    end) trace.

(** No session resource is held: what [cleanup] leaves of an [owned]
    state. *)
Definition idle (s : Sys) : Prop :=
  inputContextRef (hook s) = None
  /\ outputContextRef (hook s) = None
  /\ streamRef (hook s) = None
  /\ openContexts (browser s) = []
  /\ liveStreams (browser s) = [].

(** Every acquisition step of [connect] succeeds under [env]. *)
Definition acquires (env : Env) : bool :=
  inputContextAvailable env && outputContextAvailable env
  && microphoneGranted env && clientConstructed env.

(** ** A sample session, for concrete runs *)

Definition pageLoad : Sys :=
  {| hook := initialHook "session-0"; browser := initialBrowser |}.

Definition granted : Env :=
  {| API_KEY := Some "secret"; randomUUID := "session-1";
     inputContextAvailable := true; outputContextAvailable := true;
     frequencyData := repeat 0%Z 128;
     microphoneGranted := true; clientConstructed := true |}.

Definition microphoneDenied : Env :=
  {| API_KEY := Some "secret"; randomUUID := "session-1";
     inputContextAvailable := true; outputContextAvailable := true;
     frequencyData := repeat 0%Z 128;
     microphoneGranted := false; clientConstructed := true |}.

Definition unconfigured : Env :=
  {| API_KEY := None; randomUUID := "session-1";
     inputContextAvailable := true; outputContextAvailable := true;
     frequencyData := repeat 0%Z 128;
     microphoneGranted := true; clientConstructed := true |}.

(** The session once [connect] has returned and the channel has opened. *)
Definition opened : Sys :=
  Eval vm_compute in after (onopen (after (connect granted pageLoad))).

(** A decoder under which every payload is half a second of audio. *)
Definition halfSecond (data : string) : option AudioBuffer :=
  Some {| duration := 1 # 2 |}.

Definition content (heard said : option string) (complete barge : bool)
    (audio : option string) : LiveServerMessage :=
  {| serverContent :=
       Some {| inputTranscription := heard; outputTranscription := said;
               turnComplete := complete; interrupted := barge;
               modelTurn :=
                 match audio with
                 | Some data => Some [{| inlineData := Some data |}]
                 | None => None
                 end |} |}.

Definition userSpoke : LiveServerMessage :=
  content (Some "what time is it") None false false None.

Definition audioChunk : LiveServerMessage :=
  content None (Some "It is ") false false (Some "UklGRg==").

Definition turnEnd : LiveServerMessage :=
  content None None true false None.

Definition lastChunk : LiveServerMessage :=
  content None None true false (Some "UklGRg==").

Definition bargeIn : LiveServerMessage :=
  content None None false true (Some "UklGRg==").

Definition bargeInAtTurnEnd : LiveServerMessage :=
  content None None true true (Some "UklGRg==").

(** The first arrivals of a conversation. *)
Definition firstAnswer : list Arrival :=
  [ {| clock := 1; message := userSpoke |};
    {| clock := 2; message := audioChunk |};
    {| clock := 21 # 10; message := audioChunk |} ].

(** The agent is half way through its answer: the user's words and two
    fragments of the answer are buffered, two segments are scheduled. *)
Definition answering : Sys :=
  Eval vm_compute in after (run halfSecond firstAnswer opened).

(** The user barges in, and the agent starts over. *)
Definition bargedIn : list Arrival :=
  firstAnswer
  ++ [ {| clock := 22 # 10; message := bargeIn |};
       {| clock := 23 # 10; message := audioChunk |} ].

(** Simplification leaves these folded; the lemmas below say what they do. *)
Arguments whenSome : simpl never.
Arguments cleanup : simpl never.
Arguments teardown : simpl never.
Arguments released : simpl never.
Arguments normalizedVolume : simpl never.

(** ** [connect] around its [await]

    [connect] is an [async] function with one [await], on the microphone
    request.  Up to the request it runs within the call; what follows runs
    when the request is answered, and other callbacks can run in between.
    Both halves are inside the one [try]; [connect] above is the two run
    back to back. *)

(** The [catch] block. *)
Definition connectFailed : M unit :=
  console_error "Failed to connect" ;;
  setStatus error ;;
  cleanup.

(** [try { body } catch (e) { handler }], telling whether [body] ran to its
    end. *)
Definition attempt (body handler : M unit) : M bool :=
  fun s =>
    match body s with
    | {| completion := Normal _; after := s1; emitted := e1 |} =>
        {| completion := Normal true; after := s1; emitted := e1 |}
    | {| completion := Throw; after := s1; emitted := e1 |} =>
        match handler s1 with
        | {| completion := Normal _; after := s2; emitted := e2 |} =>
            {| completion := Normal false; after := s2; emitted := e1 ++ e2 |}
        | {| completion := Throw; after := s2; emitted := e2 |} =>
            {| completion := Throw; after := s2; emitted := e1 ++ e2 |}
        end
    end.

(** From the call to the [await]: the result is [true] when the microphone
    request was made and the function is suspended on it. *)
Definition connectUntilAwait (env : Env) : M bool :=
  if negb (truthy_opt (API_KEY env)) then
    console_error "API Key missing" ;;
    setStatus error ;;
    ret false
  else
    modify (with_sessionIdRef (randomUUID env)) ;;
    attempt
      (setStatus connecting ;;
       (* 1. Initialize Audio Contexts *)
       inputContext <- newAudioContext (inputContextAvailable env) 16000 ;;
       modify (with_inputContextRef (Some inputContext)) ;;
       outputContext <- newAudioContext (outputContextAvailable env) 24000 ;;
       modify (with_outputContextRef (Some outputContext)) ;;
       (* 2. Setup Audio Analysis for Visualization *)
       analyzer <- createNode Analyser outputContext ;;
       modify (with_analyzerRef (Some analyzer)) ;;
       updateVolume (frequencyData env) ;;
       (* 3. Setup Output Chain *)
       gain <- createNode Gain outputContext ;;
       modify (with_outputGainNodeRef (Some gain)) ;;
       emit (NodeConnect (node_id gain) (node_id analyzer)) ;;
       emit (ConnectDestination (node_id analyzer) outputContext) ;;
       (* 4. Get Microphone Access: the request is made, the function
          waits *)
       emit GetUserMedia)
      connectFailed.

(** The answer to the microphone request: the stream, or a rejection. *)
Definition userMediaAnswered (granted : bool) : M MediaStream :=
  if granted then
    id <- alloc ;;
    let st := {| stream_id := id |} in
    world (add_stream st) ;;
    ret st
  else throw.

(** From the answer to the end of the function. *)
Definition connectAfterAwait (env : Env) : M unit :=
  try_catch
    (stream <- userMediaAnswered (microphoneGranted env) ;;
     modify (with_streamRef (Some stream)) ;;
     (* 5. Initialize Gemini Client *)
     newGoogleGenAI (clientConstructed env) (text_of (API_KEY env)) ;;
     (* 6. Establish Connection *)
     sessionPromise <- liveConnect ;;
     modify (with_sessionRef (Some sessionPromise)))
    connectFailed.

(** ** The event loop

    Everything that can happen to the hook: its user calls [connect] or
    [disconnect], a suspended [connect] is resumed, or the browser or the
    SDK calls one of the callbacks the hook registered.  Here a message
    handler runs in one piece; the loop in which it can be suspended as
    well is [turn], further down.  The decoder is the same throughout. *)
Inductive Notification : Type :=
| OnOpen
| OnMessage (a : Arrival)
| OnEnded (source : AudioBufferSourceNode)
| OnClose
| OnError
| OnFrame (dataArray : list Z).

Definition notify (decodeAudioData : string -> option AudioBuffer)
    (n : Notification) : M unit :=
  match n with
  | OnOpen => onopen
  | OnMessage a => onmessage decodeAudioData (clock a) (message a)
  | OnEnded source => onended source
  | OnClose => onclose
  | OnError => onerror
  | OnFrame dataArray => updateVolume dataArray
  end.

Inductive Callback : Type :=
| CallConnect (env : Env)
| ResumeConnect (env : Env)
| CallDisconnect
| Notify (n : Notification).

Definition fire (decodeAudioData : string -> option AudioBuffer)
    (c : Callback) : M unit :=
  match c with
  | CallConnect env => connectUntilAwait env ;; ret tt
  | ResumeConnect env => connectAfterAwait env
  | CallDisconnect => disconnect
  | Notify n => notify decodeAudioData n
  end.

(** A history of callbacks, fired in order.  A handler that rejects does
    not stop the loop. *)
Fixpoint fireAll (decodeAudioData : string -> option AudioBuffer)
    (history : list Callback) (s : Sys) : Step unit :=
  match history with
  | [] => ret tt s
  | c :: rest =>
      match fire decodeAudioData c s with
      | {| completion := _; after := s1; emitted := e1 |} =>
          match fireAll decodeAudioData rest s1 with
          | {| completion := c2; after := s2; emitted := e2 |} =>
              {| completion := c2; after := s2; emitted := e1 ++ e2 |}
          end
      end
  end.

(** The messages of a history, in order. *)
Definition arrivalsOf (history : list Callback) : list Arrival :=
  flat_map (fun c =>
    match c with
    | Notify (OnMessage a) => [a]
    | _ => []
    end) history.

(** The bytes [getByteFrequencyData] writes are not negative. *)
Definition bytes (dataArray : list Z) : Prop :=
  Forall (fun b => (0 <= b)%Z) dataArray.

(** The bytes a callback is given are not negative. *)
Definition sound (c : Callback) : Prop :=
  match c with
  | CallConnect env => bytes (frequencyData env)
  | Notify (OnFrame dataArray) => bytes dataArray
  | _ => True
  end.

(** Object identities in use are below the next one the browser hands out,
    and no two scheduled segments share one. *)
Definition sourcesKnown (s : Sys) : Prop :=
  Forall (fun source => (source_id source < fresh (browser s))%nat)
         (activeSourcesRef (hook s))
  /\ NoDup (map source_id (activeSourcesRef (hook s))).

(** The text written under [role] in a trace, concatenated in order. *)
Definition textUnder (role : Role) (trace : list Event) : string :=
  fold_right
    (fun w acc =>
       match w with
       | (user, text, _) =>
           match role with
           | user => (text ++ acc)%string
           | model => acc
           end
       | (model, text, _) =>
           match role with
           | user => acc
           | model => (text ++ acc)%string
           end
       end)
    "" (writes trace).

(** The fragments a run delivers for each buffer, concatenated in order. *)
Fixpoint heard (arrivals : list Arrival) : string :=
  match arrivals with
  | [] => ""
  | a :: rest => (inputText (message a) ++ heard rest)%string
  end.

Fixpoint said (arrivals : list Arrival) : string :=
  match arrivals with
  | [] => ""
  | a :: rest => (outputText (message a) ++ said rest)%string
  end.

(** ** The orb (components/Orb.tsx)

    The component is a function of its props; what it renders is given by
    these. *)
Definition baseColor (status : SessionStatus) (isSpeaking : bool) : string :=
  match status with
  | error => "rgb(239, 68, 68)"
  | connecting => "rgb(255, 255, 255)"
  | connected =>
      if isSpeaking then "rgb(59, 130, 246)" else "rgb(16, 185, 129)"
  | disconnected => "rgb(75, 85, 99)"
  end.

(** [1 + Math.min(volume * 1.5, 1.0)] *)
Definition scale (volume : Q) : Q := 1 + Qmin (volume * (3 # 2)) 1.

(** [0.6 + Math.min(volume, 0.4)] *)
Definition opacity (volume : Q) : Q := (3 # 5) + Qmin volume (2 # 5).

(** [50 + Math.min(volume * 100, 100)] *)
Definition glowSize (volume : Q) : Q := 50 + Qmin (volume * 100) 100.

(** The outer glow: [width] and [height] in percent, [opacity], and the
    radius of the blur in pixels. *)
Definition glowExtent (volume : Q) : Q := 100 * scale volume.

Definition glowOpacity (volume : Q) : Q := opacity volume * (3 # 10).

Definition glowBlur (volume : Q) : Q := 30 + volume * 20.

(** The inner core: [transform: scale(0.9 + volume * 0.2)]. *)
Definition coreScale (volume : Q) : Q := (9 # 10) + volume * (1 # 5).

(** The caption under the orb, when there is one. *)
Definition statusText (status : SessionStatus) : option string :=
  match status with
  | connecting => Some "Initializing"
  | error => Some "Connection Error"
  | _ => None
  end.

(** ** The application (App.tsx) *)

(** The component's own state cell, whether it is still mounted, the calls
    of [connect] suspended on the microphone request, and the hook. *)
Record App : Type :=
  { mounted : bool;
    hasStarted : bool;
    awaiting : list Env;
    session : Sys }.

Definition firstRender : App :=
  {| mounted := true; hasStarted := false; awaiting := [];
     session := pageLoad |}.

(** What is on the screen: the landing page with its one button, or the
    session page with the orb, the privacy indicator and its one button.
    Of the orb the colour and the caption are recorded; its geometry is
    [scale] and the other functions above, applied to the volume of the
    hook. *)
Inductive Screen : Type :=
| Unmounted
| Landing
| Running (color : string) (caption : option string) (privacy : string).

Definition render (a : App) : Screen :=
  let h := hook (session a) in
  if negb (mounted a) then Unmounted
  else if hasStarted a then
    Running (baseColor (status h) (isSpeaking h)) (statusText (status h))
            (match status h with
             | connected => "Secure Live"
             | _ => "Offline"
             end)
  else Landing.

(** [handleStart]: [setHasStarted(true); await connect();] *)
Definition handleStart (env : Env) (a : App) : App * list Event :=
  let r := connectUntilAwait env (session a) in
  ({| mounted := mounted a; hasStarted := true;
      awaiting :=
        match completion r with
        | Normal true => awaiting a ++ [env]
        | _ => awaiting a
        end;
      session := after r |},
   emitted r).

(** The microphone request of a suspended [connect] is answered. *)
Definition resume (env : Env) (others : list Env) (a : App)
  : App * list Event :=
  let r := connectAfterAwait env (session a) in
  ({| mounted := mounted a; hasStarted := hasStarted a; awaiting := others;
      session := after r |},
   emitted r).

(** [handleStop]: [disconnect(); setHasStarted(false);] *)
Definition handleStop (a : App) : App * list Event :=
  let r := disconnect (session a) in
  ({| mounted := mounted a; hasStarted := false; awaiting := awaiting a;
      session := after r |},
   emitted r).

(** The cleanup of the effect, run when the component unmounts. *)
Definition unmount (a : App) : App * list Event :=
  let r := disconnect (session a) in
  ({| mounted := false; hasStarted := hasStarted a; awaiting := awaiting a;
      session := after r |},
   emitted r).

(** The [i]-th element of a list and the others. *)
Fixpoint pick {A : Type} (i : nat) (l : list A) : option (A * list A) :=
  match l, i with
  | [], _ => None
  | x :: rest, O => Some (x, rest)
  | x :: rest, S j =>
      match pick j rest with
      | Some (y, others) => Some (y, x :: others)
      | None => None
      end
  end.

(** What can happen to the application.  A button can be clicked only while
    it is rendered: "Begin Session" on the landing page, "End Session" on
    the session page, neither once the component is unmounted.  A suspended
    [connect] resumes when its request is answered, and the callbacks the
    hook registered can fire, whatever is on the screen. *)
Inductive AppEvent : Type :=
| ClickBegin (env : Env)
| ClickEnd
| Unmount
| Answered (i : nat)
| Notified (n : Notification).

Definition dispatch (decodeAudioData : string -> option AudioBuffer)
    (e : AppEvent) (a : App) : option (App * list Event) :=
  match e with
  | ClickBegin env =>
      if mounted a && negb (hasStarted a) then Some (handleStart env a)
      else None
  | ClickEnd =>
      if mounted a && hasStarted a then Some (handleStop a) else None
  | Unmount => if mounted a then Some (unmount a) else None
  | Answered i =>
      match pick i (awaiting a) with
      | Some (env, others) => Some (resume env others a)
      | None => None
      end
  | Notified n =>
      let r := notify decodeAudioData n (session a) in
      Some ({| mounted := mounted a; hasStarted := hasStarted a;
               awaiting := awaiting a; session := after r |}, emitted r)
  end.

(** A sequence of events, as far as it can happen. *)
Fixpoint play (decodeAudioData : string -> option AudioBuffer)
    (events : list AppEvent) (a : App) : option (App * list Event) :=
  match events with
  | [] => Some (a, [])
  | e :: rest =>
      match dispatch decodeAudioData e a with
      | Some (a1, e1) =>
          match play decodeAudioData rest a1 with
          | Some (a2, e2) => Some (a2, e1 ++ e2)
          | None => None
          end
      | None => None
      end
  end.

(** The user is patient: no button is clicked, and the component is not
    unmounted, while a microphone request is unanswered. *)
Fixpoint patient (decodeAudioData : string -> option AudioBuffer)
    (events : list AppEvent) (a : App) : bool :=
  match events with
  | [] => true
  | e :: rest =>
      match e with
      | ClickBegin _ | ClickEnd | Unmount =>
          match awaiting a with
          | [] => true
          | _ :: _ => false
          end
      | _ => true
      end
      && match dispatch decodeAudioData e a with
         | Some (a1, _) => patient decodeAudioData rest a1
         | None => true
         end
  end.

(** The input context, when there is one, is the 16 kHz one. *)
Definition inputAtCaptureRate (s : Sys) : Prop :=
  forall ctx, inputContextRef (hook s) = Some ctx ->
              sampleRate ctx = 16000%Z.

(** ** Vocabulary for stored text *)

(** The text is a sequence of white space characters; so for the empty
    text. *)
Definition blank (s : string) : Prop :=
  exists characters : list (list ascii),
    Forall (fun c => In c whiteSpace) characters
    /\ list_ascii_of_string s = List.concat characters.

Definition beginsWithWhiteSpace (s : string) : Prop :=
  exists (c rest : list ascii),
    In c whiteSpace /\ list_ascii_of_string s = c ++ rest.

Definition endsWithWhiteSpace (s : string) : Prop :=
  exists (c rest : list ascii),
    In c whiteSpace /\ list_ascii_of_string s = (rest ++ c)%list.

(** ** Vocabulary for the two halves of [connect] *)

(** The state in which [connect] is suspended on the microphone request:
    both contexts, the analyser and the gain node exist, the first volume
    sample is taken and the next animation frame is requested. *)
Definition prepared (env : Env) (s : Sys) : Sys :=
  let n := fresh (browser s) in
  let inputContext := {| context_id := n; sampleRate := 16000 |} in
  let outputContext := {| context_id := S n; sampleRate := 24000 |} in
  let analyzer := {| node_id := S (S n); node_kind := Analyser |} in
  let handle := S (S (S (S n))) in
  let gain := {| node_id := S (S (S (S n))); node_kind := Gain |} in
  {| hook :=
       with_outputGainNodeRef (Some gain)
         (with_rafIdRef (Some handle)
            (with_volume (normalizedVolume (frequencyData env))
               (with_analyzerRef (Some analyzer)
                  (with_outputContextRef (Some outputContext)
                     (with_inputContextRef (Some inputContext)
                        (with_status connecting
                           (with_sessionIdRef (randomUUID env) (hook s))))))));
     browser :=
       {| fresh := S (S (S (S (S n))));
          openContexts :=
            (openContexts (browser s) ++ [inputContext]) ++ [outputContext];
          liveStreams := liveStreams (browser s);
          openChannels := openChannels (browser s) |} |}.

(** The state in which [connect] ends when the microphone is granted and
    the client is built: the stream is live and the channel is open. *)
Definition joined (s : Sys) : Sys :=
  let n := fresh (browser s) in
  let stream := {| stream_id := n |} in
  let channel := {| channel_id := S n |} in
  {| hook :=
       with_sessionRef (Some channel) (with_streamRef (Some stream) (hook s));
     browser :=
       {| fresh := S (S n);
          openContexts := openContexts (browser s);
          liveStreams := liveStreams (browser s) ++ [stream];
          openChannels := openChannels (browser s) ++ [channel] |} |}.

(** The application is in order: the hook refers to every live context and
    stream, on the landing page it holds none and no request is pending,
    and at most one request is pending, made before any stream exists. *)
Definition orderly (a : App) : Prop :=
  owned (session a)
  /\ inputAtCaptureRate (session a)
  /\ (hasStarted a = false -> idle (session a) /\ awaiting a = [])
  /\ (awaiting a = []
      \/ exists env, awaiting a = [env]
                     /\ streamRef (hook (session a)) = None).

(** ** Sample sessions of the application *)

(** Three sessions in a row: one that runs, one whose microphone request is
    denied, and one that is still running at the end. *)
Definition threeSessions : list AppEvent :=
  [ ClickBegin granted; Answered 0; Notified OnOpen;
    Notified (OnMessage {| clock := 2; message := audioChunk |});
    Notified (OnFrame (repeat 40%Z 128));
    ClickEnd;
    ClickBegin microphoneDenied; Answered 0; ClickEnd;
    ClickBegin granted; Notified OnClose; Answered 0; Notified OnOpen ].

(** A live microphone stream the hook has lost: it is not the one
    [streamRef] holds.  (Its identity is one the browser has handed out.) *)
Definition lost (st : MediaStream) (s : Sys) : Prop :=
  In st (liveStreams (browser s))
  /\ (stream_id st < fresh (browser s))%nat
  /\ (forall held : MediaStream,
         streamRef (hook s) = Some held -> stream_id held <> stream_id st).

(** ** The message handler around its [await]

    The handler is an [async] function with one [await], on the decoder.  Up
    to there it runs when the message arrives; what follows runs when the
    decoder has settled, and other callbacks, the handlers of later messages
    among them, can run in between.  How long that takes is up to
    utils/audioUtils.  [onmessage] above is the two halves run back to
    back. *)

(** What a handler suspended on the decoder holds: the output context it
    captured ([const ctx]) and the payload.  [readAt] is the value of
    [ctx.currentTime] the handler read before it suspended; the handler
    itself keeps it in the cursor only, the record keeps it for the
    statements about the schedule. *)
Record Decoding : Type :=
  { decodingFor : AudioContext; encoded : string; readAt : Q }.

(** From the test on the payload to the [await]: the result is the
    suspended handler, or [None] when the step is skipped.  The decoder
    stands for [base64ToUint8Array] as well, which runs before the handler
    suspends; when it throws the handler rejects with the cells as this
    half leaves them, which is what the second half does when the decoder
    answers [None]. *)
Definition audioUntilAwait (currentTime : Q) (message : LiveServerMessage)
  : M (option Decoding) :=
  h <- get ;;
  match base64Audio message, outputContextRef h, outputGainNodeRef h with
  | Some data, Some ctx, Some _ =>
      if truthy data then
        setIsSpeaking true ;;
        (* Ensure playback timing is continuous *)
        modify (fun h =>
          with_nextStartTimeRef (Qmax (nextStartTimeRef h) currentTime) h) ;;
        ret (Some {| decodingFor := ctx; encoded := data;
                     readAt := currentTime |})
      else ret None
  | _, _, _ => ret None
  end.

(** From the decoder's answer to the end of the handler.  The gain node and
    the cursor are read now, from the refs, not when the message arrived.
    [accepted] is the browser's answer to [source.connect]: it refuses to
    connect nodes of two contexts, which they are when [connect] has set up
    a new output chain since the handler captured [ctx].
    ([outputGainNodeRef] is never reset to [null]; connecting to [null]
    would throw as well.) *)
Definition audioAfterAwait
    (decodeAudioData : string -> option AudioBuffer) (accepted : bool)
    (d : Decoding) : M unit :=
  audioBuffer <-
    match decodeAudioData (encoded d) with
    | Some decoded => ret decoded
    | None => throw
    end ;;
  id <- alloc ;;
  let source := {| source_id := id; buffer := audioBuffer |} in
  emit (CreateBufferSource source) ;;
  h <- get ;;
  match outputGainNodeRef h with
  | Some gain =>
      if accepted then emit (NodeConnect id (node_id gain)) else throw
  | None => throw
  end ;;
  h <- get ;;
  emit (SourceStart source (nextStartTimeRef h)) ;;
  modify (fun h =>
    with_nextStartTimeRef
      (nextStartTimeRef h + duration audioBuffer)%Q h) ;;
  modify (fun h =>
    with_activeSourcesRef (activeSourcesRef h ++ [source]) h).

(** The handler from the arrival of the message to its [await], or to its
    end when it does not reach the decoder. *)
Definition onmessageUntilAwait (currentTime : Q)
    (message : LiveServerMessage) : M (option Decoding) :=
  handleTranscription message ;;
  handleTurnCompletion message ;;
  if isInterrupted message then handleInterruption ;; ret None
  else audioUntilAwait currentTime message.

(** ** The event loop, with every suspension

    The hook together with the calls of [connect] that wait for the
    microphone and the message handlers that wait for the decoder, each in
    the order in which they suspended. *)
Record Loop : Type :=
  { controller : Sys;
    suspendedConnects : list Env;
    suspendedHandlers : list Decoding }.

(** The hook with nothing suspended. *)
Definition settled (s : Sys) : Loop :=
  {| controller := s; suspendedConnects := []; suspendedHandlers := [] |}.

(** One turn of the loop: the user calls [connect] or [disconnect], the
    microphone request of a suspended [connect] is answered, a callback the
    hook registered is called (a message handler runs to its [await]), or
    the decoder of a suspended handler settles; [currentTime] is the clock of
    the output context at that moment, which the handler does not read, and
    [accepted] the browser's answer to [source.connect]. *)
Inductive Turn : Type :=
| ConnectCalled (env : Env)
| MicrophoneAnswered (i : nat)
| DisconnectCalled
| Delivered (n : Notification)
| DecoderSettled (i : nat) (currentTime : Q) (accepted : bool).

Definition turn (decodeAudioData : string -> option AudioBuffer)
    (t : Turn) (l : Loop) : option (Loop * list Event) :=
  match t with
  | ConnectCalled env =>
      let r := connectUntilAwait env (controller l) in
      Some ({| controller := after r;
               suspendedConnects :=
                 match completion r with
                 | Normal true => suspendedConnects l ++ [env]
                 | _ => suspendedConnects l
                 end;
               suspendedHandlers := suspendedHandlers l |},
            emitted r)
  | MicrophoneAnswered i =>
      match pick i (suspendedConnects l) with
      | Some (env, others) =>
          let r := connectAfterAwait env (controller l) in
          Some ({| controller := after r; suspendedConnects := others;
                   suspendedHandlers := suspendedHandlers l |},
                emitted r)
      | None => None
      end
  | DisconnectCalled =>
      let r := disconnect (controller l) in
      Some ({| controller := after r;
               suspendedConnects := suspendedConnects l;
               suspendedHandlers := suspendedHandlers l |},
            emitted r)
  | Delivered (OnMessage a) =>
      let r := onmessageUntilAwait (clock a) (message a) (controller l) in
      Some ({| controller := after r;
               suspendedConnects := suspendedConnects l;
               suspendedHandlers :=
                 match completion r with
                 | Normal (Some d) => suspendedHandlers l ++ [d]
                 | _ => suspendedHandlers l
                 end |},
            emitted r)
  | Delivered n =>
      let r := notify decodeAudioData n (controller l) in
      Some ({| controller := after r;
               suspendedConnects := suspendedConnects l;
               suspendedHandlers := suspendedHandlers l |},
            emitted r)
  | DecoderSettled i _ accepted =>
      match pick i (suspendedHandlers l) with
      | Some (d, others) =>
          let r :=
            audioAfterAwait decodeAudioData accepted d (controller l) in
          Some ({| controller := after r;
                   suspendedConnects := suspendedConnects l;
                   suspendedHandlers := others |},
                emitted r)
      | None => None
      end
  end.

(** A sequence of turns, as far as it can happen. *)
Fixpoint turns (decodeAudioData : string -> option AudioBuffer)
    (ts : list Turn) (l : Loop) : option (Loop * list Event) :=
  match ts with
  | [] => Some (l, [])
  | t :: rest =>
      match turn decodeAudioData t l with
      | Some (l1, e1) =>
          match turns decodeAudioData rest l1 with
          | Some (l2, e2) => Some (l2, e1 ++ e2)
          | None => None
          end
      | None => None
      end
  end.

(** *** The playback schedule *)

(** A segment handed to [source.start]: the start time it was given, the
    clock reading its handler had taken before decoding, and the clock when
    [start] was called. *)
Record Scheduled : Type :=
  { segment : AudioBufferSourceNode;
    startTime : Q;
    clockRead : Q;
    clockAtStart : Q }.

Inductive Playback : Type :=
| Enqueued (seg : Scheduled)
| Flushed.

Definition endTime (seg : Scheduled) : Q :=
  (startTime seg + duration (buffer (segment seg)))%Q.

(** What one turn does to the schedule: the handler of an interruption
    flushes it, a handler that resumes enqueues the segment it starts. *)
Definition scheduledBy (decodeAudioData : string -> option AudioBuffer)
    (t : Turn) (l : Loop) : list Playback :=
  match t with
  | Delivered (OnMessage a) =>
      if isInterrupted (message a) then [Flushed] else []
  | DecoderSettled i currentTime accepted =>
      match pick i (suspendedHandlers l) with
      | Some (d, _) =>
          map (fun p =>
                 Enqueued {| segment := fst p; startTime := snd p;
                             clockRead := readAt d;
                             clockAtStart := currentTime |})
              (starts (emitted (audioAfterAwait decodeAudioData accepted d
                                  (controller l))))
      | None => []
      end
  | _ => []
  end.

(** The schedule of a sequence of turns, in order. *)
Fixpoint schedule (decodeAudioData : string -> option AudioBuffer)
    (ts : list Turn) (l : Loop) : list Playback :=
  match ts with
  | [] => []
  | t :: rest =>
      match turn decodeAudioData t l with
      | Some (l1, _) =>
          scheduledBy decodeAudioData t l
          ++ schedule decodeAudioData rest l1
      | None => []
      end
  end.

(** Segments enqueued one after the other do not overlap: each starts no
    earlier than the end of the segment enqueued just before it.  [bound] is
    the end of that segment, if one was enqueued since the last flush. *)
Fixpoint spaced (bound : option Q) (l : list Playback) : Prop :=
  match l with
  | [] => True
  | Flushed :: rest => spaced None rest
  | Enqueued seg :: rest =>
      match bound with
      | Some b => (b <= startTime seg)%Q
      | None => True
      end
      /\ spaced (Some (endTime seg)) rest
  end.

(** The playback cursor. *)
Definition cursor (l : Loop) : Q := nextStartTimeRef (hook (controller l)).

(** No suspended handler has been overtaken by a flush: the cursor is still
    at or after the clock reading each of them took. *)
Definition current (l : Loop) : Prop :=
  Forall (fun d => (readAt d <= cursor l)%Q) (suspendedHandlers l).

(** The decoder yields buffers of a duration that is not negative. *)
Definition decodesSound (decodeAudioData : string -> option AudioBuffer)
  : Prop :=
  forall (data : string) (decoded : AudioBuffer),
    decodeAudioData data = Some decoded -> (0 <= duration decoded)%Q.

(** *** One session at a time *)

(** The hook holds no audio context and no microphone stream, and no call
    of [connect] is waiting for the microphone. *)
Definition vacant (l : Loop) : bool :=
  negb (isSome (inputContextRef (hook (controller l))))
  && negb (isSome (outputContextRef (hook (controller l))))
  && negb (isSome (streamRef (hook (controller l))))
  && match suspendedConnects l with
     | [] => true
     | _ :: _ => false
     end.

(** [connect] is called on a vacant hook only. *)
Fixpoint serial (decodeAudioData : string -> option AudioBuffer)
    (ts : list Turn) (l : Loop) : bool :=
  match ts with
  | [] => true
  | t :: rest =>
      match t with
      | ConnectCalled _ => vacant l
      | _ => true
      end
      && match turn decodeAudioData t l with
         | Some (l1, _) => serial decodeAudioData rest l1
         | None => true
         end
  end.

(** The loop is in order: the hook refers to every live context and stream,
    and at most one call of [connect] is waiting for the microphone, with no
    stream held. *)
Definition exclusive (l : Loop) : Prop :=
  owned (controller l)
  /\ inputAtCaptureRate (controller l)
  /\ (suspendedConnects l = []
      \/ exists env, suspendedConnects l = [env]
                     /\ streamRef (hook (controller l)) = None).

(** *** Sample runs *)

(** The agent answers; the user barges in while the third chunk is being
    decoded; the chunk is scheduled when its decoder settles. *)
Definition overtaken : list Turn :=
  [ Delivered (OnMessage {| clock := 215 # 100; message := audioChunk |});
    Delivered (OnMessage {| clock := 22 # 10; message := bargeIn |});
    DecoderSettled 0 (225 # 100) true ].

(** A conversation in which every chunk is decoded before the next message
    arrives, with a barge-in after the second chunk. *)
Definition conversation : list Turn :=
  [ Delivered (OnMessage {| clock := 1; message := userSpoke |});
    Delivered (OnMessage {| clock := 2; message := audioChunk |});
    DecoderSettled 0 (205 # 100) true;
    Delivered (OnMessage {| clock := 21 # 10; message := audioChunk |});
    DecoderSettled 0 (215 # 100) true;
    Delivered (OnMessage {| clock := 22 # 10; message := bargeIn |});
    Delivered (OnMessage {| clock := 23 # 10; message := audioChunk |});
    DecoderSettled 0 (235 # 100) true ].

(** Two chunks arrive before the first is decoded, and the second is
    decoded first. *)
Definition outOfOrder : list Turn :=
  [ Delivered (OnMessage {| clock := 2; message := audioChunk |});
    Delivered (OnMessage {| clock := 21 # 10; message := audioChunk |});
    DecoderSettled 1 (215 # 100) true;
    DecoderSettled 0 (22 # 10) true;
    Delivered
      (OnEnded {| source_id := 9; buffer := {| duration := 1 # 2 |} |}) ].

(** [connect] is called again while the first call waits for the
    microphone, after a [disconnect]; both requests are then granted. *)
Definition overlappingConnects : list Turn :=
  [ ConnectCalled granted; DisconnectCalled; ConnectCalled granted;
    MicrophoneAnswered 0; MicrophoneAnswered 0 ].

(** Two sessions in a row, the second started while nothing is held, with a
    [disconnect] during the microphone prompt of the first. *)
Definition twoSessions : list Turn :=
  [ ConnectCalled granted; DisconnectCalled; MicrophoneAnswered 0;
    DisconnectCalled;
    ConnectCalled granted; MicrophoneAnswered 0; Delivered OnOpen;
    Delivered (OnMessage {| clock := 2; message := audioChunk |});
    DecoderSettled 0 (205 # 100) true ].

(** * Properties *)

(** ** Basic facts *)

Lemma truthy_app (a b : string) : truthy (a ++ b) = truthy a || truthy b.
Proof. destruct a; reflexivity. Qed.

Lemma append_empty_r (a : string) : (a ++ "")%string = a.
Proof. induction a as [|c a IH]; simpl; [reflexivity | now rewrite IH]. Qed.

Lemma truthy_false_empty (a : string) : truthy a = false -> a = "".
Proof. destruct a; [reflexivity | discriminate]. Qed.

Lemma forEach_stopSource (l : list AudioBufferSourceNode) (s : Sys) :
  forEach l stopSource s
  = {| completion := Normal tt; after := s; emitted := map SourceStop l |}.
Proof.
  induction l as [|x l IH]; [reflexivity|].
  simpl. unfold bind. simpl. rewrite IH. reflexivity.
Qed.

Lemma stops_map_SourceStop (l : list AudioBufferSourceNode) :
  stops (map SourceStop l) = l.
Proof. induction l as [|x l IH]; simpl; [reflexivity | now rewrite IH]. Qed.

Lemma writes_map_SourceStop (l : list AudioBufferSourceNode) :
  writes (map SourceStop l) = [].
Proof. induction l as [|x l IH]; simpl; [reflexivity | exact IH]. Qed.

Lemma starts_map_SourceStop (l : list AudioBufferSourceNode) :
  starts (map SourceStop l) = [].
Proof. induction l as [|x l IH]; simpl; [reflexivity | exact IH]. Qed.

Lemma writes_app (t1 t2 : list Event) :
  writes (t1 ++ t2) = writes t1 ++ writes t2.
Proof. apply flat_map_app. Qed.

Lemma starts_app (t1 t2 : list Event) :
  starts (t1 ++ t2) = starts t1 ++ starts t2.
Proof. apply flat_map_app. Qed.

Lemma stops_app (t1 t2 : list Event) :
  stops (t1 ++ t2) = stops t1 ++ stops t2.
Proof. apply flat_map_app. Qed.

(** ** What each step of the message handler does *)

Lemma handleTranscription_step (message : LiveServerMessage) (s : Sys) :
  handleTranscription message s
  = {| completion := Normal tt;
       after :=
         {| hook :=
              with_currentOutputRef (outboundWith message (hook s))
                (with_currentInputRef (inboundWith message (hook s)) (hook s));
            browser := browser s |};
       emitted := [] |}.
Proof.
  destruct s as [h b]. destruct h.
  unfold handleTranscription, bind, inboundWith, outboundWith. simpl.
  destruct (truthy (inputText message)) eqn:Ein;
    destruct (truthy (outputText message)) eqn:Eout; simpl;
    try rewrite (truthy_false_empty _ Ein);
    try rewrite (truthy_false_empty _ Eout);
    rewrite ?append_empty_r; reflexivity.
Qed.

Lemma handleTurnCompletion_step (message : LiveServerMessage) (s : Sys) :
  isTurnComplete message = true ->
  handleTurnCompletion message s
  = {| completion := Normal tt;
       after :=
         {| hook :=
              with_isSpeaking false
                (with_currentOutputRef ""
                   (with_currentInputRef "" (hook s)));
            browser := browser s |};
       emitted :=
         flush user (currentInputRef (hook s)) (sessionIdRef (hook s))
         ++ flush model (currentOutputRef (hook s)) (sessionIdRef (hook s))
         ++ [SetIsSpeaking false] |}.
Proof.
  intros Htc. destruct s as [h b]. destruct h.
  unfold handleTurnCompletion, bind, flush. rewrite Htc. simpl.
  destruct (truthy currentInputRef0) eqn:Ein;
    destruct (truthy currentOutputRef0) eqn:Eout; simpl;
    try rewrite (truthy_false_empty _ Ein);
    try rewrite (truthy_false_empty _ Eout); reflexivity.
Qed.

Lemma handleTurnCompletion_skip (message : LiveServerMessage) (s : Sys) :
  isTurnComplete message = false ->
  handleTurnCompletion message s = ret tt s.
Proof. intros Htc. unfold handleTurnCompletion. now rewrite Htc. Qed.

Lemma writes_flush (role : Role) (text sessionId : string) :
  writes (flush role text sessionId) = written role text sessionId.
Proof. unfold flush, written. destruct (truthy text); reflexivity. Qed.

Lemma stops_flush (role : Role) (text sessionId : string) :
  stops (flush role text sessionId) = [].
Proof. unfold flush. destruct (truthy text); reflexivity. Qed.

Lemma starts_flush (role : Role) (text sessionId : string) :
  starts (flush role text sessionId) = [].
Proof. unfold flush. destruct (truthy text); reflexivity. Qed.

(** The first two steps together touch the transcript buffers and the
    speaking indicator only; they schedule and stop nothing. *)
Lemma first_two_steps (message : LiveServerMessage) (s : Sys) :
  exists (s1 : Sys) (e1 : list Event),
    handleTurnCompletion message
      {| hook :=
           with_currentOutputRef (outboundWith message (hook s))
             (with_currentInputRef (inboundWith message (hook s)) (hook s));
         browser := browser s |}
    = {| completion := Normal tt; after := s1; emitted := e1 |}
    /\ starts e1 = []
    /\ stops e1 = []
    /\ nextStartTimeRef (hook s1) = nextStartTimeRef (hook s)
    /\ activeSourcesRef (hook s1) = activeSourcesRef (hook s)
    /\ outputContextRef (hook s1) = outputContextRef (hook s)
    /\ outputGainNodeRef (hook s1) = outputGainNodeRef (hook s)
    /\ inputContextRef (hook s1) = inputContextRef (hook s)
    /\ streamRef (hook s1) = streamRef (hook s)
    /\ browser s1 = browser s.
Proof.
  destruct (isTurnComplete message) eqn:Htc.
  - rewrite handleTurnCompletion_step by assumption.
    eexists; eexists. split; [reflexivity|]. simpl.
    rewrite !starts_app, !stops_app, !starts_flush, !stops_flush.
    repeat split; reflexivity.
  - rewrite handleTurnCompletion_skip by assumption.
    eexists; eexists. split; [reflexivity|]. repeat split; reflexivity.
Qed.

Lemma handleInterruption_step (s : Sys) :
  handleInterruption s
  = {| completion := Normal tt;
       after :=
         {| hook :=
              with_isSpeaking false
                (with_nextStartTimeRef 0
                   (with_activeSourcesRef []
                      (with_currentOutputRef "" (hook s))));
            browser := browser s |};
       emitted :=
         ConsoleLog "User interrupted. Clearing audio queue."
         :: flushInterrupted (currentOutputRef (hook s)) (sessionIdRef (hook s))
         ++ map SourceStop (activeSourcesRef (hook s))
         ++ [SetIsSpeaking false] |}.
Proof.
  destruct s as [h b]. destruct h.
  unfold handleInterruption, bind, flushInterrupted. simpl.
  destruct (truthy currentOutputRef0) eqn:Eout; simpl;
    rewrite forEach_stopSource; simpl;
    try rewrite (truthy_false_empty _ Eout); reflexivity.
Qed.

Lemma handleAudioData_skip dec now (message : LiveServerMessage) (s : Sys) :
  audioStepRuns message (hook s) = false ->
  handleAudioData dec now message s = ret tt s.
Proof.
  unfold audioStepRuns, carriesAudio, handleAudioData, bind. simpl.
  destruct (base64Audio message) as [data|]; simpl; [|reflexivity].
  destruct (outputContextRef (hook s)); simpl;
    [|intros _; destruct (truthy data); reflexivity].
  destruct (outputGainNodeRef (hook s)); simpl;
    [|intros _; destruct (truthy data); reflexivity].
  rewrite !andb_true_r. intros ->. reflexivity.
Qed.

Lemma handleAudioData_enqueue dec now (message : LiveServerMessage) (s : Sys)
    (data : string) (ctx : AudioContext) (gain : AudioNode)
    (decoded : AudioBuffer) :
  base64Audio message = Some data ->
  truthy data = true ->
  outputContextRef (hook s) = Some ctx ->
  outputGainNodeRef (hook s) = Some gain ->
  dec data = Some decoded ->
  let source := {| source_id := fresh (browser s); buffer := decoded |} in
  let start := Qmax (nextStartTimeRef (hook s)) now in
  handleAudioData dec now message s
  = {| completion := Normal tt;
       after :=
         {| hook :=
              with_activeSourcesRef (activeSourcesRef (hook s) ++ [source])
                (with_nextStartTimeRef (start + duration decoded)%Q
                   (with_nextStartTimeRef start
                      (with_isSpeaking true (hook s))));
            browser :=
              {| fresh := S (fresh (browser s));
                 openContexts := openContexts (browser s);
                 liveStreams := liveStreams (browser s);
                 openChannels := openChannels (browser s) |} |};
       emitted :=
         [SetIsSpeaking true; CreateBufferSource source;
          NodeConnect (source_id source) (node_id gain);
          SourceStart source start] |}.
Proof.
  intros Hdata Htruthy Hctx Hgain Hdec.
  unfold handleAudioData, bind. simpl.
  rewrite Hdata, Hctx, Hgain, Htruthy. simpl. rewrite Hdec. simpl.
  reflexivity.
Qed.

Lemma handleAudioData_reject dec now (message : LiveServerMessage) (s : Sys)
    (data : string) :
  audioStepRuns message (hook s) = true ->
  base64Audio message = Some data ->
  dec data = None ->
  handleAudioData dec now message s
  = {| completion := Throw;
       after :=
         {| hook :=
              with_nextStartTimeRef (Qmax (nextStartTimeRef (hook s)) now)
                (with_isSpeaking true (hook s));
            browser := browser s |};
       emitted := [SetIsSpeaking true] |}.
Proof.
  unfold audioStepRuns, carriesAudio. intros Hruns Hdata Hdec.
  rewrite Hdata in Hruns. simpl in Hruns.
  unfold handleAudioData, bind. simpl. rewrite Hdata.
  destruct (outputContextRef (hook s)); [|now rewrite andb_false_r in Hruns].
  destruct (outputGainNodeRef (hook s)); [|now rewrite andb_false_r in Hruns].
  rewrite !andb_true_r in Hruns. rewrite Hruns. simpl. rewrite Hdec.
  reflexivity.
Qed.

(** In every case the audio step leaves the transcript buffers alone, writes
    nothing and stops nothing. *)
Lemma handleAudioData_frame dec now (message : LiveServerMessage) (s : Sys) :
  let r := handleAudioData dec now message s in
  currentInputRef (hook (after r)) = currentInputRef (hook s)
  /\ currentOutputRef (hook (after r)) = currentOutputRef (hook s)
  /\ writes (emitted r) = []
  /\ stops (emitted r) = []
  /\ isSpeaking (hook (after r))
     = (audioStepRuns message (hook s) || isSpeaking (hook s)).
Proof.
  destruct (audioStepRuns message (hook s)) eqn:Hruns.
  - pose proof Hruns as Hruns'.
    unfold audioStepRuns, carriesAudio in Hruns'.
    destruct (base64Audio message) as [data|] eqn:Hdata; [|discriminate].
    destruct (outputContextRef (hook s)) as [ctx|] eqn:Hctx;
      [|now rewrite andb_false_r in Hruns'].
    destruct (outputGainNodeRef (hook s)) as [gain|] eqn:Hgain;
      [|now rewrite andb_false_r in Hruns'].
    simpl in Hruns'. rewrite !andb_true_r in Hruns'.
    destruct (dec data) as [decoded|] eqn:Hdec.
    + rewrite (handleAudioData_enqueue dec now message s data ctx gain decoded)
        by assumption.
      simpl. repeat split; reflexivity.
    + rewrite (handleAudioData_reject dec now message s data) by assumption.
      simpl. repeat split; reflexivity.
  - rewrite handleAudioData_skip by assumption. simpl.
    repeat split; reflexivity.
Qed.

Lemma stops_flushInterrupted (text sessionId : string) :
  stops (flushInterrupted text sessionId) = [].
Proof. unfold flushInterrupted. destruct (truthy text); reflexivity. Qed.

Lemma starts_flushInterrupted (text sessionId : string) :
  starts (flushInterrupted text sessionId) = [].
Proof. unfold flushInterrupted. destruct (truthy text); reflexivity. Qed.

Lemma writes_flushInterrupted (text sessionId : string) :
  writes (flushInterrupted text sessionId)
  = if truthy text then [(model, (text ++ INTERRUPTED)%string, sessionId)]
    else [].
Proof. unfold flushInterrupted. destruct (truthy text); reflexivity. Qed.

(** ** The interruption path *)

(** What a message that sets [interrupted] does, whatever else it carries. *)
Lemma onmessage_interrupted dec now (message : LiveServerMessage) (s : Sys) :
  isInterrupted message = true ->
  let h := hook s in
  let r := onmessage dec now message s in
  completion r = Normal tt
  /\ writes (emitted r)
     = (if isTurnComplete message then
          written user (inboundWith message h) (sessionIdRef h)
          ++ written model (outboundWith message h) (sessionIdRef h)
        else
          if truthy (outboundWith message h) then
            [(model, (outboundWith message h ++ INTERRUPTED)%string,
              sessionIdRef h)]
          else [])
  /\ stops (emitted r) = activeSourcesRef h
  /\ starts (emitted r) = []
  /\ currentOutputRef (hook (after r)) = ""
  /\ activeSourcesRef (hook (after r)) = []
  /\ nextStartTimeRef (hook (after r)) = 0%Q
  /\ isSpeaking (hook (after r)) = false
  /\ browser (after r) = browser s.
Proof.
  intros Hint h r. subst h r.
  unfold onmessage, bind. rewrite handleTranscription_step. simpl.
  destruct (isTurnComplete message) eqn:Htc.
  - rewrite handleTurnCompletion_step by assumption. simpl.
    rewrite Hint, handleInterruption_step. simpl.
    rewrite !writes_app, !stops_app, !starts_app, !writes_flush,
      !stops_flush, !starts_flush.
    simpl.
    rewrite !writes_app, !stops_app, !starts_app, writes_map_SourceStop,
      stops_map_SourceStop, starts_map_SourceStop.
    simpl. rewrite !app_nil_r.
    repeat split; reflexivity.
  - rewrite handleTurnCompletion_skip by assumption. simpl.
    rewrite Hint, handleInterruption_step. simpl.
    rewrite !writes_app, !stops_app, !starts_app, writes_flushInterrupted,
      stops_flushInterrupted, starts_flushInterrupted, writes_map_SourceStop,
      stops_map_SourceStop, starts_map_SourceStop.
    simpl. rewrite !app_nil_r.
    repeat split; reflexivity.
Qed.

(** ** What [cleanup] does *)

Lemma whenSome_disconnectNode (o : option AudioNode) (s : Sys) :
  whenSome o disconnectNode s
  = {| completion := Normal tt; after := s;
       emitted := map NodeDisconnect (optionList o) |}.
Proof. destruct o; reflexivity. Qed.

Lemma whenSome_close (o : option AudioContext) (s : Sys) :
  whenSome o close s
  = {| completion := Normal tt;
       after := {| hook := hook s;
                   browser := match o with
                              | Some ctx => remove_context ctx (browser s)
                              | None => browser s
                              end |};
       emitted := map ContextClose (optionList o) |}.
Proof. destruct o, s; reflexivity. Qed.


Lemma cleanup_step (s : Sys) :
  cleanup s
  = {| completion := Normal tt;
       after := {| hook := torn (hook s);
                   browser := released (hook s) (browser s) |};
       emitted := teardown (hook s) |}.
Proof.
  destruct s as [h b]. destruct h.
  unfold cleanup, bind, teardown, torn, released, flush. simpl.
  rewrite forEach_stopSource, !whenSome_disconnectNode, !whenSome_close.
  simpl. rewrite !map_app, <- !app_assoc.
  destruct streamRef0; unfold whenSome; simpl;
    destruct rafIdRef0 as [[|n]|];
    destruct (truthy currentInputRef0) eqn:Ein;
    destruct (truthy currentOutputRef0) eqn:Eout; simpl;
    try rewrite (truthy_false_empty _ Ein);
    try rewrite (truthy_false_empty _ Eout); reflexivity.
Qed.

Lemma torn_torn (h : Hook) : torn (torn h) = torn h.
Proof. unfold torn. simpl. destruct (rafIdRef h) as [[|n]|]; reflexivity. Qed.

Lemma writes_map_none {A : Type} (f : A -> Event) (l : list A) :
  (forall x, writes [f x] = []) -> writes (map f l) = [].
Proof.
  intros Hf. induction l as [|x l IH]; [reflexivity|].
  simpl. change (writes ([f x] ++ map f l) = []).
  now rewrite writes_app, Hf, IH.
Qed.

Lemma writes_teardown (h : Hook) :
  writes (teardown h)
  = written user (currentInputRef h) (sessionIdRef h)
    ++ written model (currentOutputRef h) (sessionIdRef h).
Proof.
  unfold teardown. rewrite !writes_app, !writes_flush.
  rewrite !writes_map_none by reflexivity.
  destruct (rafIdRef h) as [[|n]|]; simpl; now rewrite app_nil_r.
Qed.

Lemma stops_map_none {A : Type} (f : A -> Event) (l : list A) :
  (forall x, stops [f x] = []) -> stops (map f l) = [].
Proof.
  intros Hf. induction l as [|x l IH]; [reflexivity|].
  simpl. change (stops ([f x] ++ map f l) = []).
  now rewrite stops_app, Hf, IH.
Qed.

Lemma stops_teardown (h : Hook) : stops (teardown h) = activeSourcesRef h.
Proof.
  unfold teardown. rewrite !stops_app, stops_map_SourceStop, !stops_flush.
  rewrite !stops_map_none by reflexivity.
  destruct (rafIdRef h) as [[|n]|]; simpl; now rewrite app_nil_r.
Qed.

Lemma statuses_app (t1 t2 : list Event) :
  statuses (t1 ++ t2) = statuses t1 ++ statuses t2.
Proof. apply flat_map_app. Qed.

Lemma statuses_map_none {A : Type} (f : A -> Event) (l : list A) :
  (forall x, statuses [f x] = []) -> statuses (map f l) = [].
Proof.
  intros Hf. induction l as [|x l IH]; [reflexivity|].
  simpl. change (statuses ([f x] ++ map f l) = []).
  now rewrite statuses_app, Hf, IH.
Qed.

Lemma statuses_teardown (h : Hook) : statuses (teardown h) = [disconnected].
Proof.
  unfold teardown. rewrite !statuses_app.
  rewrite !statuses_map_none by reflexivity.
  unfold flush.
  destruct (rafIdRef h) as [[|n]|];
    destruct (truthy (currentInputRef h));
    destruct (truthy (currentOutputRef h)); reflexivity.
Qed.


(** ** Interruption (barge-in) *)

(** C1, as amended.  For every inbound message that sets the interrupted flag
    and carries inline audio data: when the message does not also set
    turn-complete, the handler writes the outbound buffer (with this
    message's fragment) under role model with the marker appended, if that
    text is non-empty, and writes nothing else; when it also sets
    turn-complete, the turn-completion step has flushed both buffers first,
    without the marker, and nothing is left to mark.  In both cases the
    handler returns normally, stops every scheduled segment, leaves the
    segment set empty, the outbound buffer empty, the cursor at 0 and the
    speaking indicator off, and schedules and creates no segment. *)
Theorem interruption_discards_audio :
  forall dec now (message : LiveServerMessage) (s : Sys),
    isInterrupted message = true ->
    carriesAudio message = true ->
    let h := hook s in
    let r := onmessage dec now message s in
    completion r = Normal tt
    /\ writes (emitted r)
       = (if isTurnComplete message then
            written user (inboundWith message h) (sessionIdRef h)
            ++ written model (outboundWith message h) (sessionIdRef h)
          else
            if truthy (outboundWith message h) then
              [(model, (outboundWith message h ++ " [INTERRUPTED]")%string,
                sessionIdRef h)]
            else [])
    /\ stops (emitted r) = activeSourcesRef h
    /\ starts (emitted r) = []
    /\ currentOutputRef (hook (after r)) = ""
    /\ activeSourcesRef (hook (after r)) = []
    /\ nextStartTimeRef (hook (after r)) = 0%Q
    /\ isSpeaking (hook (after r)) = false
    /\ fresh (browser (after r)) = fresh (browser s).
Proof.
  intros dec now message s Hint _ h r.
  destruct (onmessage_interrupted dec now message s Hint)
    as (Hc & Hw & Hstop & Hstart & Hout & Hact & Hnext & Hspk & Hb).
  fold r in Hc, Hw, Hstop, Hstart, Hout, Hact, Hnext, Hspk, Hb.
  rewrite Hb. repeat split; assumption.
Qed.

Lemma interruption_discards_audio_witness :
  isInterrupted bargeIn = true
  /\ carriesAudio bargeIn = true
  /\ writes (emitted (onmessage halfSecond 3 bargeIn answering))
     = [(model, "It is It is  [INTERRUPTED]", "session-1")]
  /\ List.length (stops (emitted (onmessage halfSecond 3 bargeIn answering))) = 2%nat
  /\ starts (emitted (onmessage halfSecond 3 bargeIn answering)) = [].
Proof.
  split; [reflexivity|]. split; [reflexivity|].
  destruct (interruption_discards_audio halfSecond 3 bargeIn answering
              eq_refl eq_refl)
    as (_ & Hw & Hstop & Hstart & _).
  split; [exact Hw|]. split; [rewrite Hstop; reflexivity | exact Hstart].
Defined.

(** C1 as stated fails when the message also sets turn-complete: the
    outbound buffer is non-empty, and what is written is its text without
    the marker. *)
Lemma interruption_at_turn_end_is_unmarked :
  isInterrupted bargeInAtTurnEnd = true
  /\ carriesAudio bargeInAtTurnEnd = true
  /\ currentOutputRef (hook answering) = "It is It is "
  /\ writes (emitted (onmessage halfSecond 3 bargeInAtTurnEnd answering))
     = [(user, "what time is it", "session-1");
        (model, "It is It is ", "session-1")]
  /\ ~ In (model, "It is It is  [INTERRUPTED]", "session-1")
          (writes (emitted (onmessage halfSecond 3 bargeInAtTurnEnd answering))).
Proof.
  split; [reflexivity|]. split; [reflexivity|]. split; [reflexivity|].
  split; [vm_compute; reflexivity|].
  vm_compute. intros [H|[H|[]]]; discriminate H.
Qed.

(** ** Turn completion *)

(** What a message that sets [turnComplete] writes, and what it leaves in
    the transcript buffers and the speaking indicator. *)
Lemma onmessage_turn_complete dec now (message : LiveServerMessage) (s : Sys) :
  isTurnComplete message = true ->
  let h := hook s in
  let r := onmessage dec now message s in
  writes (emitted r)
  = written user (inboundWith message h) (sessionIdRef h)
    ++ written model (outboundWith message h) (sessionIdRef h)
  /\ (exists rest,
        emitted r
        = flush user (inboundWith message h) (sessionIdRef h)
          ++ flush model (outboundWith message h) (sessionIdRef h)
          ++ SetIsSpeaking false :: rest)
  /\ currentInputRef (hook (after r)) = ""
  /\ currentOutputRef (hook (after r)) = ""
  /\ isSpeaking (hook (after r))
     = negb (isInterrupted message) && audioStepRuns message h.
Proof.
  intros Htc h r. subst h r.
  destruct (isInterrupted message) eqn:Hint.
  - destruct (onmessage_interrupted dec now message s Hint)
      as (_ & Hw & _ & _ & Hout & _ & _ & Hspk & _).
    rewrite Htc in Hw. split; [exact Hw|].
    split; [|split; [|split; [exact Hout | exact Hspk]]].
    + unfold onmessage, bind. rewrite handleTranscription_step. simpl.
      rewrite handleTurnCompletion_step by assumption. simpl.
      rewrite Hint, handleInterruption_step. simpl.
      rewrite <- !app_assoc. simpl. eexists. reflexivity.
    + unfold onmessage, bind. rewrite handleTranscription_step. simpl.
      rewrite handleTurnCompletion_step by assumption. simpl.
      rewrite Hint, handleInterruption_step. reflexivity.
  - unfold onmessage, bind. rewrite handleTranscription_step. simpl.
    rewrite handleTurnCompletion_step by assumption. simpl. rewrite Hint.
    match goal with
    | |- context [handleAudioData dec now message ?s1] =>
        pose proof (handleAudioData_frame dec now message s1) as Hframe;
        destruct (handleAudioData dec now message s1) as [c s2 e2]
    end.
    simpl in Hframe. destruct Hframe as (Hin & Hout & Hw & _ & Hspk).
    simpl.
    rewrite !writes_app, !writes_flush, Hw. simpl. rewrite !app_nil_r.
    split; [reflexivity|].
    split; [rewrite <- !app_assoc; simpl; eexists; reflexivity|].
    split; [exact Hin|]. split; [exact Hout|].
    rewrite Hspk. unfold audioStepRuns. simpl. now rewrite orb_false_r.
Qed.

(** C7, as amended.  When a turn-complete message arrives while both
    transcript buffers are non-empty, the handler issues exactly two
    persistence writes, the first with role user and the second with role
    model, each with the buffered text (this message's fragment included)
    and the session identifier; both buffers are empty afterwards; the call
    that clears the speaking indicator follows the two writes at once; and
    when the handler is done the indicator is on exactly if the message is
    not an interruption and its inline audio went to the audio step, which
    sets the indicator again. *)
Theorem turn_complete_flushes_both_buffers :
  forall dec now (message : LiveServerMessage) (s : Sys),
    isTurnComplete message = true ->
    truthy (currentInputRef (hook s)) = true ->
    truthy (currentOutputRef (hook s)) = true ->
    let h := hook s in
    let r := onmessage dec now message s in
    writes (emitted r)
    = [(user, inboundWith message h, sessionIdRef h);
       (model, outboundWith message h, sessionIdRef h)]
    /\ (exists rest,
          emitted r
          = SaveTranscript user (inboundWith message h) (sessionIdRef h)
            :: SaveTranscript model (outboundWith message h) (sessionIdRef h)
            :: SetIsSpeaking false :: rest)
    /\ currentInputRef (hook (after r)) = ""
    /\ currentOutputRef (hook (after r)) = ""
    /\ isSpeaking (hook (after r))
       = negb (isInterrupted message) && audioStepRuns message h.
Proof.
  intros dec now message s Htc Hin Hout h r.
  destruct (onmessage_turn_complete dec now message s Htc)
    as (Hw & Htrace & Hi & Ho & Hspk).
  fold h in Hw, Htrace, Hi, Ho, Hspk. fold r in Hw, Htrace, Hi, Ho, Hspk.
  assert (Hin' : truthy (inboundWith message h) = true)
    by (unfold inboundWith; rewrite truthy_app; subst h; now rewrite Hin).
  assert (Hout' : truthy (outboundWith message h) = true)
    by (unfold outboundWith; rewrite truthy_app; subst h; now rewrite Hout).
  unfold written, flush in *. rewrite Hin', Hout' in *.
  repeat split; assumption.
Qed.

Lemma turn_complete_flushes_both_buffers_witness :
  isTurnComplete turnEnd = true
  /\ truthy (currentInputRef (hook answering)) = true
  /\ truthy (currentOutputRef (hook answering)) = true
  /\ writes (emitted (onmessage halfSecond 3 turnEnd answering))
     = [(user, "what time is it", "session-1");
        (model, "It is It is ", "session-1")]
  /\ isSpeaking (hook (after (onmessage halfSecond 3 turnEnd answering)))
     = false.
Proof.
  split; [reflexivity|]. split; [reflexivity|]. split; [reflexivity|].
  destruct (turn_complete_flushes_both_buffers halfSecond 3 turnEnd answering
              eq_refl eq_refl eq_refl)
    as (Hw & _ & _ & _ & Hspk).
  split; [exact Hw | exact Hspk].
Defined.

(** C7 as stated fails when the turn-complete message also carries inline
    audio: the audio step that follows sets the speaking indicator again. *)
Lemma turn_complete_with_audio_keeps_speaking :
  isTurnComplete lastChunk = true
  /\ truthy (currentInputRef (hook answering)) = true
  /\ truthy (currentOutputRef (hook answering)) = true
  /\ isSpeaking (hook (after (onmessage halfSecond 3 lastChunk answering)))
     = true.
Proof. vm_compute. repeat split; reflexivity. Qed.

(** C10.  When a turn-complete message finds both buffers non-empty (with
    its own fragments appended), and when teardown finds both buffers
    non-empty, the writes issued are the user's text and then the model's
    text, in that order. *)
Theorem user_write_precedes_model_write :
  (forall dec now (message : LiveServerMessage) (s : Sys),
      isTurnComplete message = true ->
      truthy (inboundWith message (hook s)) = true ->
      truthy (outboundWith message (hook s)) = true ->
      writes (emitted (onmessage dec now message s))
      = [(user, inboundWith message (hook s), sessionIdRef (hook s));
         (model, outboundWith message (hook s), sessionIdRef (hook s))])
  /\ (forall s : Sys,
        truthy (currentInputRef (hook s)) = true ->
        truthy (currentOutputRef (hook s)) = true ->
        writes (emitted (cleanup s))
        = [(user, currentInputRef (hook s), sessionIdRef (hook s));
           (model, currentOutputRef (hook s), sessionIdRef (hook s))]).
Proof.
  split.
  - intros dec now message s Htc Hin Hout.
    destruct (onmessage_turn_complete dec now message s Htc) as (Hw & _).
    rewrite Hw. unfold written. now rewrite Hin, Hout.
  - intros s Hin Hout. rewrite cleanup_step. simpl.
    rewrite writes_teardown. unfold written. now rewrite Hin, Hout.
Qed.

Lemma user_write_precedes_model_write_witness :
  writes (emitted (onmessage halfSecond 3 turnEnd answering))
  = [(user, "what time is it", "session-1");
     (model, "It is It is ", "session-1")]
  /\ writes (emitted (cleanup answering))
     = [(user, "what time is it", "session-1");
        (model, "It is It is ", "session-1")].
Proof.
  destruct user_write_precedes_model_write as [Hturn Hdown].
  split.
  - exact (Hturn halfSecond 3 turnEnd answering eq_refl eq_refl eq_refl).
  - exact (Hdown answering eq_refl eq_refl).
Defined.

(** ** What reaches the store *)

(** A call of [saveTranscript] stores at most one document; the document
    carries the role and session identifier of the call and the text
    trimmed, and the stored text is never empty. *)
Lemma addDoc_stores_trimmed_text (role : Role) (text sessionId : string)
    (doc : TranscriptDoc) :
  addDoc role text sessionId = Some doc ->
  doc_role doc = role
  /\ doc_sessionId doc = sessionId
  /\ doc_text doc = trim text
  /\ truthy (doc_text doc) = true.
Proof.
  unfold addDoc. destruct (truthy text); simpl; [|discriminate].
  destruct (truthy (trim text)) eqn:Htrim; simpl; [|discriminate].
  intros [= <-]. simpl. repeat split; try reflexivity. exact Htrim.
Qed.

(** The hook tests a buffer for emptiness, [saveTranscript] tests it for
    blankness: a buffer that holds white space only is written by the hook
    and dropped by [saveTranscript]. *)
Lemma blank_buffer_is_written_but_not_stored :
  writes (flush user "  " "session-1") = [(user, "  ", "session-1")]
  /\ documents (flush user "  " "session-1") = [].
Proof. split; reflexivity. Qed.

(** ** The playback scheduler *)

(** What a message that is not an interruption does to the schedule: either
    nothing is scheduled and the cursor does not move back, or one segment is
    scheduled at the later of the cursor and the clock, and the cursor moves
    to its end. *)
Lemma onmessage_schedule dec now (message : LiveServerMessage) (s : Sys) :
  isInterrupted message = false ->
  let r := onmessage dec now message s in
  let cursor := nextStartTimeRef (hook s) in
  (starts (emitted r) = []
   /\ (cursor <= nextStartTimeRef (hook (after r)))%Q)
  \/ (exists source,
        starts (emitted r) = [(source, Qmax cursor now)]
        /\ nextStartTimeRef (hook (after r))
           = (Qmax cursor now + duration (buffer source))%Q).
Proof.
  intros Hint r cursor. subst r cursor.
  unfold onmessage, bind. rewrite handleTranscription_step. simpl.
  destruct (first_two_steps message s)
    as (s1 & e1 & -> & Hstarts1 & _ & Hcursor & _ & Hctx & Hgain & _).
  rewrite Hint. rewrite <- Hcursor.
  destruct (audioStepRuns message (hook s1)) eqn:Hruns.
  - pose proof Hruns as Hruns'.
    unfold audioStepRuns, carriesAudio in Hruns'.
    destruct (base64Audio message) as [data|] eqn:Hdata; [|discriminate].
    destruct (outputContextRef (hook s1)) as [ctx|] eqn:Hc;
      [|now rewrite andb_false_r in Hruns'].
    destruct (outputGainNodeRef (hook s1)) as [gain|] eqn:Hg;
      [|now rewrite andb_false_r in Hruns'].
    simpl in Hruns'. rewrite !andb_true_r in Hruns'.
    destruct (dec data) as [decoded|] eqn:Hdec.
    + rewrite (handleAudioData_enqueue dec now message s1 data ctx gain decoded)
        by assumption.
      simpl. right. eexists. rewrite starts_app, Hstarts1. simpl.
      split; reflexivity.
    + rewrite (handleAudioData_reject dec now message s1 data) by assumption.
      simpl. left. rewrite starts_app, Hstarts1. simpl.
      split; [reflexivity | apply Q.le_max_l].
  - rewrite handleAudioData_skip by assumption. simpl. left.
    rewrite app_nil_r. split; [exact Hstarts1 | apply Qle_refl].
Qed.

(** When the last scheduled segment ends, the speaking indicator goes off;
    while another is still scheduled, it stays as it is. *)
Lemma onended_last_segment (source : AudioBufferSourceNode) (s : Sys) :
  activeSourcesRef (hook s) = [source] ->
  let r := onended source s in
  activeSourcesRef (hook (after r)) = []
  /\ isSpeaking (hook (after r)) = false
  /\ emitted r = [SetIsSpeaking false].
Proof.
  intros Hact r. subst r. unfold onended, bind. simpl. rewrite Hact. simpl.
  rewrite Nat.eqb_refl. simpl. repeat split; reflexivity.
Qed.

(** ** Teardown *)

(** C9.  [disconnect] returns normally from any state, also the state of a
    hook that never connected, and leaves the status [disconnected], both
    buffers and the segment set empty, the volume 0 and the speaking
    indicator off.  A second call in succession returns normally as well,
    writes nothing, stops nothing, and leaves every cell of the hook and
    every browser resource as the first call left them. *)
Theorem disconnect_is_idempotent :
  forall s : Sys,
    let once := disconnect s in
    let twice := disconnect (after once) in
    completion once = Normal tt
    /\ completion twice = Normal tt
    /\ status (hook (after once)) = disconnected
    /\ status (hook (after twice)) = disconnected
    /\ currentInputRef (hook (after once)) = ""
    /\ currentOutputRef (hook (after once)) = ""
    /\ activeSourcesRef (hook (after once)) = []
    /\ volume (hook (after once)) = 0%Q
    /\ isSpeaking (hook (after once)) = false
    /\ after twice = after once
    /\ writes (emitted twice) = []
    /\ stops (emitted twice) = [].
Proof.
  intros s once twice. subst once twice. unfold disconnect.
  rewrite !cleanup_step. simpl.
  rewrite torn_torn.
  repeat split; try reflexivity.
  - rewrite writes_teardown. reflexivity.
  - rewrite stops_teardown. reflexivity.
Qed.

(** The same on a hook that never connected: nothing at all changes. *)
Lemma disconnect_before_connect :
  completion (disconnect pageLoad) = Normal tt
  /\ after (disconnect pageLoad) = pageLoad
  /\ emitted (disconnect pageLoad)
     = [SetStatus disconnected; SetIsSpeaking false; SetVolume 0].
Proof. repeat split; reflexivity. Qed.

(** ** Channel failure *)

(** C3, as amended.  When the channel reports a failure, the handler logs it
    and sets the status to [error], and that is all: it returns normally,
    writes nothing, stops no segment, and leaves every other cell, both
    transcript buffers among them, and every browser resource as they
    were. *)
Theorem channel_failure_only_sets_error :
  forall s : Sys,
    let r := onerror s in
    completion r = Normal tt
    /\ emitted r = [ConsoleError "Session error"; SetStatus error]
    /\ writes (emitted r) = []
    /\ stops (emitted r) = []
    /\ hook (after r) = with_status error (hook s)
    /\ currentInputRef (hook (after r)) = currentInputRef (hook s)
    /\ currentOutputRef (hook (after r)) = currentOutputRef (hook s)
    /\ browser (after r) = browser s.
Proof.
  intros s r. subst r. unfold onerror, bind. simpl.
  repeat split; reflexivity.
Qed.

(** C3 as stated fails: after a channel failure in the middle of an answer
    nothing has been written, both buffers still hold their text, and the
    microphone stream and both audio contexts are still live. *)
Lemma channel_failure_runs_no_teardown :
  status (hook (after (onerror answering))) = error
  /\ writes (emitted (onerror answering)) = []
  /\ currentInputRef (hook (after (onerror answering))) = "what time is it"
  /\ currentOutputRef (hook (after (onerror answering))) = "It is It is "
  /\ liveStreams (browser (after (onerror answering)))
     = [{| stream_id := 5 |}]
  /\ List.length (openContexts (browser (after (onerror answering)))) = 2%nat
  /\ List.length (activeSourcesRef (hook (after (onerror answering)))) = 2%nat.
Proof. vm_compute. repeat split; reflexivity. Qed.

(** The other channel callback is as small: [onclose] logs and sets the
    status to [disconnected]; it runs no teardown either. *)
Lemma channel_close_only_sets_disconnected (s : Sys) :
  onclose s
  = {| completion := Normal tt;
       after := {| hook := with_status disconnected (hook s);
                   browser := browser s |};
       emitted := [ConsoleLog "Session closed"; SetStatus disconnected] |}.
Proof. reflexivity. Qed.

(** ** Connecting *)

Lemma connect_unconfigured_step (env : Env) (s : Sys) :
  truthy_opt (API_KEY env) = false ->
  connect env s
  = {| completion := Normal tt;
       after := {| hook := with_status error (hook s); browser := browser s |};
       emitted := [ConsoleError "API Key missing"; SetStatus error] |}.
Proof. intros Hkey. unfold connect. rewrite Hkey. reflexivity. Qed.

(** C8.  When the agent-access credential is absent (the variable is not
    defined, or is the empty string), [connect] logs the fact and sets the
    status to [error], and does nothing else: the only status update is
    [error], no audio context is created, the microphone is not requested, no
    client is built and no channel is opened, and no browser resource
    changes. *)
Theorem connect_without_credential :
  forall (env : Env) (s : Sys),
    truthy_opt (API_KEY env) = false ->
    let r := connect env s in
    completion r = Normal tt
    /\ emitted r = [ConsoleError "API Key missing"; SetStatus error]
    /\ statuses (emitted r) = [error]
    /\ acquisitions (emitted r) = []
    /\ hook (after r) = with_status error (hook s)
    /\ browser (after r) = browser s.
Proof.
  intros env s Hkey r. subst r.
  rewrite connect_unconfigured_step by exact Hkey.
  repeat split; reflexivity.
Qed.

Lemma connect_without_credential_witness :
  truthy_opt (API_KEY unconfigured) = false
  /\ status (hook (after (connect unconfigured pageLoad))) = error
  /\ acquisitions (emitted (connect unconfigured pageLoad)) = []
  /\ browser (after (connect unconfigured pageLoad)) = initialBrowser.
Proof.
  split; [reflexivity|].
  destruct (connect_without_credential unconfigured pageLoad eq_refl)
    as (_ & _ & _ & Hacq & Hhook & Hbrowser).
  split; [rewrite Hhook; reflexivity|]. split; [exact Hacq | exact Hbrowser].
Defined.

Lemma statuses_cons (e : Event) (t : list Event) :
  statuses (e :: t) = statuses [e] ++ statuses t.
Proof. apply (statuses_app [e] t). Qed.

Lemma writes_cons (e : Event) (t : list Event) :
  writes (e :: t) = writes [e] ++ writes t.
Proof. apply (writes_app [e] t). Qed.

(** What [connect] does when the credential is present and an acquisition
    step fails: it announces [connecting], then [error], then runs [cleanup]
    on the cells [h'] and the browser [b'] as the failed step left them;
    [cleanup] announces [disconnected]. *)
Lemma connect_failure_step (env : Env) (s : Sys) :
  truthy_opt (API_KEY env) = true ->
  acquires env = false ->
  exists (h' : Hook) (b' : Browser) (trace : list Event),
    connect env s
    = {| completion := Normal tt;
         after := {| hook := torn h'; browser := released h' b' |};
         emitted := trace |}
    /\ statuses trace = [connecting; error; disconnected]
    /\ writes trace = writes (teardown h')
    /\ currentInputRef h' = currentInputRef (hook s)
    /\ currentOutputRef h' = currentOutputRef (hook s)
    /\ sessionIdRef h' = randomUUID env
    /\ (idle s -> owned {| hook := h'; browser := b' |}).
Proof.
  intros Hkey Hacq. unfold acquires in Hacq.
  destruct env as [key uuid inputOk outputOk data micOk clientOk].
  simpl in Hkey, Hacq. unfold connect. simpl. rewrite Hkey. simpl.
  destruct inputOk; [destruct outputOk; [destruct micOk;
    [destruct clientOk; [discriminate Hacq|] |] |] |];
    unfold try_catch, bind; cbn; rewrite cleanup_step;
    match goal with
    | |- context [teardown ?h] => set (h' := h)
    end;
    exists h'; eexists; eexists;
    (split; [reflexivity|]);
    (split;
       [repeat match goal with
               | |- context [statuses (?e :: ?t)] =>
                   lazymatch t with
                   | [] => fail
                   | _ => rewrite (statuses_cons e t)
                   end
               end;
        rewrite statuses_teardown; reflexivity|]);
    (split;
       [repeat match goal with
               | |- context [writes (?e :: ?t)] =>
                   lazymatch t with
                   | [] => fail
                   | _ => rewrite (writes_cons e t)
                   end
               end;
        reflexivity|]);
    (split; [reflexivity|]); (split; [reflexivity|]);
    (split; [reflexivity|]);
    intros (Hic & Hoc & Hst & Hctxs & Hstreams); unfold owned; cbn;
    rewrite ?Hic, ?Hoc, ?Hst, ?Hctxs, ?Hstreams; split; reflexivity.
Qed.

Lemma connect_failure (env : Env) (s : Sys) :
  truthy_opt (API_KEY env) = true ->
  acquires env = false ->
  let r := connect env s in
  completion r = Normal tt
  /\ statuses (emitted r) = [connecting; error; disconnected]
  /\ status (hook (after r)) = disconnected
  /\ writes (emitted r)
     = written user (currentInputRef (hook s)) (randomUUID env)
       ++ written model (currentOutputRef (hook s)) (randomUUID env)
  /\ inputContextRef (hook (after r)) = None
  /\ outputContextRef (hook (after r)) = None
  /\ streamRef (hook (after r)) = None
  /\ sessionRef (hook (after r)) = None.
Proof.
  intros Hkey Hacq r. subst r.
  destruct (connect_failure_step env s Hkey Hacq)
    as (h' & b' & trace & -> & Hstatuses & Hwrites & Hin & Hout & Hsid & _).
  cbn [completion after emitted hook].
  rewrite Hwrites, writes_teardown, Hin, Hout, Hsid.
  repeat split; try reflexivity. exact Hstatuses.
Qed.

(** C5, on the code: with the credential present and the microphone denied,
    [connect] sets the status to [error] and then runs [cleanup], whose last
    status update is [disconnected]; the status the presentation layer is
    left with is [disconnected], not [error]. *)
Theorem denied_microphone_ends_disconnected :
  statuses (emitted (connect microphoneDenied pageLoad))
  = [connecting; error; disconnected]
  /\ status (hook (after (connect microphoneDenied pageLoad))) = disconnected
  /\ status (hook (after (connect microphoneDenied pageLoad))) <> error.
Proof.
  destruct (connect_failure microphoneDenied pageLoad eq_refl eq_refl)
    as (_ & Hstatuses & Hstatus & _).
  split; [exact Hstatuses|]. split; [exact Hstatus|].
  rewrite Hstatus. discriminate.
Qed.

(** ** One session at a time *)

Lemma idle_owned (s : Sys) : idle s -> owned s.
Proof.
  intros (Hic & Hoc & Hst & Hctxs & Hstreams). unfold owned.
  now rewrite Hic, Hoc, Hst, Hctxs, Hstreams.
Qed.

(** [cleanup] releases everything an [owned] state holds. *)
Lemma cleanup_releases (h : Hook) (b : Browser) :
  owned {| hook := h; browser := b |} ->
  idle {| hook := torn h; browser := released h b |}.
Proof.
  unfold owned, idle, released. cbn. intros [Hctxs Hstreams].
  split; [reflexivity|]. split; [reflexivity|]. split; [reflexivity|].
  destruct b as [next ctxs streams channels]. cbn in Hctxs, Hstreams.
  subst ctxs streams.
  destruct (inputContextRef h) as [ic|], (outputContextRef h) as [oc|],
    (streamRef h) as [st|]; cbn; rewrite ?Nat.eqb_refl; cbn;
    try (split; reflexivity);
    destruct (context_id oc =? context_id ic)%nat; cbn;
    rewrite ?Nat.eqb_refl; cbn; split; reflexivity.
Qed.

Lemma disconnect_releases (s : Sys) :
  owned s -> idle (after (disconnect s)).
Proof.
  intros Howned. unfold disconnect. rewrite cleanup_step.
  cbn [after]. apply cleanup_releases. destruct s. exact Howned.
Qed.

(** The message handler acquires and releases nothing. *)
Lemma onmessage_keeps_resources dec now (message : LiveServerMessage)
    (s : Sys) :
  let r := onmessage dec now message s in
  inputContextRef (hook (after r)) = inputContextRef (hook s)
  /\ outputContextRef (hook (after r)) = outputContextRef (hook s)
  /\ streamRef (hook (after r)) = streamRef (hook s)
  /\ openContexts (browser (after r)) = openContexts (browser s)
  /\ liveStreams (browser (after r)) = liveStreams (browser s).
Proof.
  intros r. subst r.
  unfold onmessage, bind. rewrite handleTranscription_step. simpl.
  destruct (first_two_steps message s)
    as (s1 & e1 & -> & _ & _ & _ & _ & Hoc & _ & Hic & Hst & Hb).
  rewrite <- Hic, <- Hoc, <- Hst, <- Hb.
  destruct (isInterrupted message).
  - rewrite handleInterruption_step. simpl. repeat split; reflexivity.
  - destruct (audioStepRuns message (hook s1)) eqn:Hruns.
    + pose proof Hruns as Hruns'.
      unfold audioStepRuns, carriesAudio in Hruns'.
      destruct (base64Audio message) as [data|] eqn:Hdata; [|discriminate].
      destruct (outputContextRef (hook s1)) as [ctx|] eqn:Hc;
        [|now rewrite andb_false_r in Hruns'].
      destruct (outputGainNodeRef (hook s1)) as [gain|] eqn:Hg;
        [|now rewrite andb_false_r in Hruns'].
      simpl in Hruns'. rewrite !andb_true_r in Hruns'.
      destruct (dec data) as [decoded|] eqn:Hdec.
      * rewrite (handleAudioData_enqueue dec now message s1 data ctx gain
                   decoded) by assumption.
        simpl. rewrite Hc. repeat split; reflexivity.
      * rewrite (handleAudioData_reject dec now message s1 data)
          by assumption.
        simpl. rewrite Hc. repeat split; reflexivity.
    + rewrite handleAudioData_skip by assumption. simpl.
      repeat split; reflexivity.
Qed.

(** So a session that owns its resources keeps owning them, and no others,
    however many messages arrive. *)
Lemma run_keeps_resources dec (arrivals : list Arrival) :
  forall s : Sys,
    let r := run dec arrivals s in
    (owned s -> owned (after r))
    /\ openContexts (browser (after r)) = openContexts (browser s)
    /\ liveStreams (browser (after r)) = liveStreams (browser s).
Proof.
  induction arrivals as [|a rest IH]; intros s; [simpl; auto|].
  simpl.
  pose proof (onmessage_keeps_resources dec (clock a) (message a) s)
    as (Hic & Hoc & Hst & Hctxs & Hstreams).
  destruct (onmessage dec (clock a) (message a) s) as [c1 s1 e1].
  simpl in Hic, Hoc, Hst, Hctxs, Hstreams.
  specialize (IH s1).
  destruct (run dec rest s1) as [c2 s2 e2]. simpl in IH |- *.
  destruct IH as (Hown & Hctxs2 & Hstreams2).
  rewrite Hctxs2, Hstreams2, Hctxs, Hstreams.
  split; [|split; reflexivity].
  intros [H1 H2]. apply Hown. unfold owned.
  now rewrite Hic, Hoc, Hst, Hctxs, Hstreams.
Qed.

(** What [connect] does when the credential is present and every
    acquisition step succeeds. *)
Lemma connect_success_step (env : Env) (s : Sys) :
  truthy_opt (API_KEY env) = true ->
  acquires env = true ->
  exists (h' : Hook) (b' : Browser) (trace : list Event),
    connect env s
    = {| completion := Normal tt;
         after := {| hook := h'; browser := b' |};
         emitted := trace |}
    /\ statuses trace = [connecting]
    /\ status h' = connecting
    /\ writes trace = []
    /\ List.length (liveStreams b') = S (List.length (liveStreams (browser s)))
    /\ List.length (outputDevices b')
       = S (List.length (outputDevices (browser s)))
    /\ (idle s -> owned {| hook := h'; browser := b' |}).
Proof.
  intros Hkey Hacq. unfold acquires in Hacq.
  destruct env as [key uuid inputOk outputOk data micOk clientOk].
  simpl in Hkey, Hacq. unfold connect. simpl. rewrite Hkey. simpl.
  destruct inputOk, outputOk, micOk, clientOk; try discriminate Hacq.
  unfold try_catch, bind; cbn.
  eexists; eexists; eexists.
  split; [reflexivity|]. split; [reflexivity|]. split; [reflexivity|].
  split; [reflexivity|].
  split; [cbn; rewrite length_app; cbn; apply Nat.add_1_r|].
  split.
  - unfold outputDevices. cbn. rewrite !filter_app. cbn.
    rewrite app_nil_r, length_app. cbn. apply Nat.add_1_r.
  - intros (Hic & Hoc & Hst & Hctxs & Hstreams). unfold owned. cbn.
    rewrite Hctxs, Hstreams. split; reflexivity.
Qed.

(** * Further properties *)

(** ** The orb *)

Lemma Qmin_between (a b lo : Q) :
  (lo <= a -> lo <= b -> lo <= Qmin a b) /\ Qmin a b <= a /\ Qmin a b <= b.
Proof.
  split; [intros Ha Hb; now apply Q.min_glb|].
  split; [apply Q.le_min_l | apply Q.le_min_r].
Qed.

(** X17.  For a volume between 0 and 1, which is what the hook reports,
    every number the orb puts into a style stays in a fixed range: the outer
    glow is between 100% and 200% of its box with an opacity between 0.18
    and 0.3 and a blur of 30 to 50 pixels, the shadow of the core is 50 to
    150 pixels wide, and the core is scaled by 0.9 to 1.1. *)
Theorem orb_geometry_is_bounded :
  forall volume : Q,
    0 <= volume -> volume <= 1 ->
    1 <= scale volume <= 2
    /\ 100 <= glowExtent volume <= 200
    /\ (3 # 5) <= opacity volume <= 1
    /\ (18 # 100) <= glowOpacity volume <= (3 # 10)
    /\ 30 <= glowBlur volume <= 50
    /\ 50 <= glowSize volume <= 150
    /\ (9 # 10) <= coreScale volume <= (11 # 10).
Proof.
  intros volume Hlo Hhi.
  unfold glowExtent, glowOpacity, glowBlur, coreScale, scale, opacity,
    glowSize.
  destruct (Qmin_between (volume * (3 # 2)) 1 0) as (H1 & H2 & H3).
  destruct (Qmin_between volume (2 # 5) 0) as (H4 & H5 & H6).
  destruct (Qmin_between (volume * 100) 100 0) as (H7 & H8 & H9).
  assert (0 <= Qmin (volume * (3 # 2)) 1) by (apply H1; lra).
  assert (0 <= Qmin volume (2 # 5)) by (apply H4; lra).
  assert (0 <= Qmin (volume * 100) 100) by (apply H7; lra).
  repeat split; lra.
Qed.

Lemma orb_geometry_is_bounded_witness :
  1 <= scale (1 # 2) <= 2
  /\ 100 <= glowExtent (1 # 2) <= 200
  /\ (3 # 5) <= opacity (1 # 2) <= 1
  /\ (18 # 100) <= glowOpacity (1 # 2) <= (3 # 10)
  /\ 30 <= glowBlur (1 # 2) <= 50
  /\ 50 <= glowSize (1 # 2) <= 150
  /\ (9 # 10) <= coreScale (1 # 2) <= (11 # 10).
Proof. apply (orb_geometry_is_bounded (1 # 2)); lra. Defined.

(** X18.  The three clamps hold for any volume, also one above 1: the scale
    never exceeds 2, the opacity never exceeds 1 and the shadow never
    exceeds 150 pixels.  The louder the sound, the larger each of the
    numbers: none of them decreases when the volume increases. *)
Theorem orb_grows_with_volume :
  forall quiet loud : Q,
    quiet <= loud ->
    scale quiet <= scale loud <= 2
    /\ opacity quiet <= opacity loud <= 1
    /\ glowSize quiet <= glowSize loud <= 150
    /\ glowBlur quiet <= glowBlur loud
    /\ coreScale quiet <= coreScale loud.
Proof.
  intros quiet loud Hle.
  unfold glowBlur, coreScale, scale, opacity, glowSize.
  assert (Qmin (quiet * (3 # 2)) 1 <= Qmin (loud * (3 # 2)) 1)
    by (apply Q.min_le_compat; lra).
  assert (Qmin quiet (2 # 5) <= Qmin loud (2 # 5))
    by (apply Q.min_le_compat; lra).
  assert (Qmin (quiet * 100) 100 <= Qmin (loud * 100) 100)
    by (apply Q.min_le_compat; lra).
  destruct (Qmin_between (loud * (3 # 2)) 1 0) as (_ & _ & H3).
  destruct (Qmin_between loud (2 # 5) 0) as (_ & _ & H6).
  destruct (Qmin_between (loud * 100) 100 0) as (_ & _ & H9).
  repeat split; lra.
Qed.

Lemma orb_grows_with_volume_witness :
  scale (1 # 10) <= scale 3 <= 2
  /\ opacity (1 # 10) <= opacity 3 <= 1
  /\ glowSize (1 # 10) <= glowSize 3 <= 150
  /\ glowBlur (1 # 10) <= glowBlur 3
  /\ coreScale (1 # 10) <= coreScale 3.
Proof. apply (orb_grows_with_volume (1 # 10) 3); lra. Defined.

(** X19.  The colour tells the five states of the orb apart: two renderings
    have the same colour exactly when the status is the same and, while
    connected, the speaking indicator is the same.  Outside [connected] the
    speaking indicator has no effect on the colour. *)
Theorem orb_colour_identifies_the_state :
  forall (st st' : SessionStatus) (sp sp' : bool),
    baseColor st sp = baseColor st' sp'
    <-> st = st' /\ (st = connected -> sp = sp').
Proof.
  intros st st' sp sp'. split.
  - destruct st, st', sp, sp'; simpl; intros H;
      try discriminate H; split; try reflexivity; intros H'; try reflexivity;
      discriminate H'.
  - intros [<- Hsp]. destruct st; try reflexivity.
    now rewrite (Hsp eq_refl).
Qed.

(** ** What [saveTranscript] stores *)

Lemma dropPrefix_Some (p l rest : list ascii) :
  dropPrefix p l = Some rest <-> l = p ++ rest.
Proof.
  revert l. induction p as [|c p IH]; intros l; simpl.
  - split; [intros [= ->]; reflexivity | intros ->; reflexivity].
  - destruct l as [|d l]; [split; discriminate|].
    destruct (Ascii.eqb_spec c d) as [<- | Hne].
    + rewrite IH. split; [intros ->; reflexivity | intros [= ->]; reflexivity].
    + split; [discriminate | intros [= Heq _]; now symmetry in Heq].
Qed.

Lemma dropOne_Some (characters : list (list ascii)) (l rest : list ascii) :
  dropOne characters l = Some rest ->
  exists c, In c characters /\ l = c ++ rest.
Proof.
  induction characters as [|p others IH]; simpl; [discriminate|].
  destruct (dropPrefix p l) as [rest'|] eqn:Hdrop.
  - intros [= <-]. exists p. split; [now left | now apply dropPrefix_Some].
  - intros Hothers. destruct (IH Hothers) as (c & Hin & Heq).
    exists c. split; [now right | exact Heq].
Qed.

Lemma dropOne_None (characters : list (list ascii)) (l : list ascii) :
  dropOne characters l = None ->
  forall c rest, In c characters -> l <> c ++ rest.
Proof.
  induction characters as [|p others IH]; simpl; intros Hnone c rest Hin Heq;
    [exact Hin|].
  destruct (dropPrefix p l) as [rest'|] eqn:Hdrop; [discriminate Hnone|].
  destruct Hin as [<- | Hin].
  - apply dropPrefix_Some in Heq. rewrite Heq in Hdrop. discriminate Hdrop.
  - exact (IH Hnone c rest Hin Heq).
Qed.

(** What [strip] does: it takes characters off the front and stops where
    none begins. *)
Lemma strip_spec (characters : list (list ascii)) :
  Forall (fun c => c <> []) characters ->
  forall (fuel : nat) (l : list ascii),
    (List.length l <= fuel)%nat ->
    exists taken : list (list ascii),
      Forall (fun c => In c characters) taken
      /\ l = List.concat taken ++ strip characters fuel l
      /\ dropOne characters (strip characters fuel l) = None.
Proof.
  intros Hnonempty. induction fuel as [|fuel IH]; intros l Hlen.
  - destruct l; [|simpl in Hlen; lia]. exists []. simpl.
    split; [constructor|]. split; [reflexivity|].
    destruct (dropOne characters []) as [rest|] eqn:Hdrop; [|reflexivity].
    destruct (dropOne_Some _ _ _ Hdrop) as (c & Hin & Heq).
    rewrite Forall_forall in Hnonempty. specialize (Hnonempty c Hin).
    destruct c; [contradiction | discriminate Heq].
  - simpl. destruct (dropOne characters l) as [rest|] eqn:Hdrop.
    + destruct (dropOne_Some _ _ _ Hdrop) as (c & Hin & ->).
      assert (Hc : c <> [])
        by (rewrite Forall_forall in Hnonempty; now apply Hnonempty).
      assert (Hrest : (List.length rest <= fuel)%nat).
      { rewrite length_app in Hlen. destruct c; [contradiction|].
        simpl in Hlen. lia. }
      destruct (IH rest Hrest) as (taken & Htaken & Heq & Hstop).
      exists (c :: taken). split; [constructor; assumption|].
      split; [|exact Hstop].
      simpl. rewrite <- app_assoc, <- Heq. reflexivity.
    + exists []. split; [constructor|]. split; [reflexivity | exact Hdrop].
Qed.

Lemma strip_stops (characters : list (list ascii)) (fuel : nat)
    (l : list ascii) :
  dropOne characters l = None -> strip characters fuel l = l.
Proof. intros Hnone. destruct fuel; simpl; [|rewrite Hnone]; reflexivity. Qed.

(** A text made of characters only is stripped to nothing, when no
    character is the beginning of another. *)
Lemma strip_tiled (characters : list (list ascii)) :
  Forall (fun c => c <> []) characters ->
  (forall c d rest,
      In c characters -> In d characters -> d = c ++ rest -> rest = []) ->
  forall taken : list (list ascii),
    Forall (fun c => In c characters) taken ->
    forall fuel : nat,
      (List.length (List.concat taken) <= fuel)%nat ->
      strip characters fuel (List.concat taken) = [].
Proof.
  intros Hnonempty Hfree taken Htaken.
  induction Htaken as [|c taken Hc Htaken IH]; intros fuel Hlen.
  - destruct fuel; simpl; [reflexivity|].
    destruct (dropOne characters []) as [rest|] eqn:Hdrop; [|reflexivity].
    destruct (dropOne_Some _ _ _ Hdrop) as (d & Hin & Heq).
    rewrite Forall_forall in Hnonempty. specialize (Hnonempty d Hin).
    destruct d; [contradiction | discriminate Heq].
  - assert (Hne : c <> [])
      by (rewrite Forall_forall in Hnonempty; now apply Hnonempty).
    simpl in Hlen |- *. rewrite length_app in Hlen.
    destruct fuel as [|fuel]; [destruct c; [contradiction | simpl in Hlen; lia]|].
    simpl.
    destruct (dropOne characters (c ++ List.concat taken)) as [rest|] eqn:Hdrop.
    + destruct (dropOne_Some _ _ _ Hdrop) as (d & Hd & Heq).
      assert (Hsame : d = c /\ rest = List.concat taken).
      { apply app_eq_app in Heq. destruct Heq as (z & [[H1 H2] | [H1 H2]]).
        - pose proof (Hfree d c z Hd Hc H1) as ->.
          rewrite app_nil_r in H1. subst d. split; [reflexivity|].
          exact H2.
        - pose proof (Hfree c d z Hc Hd H1) as ->.
          rewrite app_nil_r in H1. subst d. split; [reflexivity|].
          symmetry. exact H2. }
      destruct Hsame as [-> ->]. apply IH.
      destruct c; [contradiction | simpl in Hlen; lia].
    + exfalso. exact (dropOne_None _ _ Hdrop c (List.concat taken) Hc eq_refl).
Qed.

(** Facts about the table of white space characters, by inspection. *)
Lemma whiteSpace_nonempty : Forall (fun c : list ascii => c <> []) whiteSpace.
Proof. unfold whiteSpace. repeat constructor; discriminate. Qed.

Lemma whiteSpace_prefix_free (c d rest : list ascii) :
  In c whiteSpace -> In d whiteSpace -> d = c ++ rest -> rest = [].
Proof.
  assert (Hcheck :
    forallb (fun c =>
      forallb (fun d =>
        match dropPrefix c d with
        | Some (_ :: _) => false
        | _ => true
        end) whiteSpace) whiteSpace = true) by (vm_compute; reflexivity).
  intros Hc Hd Heq.
  rewrite forallb_forall in Hcheck. specialize (Hcheck c Hc).
  rewrite forallb_forall in Hcheck. specialize (Hcheck d Hd).
  apply dropPrefix_Some in Heq. rewrite Heq in Hcheck.
  destruct rest; [reflexivity | discriminate Hcheck].
Qed.

Lemma reversed_nonempty :
  Forall (fun c : list ascii => c <> []) (map (@List.rev ascii) whiteSpace).
Proof. unfold whiteSpace. simpl. repeat constructor; discriminate. Qed.

Lemma list_ascii_of_string_app (a b : string) :
  list_ascii_of_string (a ++ b)
  = list_ascii_of_string a ++ list_ascii_of_string b.
Proof. induction a as [|c a IH]; simpl; [reflexivity | now rewrite IH]. Qed.

Lemma string_of_list_ascii_app (a b : list ascii) :
  string_of_list_ascii (a ++ b)
  = (string_of_list_ascii a ++ string_of_list_ascii b)%string.
Proof. induction a as [|c a IH]; simpl; [reflexivity | now rewrite IH]. Qed.

Lemma rev_concat_rev (l : list (list ascii)) :
  List.rev (List.concat l) = List.concat (List.rev (map (@List.rev ascii) l)).
Proof.
  induction l as [|x l IH]; [reflexivity|].
  simpl. rewrite rev_app_distr, IH, concat_app. simpl.
  now rewrite app_nil_r.
Qed.

(** [trimStart] takes white space characters off the front and leaves a
    text that begins with none. *)
Lemma trimStart_spec (s : string) :
  exists taken : list (list ascii),
    Forall (fun c => In c whiteSpace) taken
    /\ list_ascii_of_string s
       = List.concat taken ++ list_ascii_of_string (trimStart s)
    /\ dropOne whiteSpace (list_ascii_of_string (trimStart s)) = None.
Proof.
  unfold trimStart. cbv zeta. rewrite list_ascii_of_string_of_list_ascii.
  exact (strip_spec whiteSpace whiteSpace_nonempty _ _ (Nat.le_refl _)).
Qed.

(** [trimEnd] takes white space characters off the end and leaves a text
    that ends with none. *)
Lemma trimEnd_spec (s : string) :
  exists taken : list (list ascii),
    Forall (fun c => In c whiteSpace) taken
    /\ list_ascii_of_string s
       = list_ascii_of_string (trimEnd s) ++ List.concat taken
    /\ dropOne (map (@List.rev ascii) whiteSpace)
               (List.rev (list_ascii_of_string (trimEnd s))) = None.
Proof.
  unfold trimEnd. cbv zeta.
  rewrite list_ascii_of_string_of_list_ascii, rev_involutive.
  destruct (strip_spec _ reversed_nonempty _
              (List.rev (list_ascii_of_string s)) (Nat.le_refl _))
    as (taken & Htaken & Heq & Hstop).
  exists (List.rev (map (@List.rev ascii) taken)). split; [|split].
  - apply Forall_forall. intros c Hin. apply in_rev in Hin.
    apply in_map_iff in Hin. destruct Hin as (x & <- & Hx).
    rewrite Forall_forall in Htaken. specialize (Htaken x Hx).
    apply in_map_iff in Htaken. destruct Htaken as (p & <- & Hp).
    now rewrite rev_involutive.
  - rewrite <- rev_concat_rev.
    rewrite <- (rev_involutive (list_ascii_of_string s)) at 1.
    rewrite Heq at 1. now rewrite rev_app_distr.
  - exact Hstop.
Qed.

Lemma blank_bytes (taken : list (list ascii)) :
  Forall (fun c => In c whiteSpace) taken ->
  blank (string_of_list_ascii (List.concat taken)).
Proof.
  intros Htaken. exists taken. split; [exact Htaken|].
  apply list_ascii_of_string_of_list_ascii.
Qed.

Lemma trim_blank (s : string) : blank s -> trim s = "".
Proof.
  intros (taken & Htaken & Heq). unfold trim.
  assert (Hstart : trimStart s = "").
  { unfold trimStart. cbv zeta. rewrite Heq.
    rewrite (strip_tiled whiteSpace whiteSpace_nonempty whiteSpace_prefix_free
               taken Htaken _ (Nat.le_refl _)).
    reflexivity. }
  rewrite Hstart. reflexivity.
Qed.

Lemma empty_bytes (s : string) : list_ascii_of_string s = [] -> s = "".
Proof. destruct s; [reflexivity | discriminate]. Qed.

(** The table at work: around a text, each of the white space characters
    is stripped, whatever its length in bytes; and a letter whose encoding
    ends in a byte that also ends the encoding of a white space character
    (the last byte of U+00E0 is that of the no-break space) is kept. *)
Lemma trim_strips_each_white_space_character :
  forallb
    (fun codePoint =>
       String.eqb
         (trim (string_of_list_ascii
                  (utf8 codePoint ++ list_ascii_of_string "It is"
                   ++ utf8 codePoint)))
         "It is")
    whiteSpaceCodePoints
  = true.
Proof. vm_compute. reflexivity. Qed.

Lemma trim_keeps_other_characters :
  let text := string_of_list_ascii (list_ascii_of_string "voil" ++ utf8 224) in
  trim text = text
  /\ utf8 224 = [ascii_of_nat 195; ascii_of_nat 160]
  /\ utf8 160 = [ascii_of_nat 194; ascii_of_nat 160]
  /\ utf8 8232 = [ascii_of_nat 226; ascii_of_nat 128; ascii_of_nat 168]
  /\ utf8 65279 = [ascii_of_nat 239; ascii_of_nat 187; ascii_of_nat 191].
Proof. vm_compute. repeat split; reflexivity. Qed.

(** X20.  [saveTranscript] stores nothing exactly when the text is empty or
    a sequence of white space characters: the white space and line
    terminator code points that [trim] strips, among them the no-break
    space and the ideographic space. *)
Theorem nothing_stored_iff_blank :
  forall (role : Role) (text sessionId : string),
    addDoc role text sessionId = None <-> blank text.
Proof.
  intros role text sessionId. unfold addDoc. split.
  - destruct (truthy text) eqn:Htext; simpl.
    + destruct (truthy (trim text)) eqn:Htrim; simpl; [discriminate|].
      intros _. apply truthy_false_empty in Htrim.
      destruct (trimStart_spec text) as (before & Hbefore & Heq & _).
      destruct (trimEnd_spec (trimStart text)) as (behind & Hbehind & Heq' & _).
      fold (trim text) in Heq'. rewrite Htrim in Heq'. simpl in Heq'.
      exists (before ++ behind). split; [now apply Forall_app|].
      now rewrite Heq, Heq', concat_app.
    + intros _. rewrite (truthy_false_empty _ Htext).
      exists []. split; [constructor | reflexivity].
  - intros Hblank. rewrite (trim_blank _ Hblank). simpl.
    now rewrite orb_true_r.
Qed.

(** X21.  What is stored is the text without the white space around it.
    The text of a stored document is not empty and neither begins nor ends
    with a white space character, the text of the call is the stored text
    with white space characters only before and behind it, and the document
    carries the role and the session identifier of the call. *)
Theorem stored_text_has_no_surrounding_space :
  forall (role : Role) (text sessionId : string) (doc : TranscriptDoc),
    addDoc role text sessionId = Some doc ->
    doc_text doc <> ""
    /\ ~ beginsWithWhiteSpace (doc_text doc)
    /\ ~ endsWithWhiteSpace (doc_text doc)
    /\ (exists before behind : string,
           blank before /\ blank behind
           /\ text = (before ++ doc_text doc ++ behind)%string)
    /\ doc_role doc = role
    /\ doc_sessionId doc = sessionId.
Proof.
  intros role text sessionId doc. unfold addDoc.
  destruct (truthy text); simpl; [|discriminate].
  destruct (truthy (trim text)) eqn:Htrim; simpl; [|discriminate].
  intros [= <-]. simpl.
  destruct (trimStart_spec text) as (before & Hbefore & Heq & Hstart).
  destruct (trimEnd_spec (trimStart text))
    as (behind & Hbehind & Heq' & Hend).
  fold (trim text) in Heq', Hend.
  split; [intros Hempty; rewrite Hempty in Htrim; discriminate Htrim|].
  split; [|split; [|split; [|split; reflexivity]]].
  - intros (c & rest & Hc & Hbegins).
    rewrite Heq', Hbegins, <- app_assoc in Hstart.
    exact (dropOne_None _ _ Hstart c _ Hc eq_refl).
  - intros (c & rest & Hc & Hends).
    rewrite Hends, rev_app_distr in Hend.
    apply (dropOne_None _ _ Hend (List.rev c) (List.rev rest));
      [|reflexivity].
    apply in_map_iff. exists c. split; [reflexivity | exact Hc].
  - exists (string_of_list_ascii (List.concat before)),
           (string_of_list_ascii (List.concat behind)).
    split; [now apply blank_bytes|]. split; [now apply blank_bytes|].
    transitivity (string_of_list_ascii (list_ascii_of_string text));
      [symmetry; apply string_of_list_ascii_of_string|].
    rewrite Heq, Heq', !string_of_list_ascii_app,
      string_of_list_ascii_of_string.
    reflexivity.
Qed.

Lemma stored_text_has_no_surrounding_space_witness :
  let nbsp := string_of_list_ascii (utf8 160) in
  let wide := string_of_list_ascii (utf8 12288) in
  let text := (nbsp ++ " It is noon." ++ wide)%string in
  "It is noon." <> ""
  /\ ~ beginsWithWhiteSpace "It is noon."
  /\ ~ endsWithWhiteSpace "It is noon."
  /\ (exists before behind : string,
         blank before /\ blank behind
         /\ text = (before ++ "It is noon." ++ behind)%string)
  /\ model = model
  /\ "session-1" = "session-1".
Proof.
  intros nbsp wide text.
  exact (stored_text_has_no_surrounding_space model text "session-1"
           {| doc_sessionId := "session-1"; doc_role := model;
              doc_text := "It is noon." |} eq_refl).
Defined.

(** ** [connect] and its two halves *)

(** Run back to back, the two halves are [connect]. *)
Lemma connect_in_two_steps (env : Env) (s : Sys) :
  (reached <- connectUntilAwait env ;;
   if reached then connectAfterAwait env else ret tt) s
  = connect env s.
Proof.
  destruct env as [key uuid inputOk outputOk data micOk clientOk].
  unfold connect, connectUntilAwait, connectAfterAwait, connectFailed.
  cbn [API_KEY randomUUID inputContextAvailable outputContextAvailable
       frequencyData microphoneGranted clientConstructed].
  destruct (truthy_opt key); cbn [negb]; [|reflexivity].
  destruct inputOk; [destruct outputOk; [destruct micOk; [destruct clientOk|]|]|];
    unfold try_catch, attempt, bind; cbn; rewrite ?cleanup_step; cbn;
    rewrite ?app_nil_r; reflexivity.
Qed.

Lemma released_keeps (h : Hook) (b : Browser) :
  fresh (released h b) = fresh b
  /\ openChannels (released h b) = openChannels b.
Proof.
  unfold released.
  destruct (inputContextRef h), (outputContextRef h), (streamRef h);
    split; reflexivity.
Qed.

Lemma connectUntilAwait_unconfigured (env : Env) (s : Sys) :
  truthy_opt (API_KEY env) = false ->
  connectUntilAwait env s
  = {| completion := Normal false;
       after := {| hook := with_status error (hook s); browser := browser s |};
       emitted := [ConsoleError "API Key missing"; SetStatus error] |}.
Proof. intros Hkey. unfold connectUntilAwait. rewrite Hkey. reflexivity. Qed.

(** The first half when both contexts can be created. *)
Lemma connectUntilAwait_reached (env : Env) (s : Sys) :
  truthy_opt (API_KEY env) = true ->
  inputContextAvailable env && outputContextAvailable env = true ->
  exists trace : list Event,
    connectUntilAwait env s
    = {| completion := Normal true; after := prepared env s;
         emitted := trace |}
    /\ statuses trace = [connecting]
    /\ writes trace = []
    /\ stops trace = [].
Proof.
  intros Hkey Hok.
  destruct env as [key uuid inputOk outputOk data micOk clientOk].
  cbn in Hkey, Hok. destruct inputOk, outputOk; try discriminate Hok.
  unfold connectUntilAwait.
  cbn [API_KEY randomUUID inputContextAvailable outputContextAvailable
       frequencyData microphoneGranted clientConstructed].
  rewrite Hkey. cbn [negb]. unfold attempt, bind. cbn.
  eexists. split; [reflexivity|]. repeat split; reflexivity.
Qed.

(** The first half when a context cannot be created: the [catch] block
    runs [cleanup] on what was set up. *)
Lemma connectUntilAwait_failed (env : Env) (s : Sys) :
  truthy_opt (API_KEY env) = true ->
  inputContextAvailable env && outputContextAvailable env = false ->
  exists (h' : Hook) (b' : Browser) (before : list Event),
    connectUntilAwait env s
    = {| completion := Normal false;
         after := {| hook := torn h'; browser := released h' b' |};
         emitted := before ++ teardown h' |}
    /\ statuses before = [connecting; error]
    /\ writes before = []
    /\ stops before = []
    /\ currentInputRef h' = currentInputRef (hook s)
    /\ currentOutputRef h' = currentOutputRef (hook s)
    /\ sessionIdRef h' = randomUUID env
    /\ nextStartTimeRef h' = nextStartTimeRef (hook s)
    /\ activeSourcesRef h' = activeSourcesRef (hook s)
    /\ openChannels b' = openChannels (browser s)
    /\ (fresh (browser s) <= fresh b')%nat
    /\ (idle s -> owned {| hook := h'; browser := b' |}).
Proof.
  intros Hkey Hok.
  destruct env as [key uuid inputOk outputOk data micOk clientOk].
  cbn in Hkey, Hok. unfold connectUntilAwait, connectFailed.
  cbn [API_KEY randomUUID inputContextAvailable outputContextAvailable
       frequencyData microphoneGranted clientConstructed].
  rewrite Hkey. cbn [negb].
  destruct inputOk; [destruct outputOk; [discriminate Hok|]|];
    unfold attempt, bind; cbn; rewrite cleanup_step; cbn;
    match goal with
    | |- context [released ?h ?b] => exists h, b
    end;
    [exists [SetStatus connecting; NewAudioContext 16000;
             NewAudioContext 24000; ConsoleError "Failed to connect";
             SetStatus error]
    |exists [SetStatus connecting; NewAudioContext 16000;
             ConsoleError "Failed to connect"; SetStatus error]];
    (split; [reflexivity|]); cbn;
    repeat (split; [first [reflexivity | lia]|]);
    intros (Hic & Hoc & Hst & Hctxs & Hstreams); unfold owned; cbn;
    rewrite Hctxs, Hstreams, ?Hic, ?Hoc, ?Hst; split; reflexivity.
Qed.

(** The second half when the microphone is granted and the client is
    built. *)
Lemma connectAfterAwait_joined (env : Env) (s : Sys) :
  microphoneGranted env && clientConstructed env = true ->
  connectAfterAwait env s
  = {| completion := Normal tt; after := joined s;
       emitted := [NewGoogleGenAI (text_of (API_KEY env));
                   LiveConnect MODEL_NAME] |}.
Proof.
  intros Hok.
  destruct env as [key uuid inputOk outputOk data micOk clientOk].
  cbn in Hok. destruct micOk, clientOk; try discriminate Hok.
  reflexivity.
Qed.

(** The second half when the microphone is denied or the client cannot be
    built. *)
Lemma connectAfterAwait_failed (env : Env) (s : Sys) :
  microphoneGranted env && clientConstructed env = false ->
  exists (h' : Hook) (b' : Browser) (before : list Event),
    connectAfterAwait env s
    = {| completion := Normal tt;
         after := {| hook := torn h'; browser := released h' b' |};
         emitted := before ++ teardown h' |}
    /\ statuses before = [error]
    /\ writes before = []
    /\ stops before = []
    /\ currentInputRef h' = currentInputRef (hook s)
    /\ currentOutputRef h' = currentOutputRef (hook s)
    /\ sessionIdRef h' = sessionIdRef (hook s)
    /\ nextStartTimeRef h' = nextStartTimeRef (hook s)
    /\ activeSourcesRef h' = activeSourcesRef (hook s)
    /\ openChannels b' = openChannels (browser s)
    /\ (fresh (browser s) <= fresh b')%nat
    /\ (owned s -> streamRef (hook s) = None ->
        owned {| hook := h'; browser := b' |}).
Proof.
  intros Hok.
  destruct env as [key uuid inputOk outputOk data micOk clientOk].
  cbn in Hok. unfold connectAfterAwait, connectFailed.
  cbn [API_KEY randomUUID inputContextAvailable outputContextAvailable
       frequencyData microphoneGranted clientConstructed].
  destruct micOk; [destruct clientOk; [discriminate Hok|]|];
    unfold try_catch, bind; cbn; rewrite cleanup_step; cbn;
    match goal with
    | |- context [released ?h ?b] => exists h, b
    end;
    [exists [NewGoogleGenAI (text_of key); ConsoleError "Failed to connect";
             SetStatus error]
    |exists [ConsoleError "Failed to connect"; SetStatus error]];
    (split; [reflexivity|]); cbn;
    repeat (split; [first [reflexivity | lia]|]);
    intros [Hctxs Hstreams] Hst; unfold owned; cbn;
    rewrite Hst in Hstreams; cbn in Hstreams;
    rewrite Hctxs, Hstreams, ?Hst; split; reflexivity.
Qed.

(** ** What one message does, case by case *)

(** The transcription and turn-completion steps always run; then the
    handler flushes on interruption, or else skips the audio, enqueues a
    segment, or rejects because the payload does not decode. *)
Lemma onmessage_outcome dec now (message : LiveServerMessage) (s : Sys) :
  let h := hook s in
  let sid := sessionIdRef h in
  let h0 :=
    with_currentOutputRef (outboundWith message h)
      (with_currentInputRef (inboundWith message h) h) in
  exists (h1 : Hook) (e1 : list Event) (c : Completion unit) (h2 : Hook)
         (b2 : Browser) (e2 : list Event),
    onmessage dec now message s
    = {| completion := c; after := {| hook := h2; browser := b2 |};
         emitted := e1 ++ e2 |}
    /\ ((isTurnComplete message = true
         /\ h1 = with_isSpeaking false
                   (with_currentOutputRef "" (with_currentInputRef "" h0))
         /\ e1 = flush user (inboundWith message h) sid
                 ++ flush model (outboundWith message h) sid
                 ++ [SetIsSpeaking false])
        \/ (isTurnComplete message = false /\ h1 = h0 /\ e1 = []))
    /\ ((isInterrupted message = true
         /\ c = Normal tt
         /\ h2 = with_isSpeaking false
                   (with_nextStartTimeRef 0
                      (with_activeSourcesRef []
                         (with_currentOutputRef "" h1)))
         /\ b2 = browser s
         /\ e2 = ConsoleLog "User interrupted. Clearing audio queue."
                 :: flushInterrupted (currentOutputRef h1) sid
                 ++ map SourceStop (activeSourcesRef h)
                 ++ [SetIsSpeaking false])
        \/ (isInterrupted message = false
            /\ c = Normal tt /\ h2 = h1 /\ b2 = browser s /\ e2 = [])
        \/ (isInterrupted message = false
            /\ exists (decoded : AudioBuffer) (gain : AudioNode),
                 let source :=
                   {| source_id := fresh (browser s); buffer := decoded |} in
                 let start := Qmax (nextStartTimeRef h) now in
                 c = Normal tt
                 /\ h2 = with_activeSourcesRef (activeSourcesRef h ++ [source])
                           (with_nextStartTimeRef (start + duration decoded)%Q
                              (with_nextStartTimeRef start
                                 (with_isSpeaking true h1)))
                 /\ b2 = {| fresh := S (fresh (browser s));
                            openContexts := openContexts (browser s);
                            liveStreams := liveStreams (browser s);
                            openChannels := openChannels (browser s) |}
                 /\ e2 = [SetIsSpeaking true; CreateBufferSource source;
                          NodeConnect (source_id source) (node_id gain);
                          SourceStart source start])
        \/ (isInterrupted message = false
            /\ c = Throw
            /\ h2 = with_nextStartTimeRef (Qmax (nextStartTimeRef h) now)
                      (with_isSpeaking true h1)
            /\ b2 = browser s
            /\ e2 = [SetIsSpeaking true])).
Proof.
  intros h sid h0. subst h sid h0.
  unfold onmessage, bind. rewrite handleTranscription_step. simpl.
  set (h0 := with_currentOutputRef (outboundWith message (hook s))
               (with_currentInputRef (inboundWith message (hook s)) (hook s))).
  assert (Hturn :
    exists (h1 : Hook) (e1 : list Event),
      handleTurnCompletion message {| hook := h0; browser := browser s |}
      = {| completion := Normal tt;
           after := {| hook := h1; browser := browser s |}; emitted := e1 |}
      /\ ((isTurnComplete message = true
           /\ h1 = with_isSpeaking false
                     (with_currentOutputRef "" (with_currentInputRef "" h0))
           /\ e1 = flush user (inboundWith message (hook s))
                     (sessionIdRef (hook s))
                   ++ flush model (outboundWith message (hook s))
                        (sessionIdRef (hook s))
                   ++ [SetIsSpeaking false])
          \/ (isTurnComplete message = false /\ h1 = h0 /\ e1 = []))).
  { destruct (isTurnComplete message) eqn:Htc.
    - rewrite handleTurnCompletion_step by assumption.
      eexists; eexists. split; [reflexivity|]. left.
      split; [reflexivity|]. split; reflexivity.
    - rewrite handleTurnCompletion_skip by assumption.
      eexists; eexists. split; [reflexivity|]. right.
      split; [reflexivity|]. split; reflexivity. }
  destruct Hturn as (h1 & e1 & -> & Hturn).
  assert (Hfields :
    currentOutputRef h1 = currentOutputRef h1
    /\ activeSourcesRef h1 = activeSourcesRef (hook s)
    /\ nextStartTimeRef h1 = nextStartTimeRef (hook s)).
  { destruct Hturn as [(_ & -> & _) | (_ & -> & _)]; repeat split. }
  destruct Hfields as (_ & Hactive & Hcursor).
  exists h1, e1.
  destruct (isInterrupted message) eqn:Hint.
  - rewrite handleInterruption_step. simpl. rewrite Hactive.
    assert (Hsid : sessionIdRef h1 = sessionIdRef (hook s))
      by (destruct Hturn as [(_ & -> & _) | (_ & -> & _)]; reflexivity).
    rewrite Hsid.
    eexists; eexists; eexists; eexists. split; [reflexivity|].
    split; [exact Hturn|]. left. repeat split; reflexivity.
  - destruct (audioStepRuns message h1) eqn:Hruns.
    + pose proof Hruns as Hruns'.
      unfold audioStepRuns, carriesAudio in Hruns'.
      destruct (base64Audio message) as [data|] eqn:Hdata; [|discriminate].
      destruct (outputContextRef h1) as [ctx|] eqn:Hctx;
        [|now rewrite andb_false_r in Hruns'].
      destruct (outputGainNodeRef h1) as [gain|] eqn:Hgain;
        [|now rewrite andb_false_r in Hruns'].
      simpl in Hruns'. rewrite !andb_true_r in Hruns'.
      destruct (dec data) as [decoded|] eqn:Hdec.
      * rewrite (handleAudioData_enqueue dec now message
                   {| hook := h1; browser := browser s |} data ctx gain decoded)
          by assumption.
        simpl. rewrite Hactive, Hcursor.
        eexists; eexists; eexists; eexists. split; [reflexivity|].
        split; [exact Hturn|]. right. right. left.
        split; [reflexivity|]. exists decoded, gain.
        repeat split; reflexivity.
      * rewrite (handleAudioData_reject dec now message
                   {| hook := h1; browser := browser s |} data)
          by assumption.
        simpl. rewrite Hcursor.
        eexists; eexists; eexists; eexists. split; [reflexivity|].
        split; [exact Hturn|]. right. right. right.
        repeat split; reflexivity.
    + rewrite handleAudioData_skip by assumption. simpl.
      eexists; eexists; eexists; eexists. split; [reflexivity|].
      split; [exact Hturn|]. right. left. repeat split; reflexivity.
Qed.

(** ** Histories *)

(** What every callback keeps, every history keeps. *)
Lemma fireAll_keeps dec (allowed : Callback -> Prop) (kept : Sys -> Prop) :
  (forall (c : Callback) (s : Sys),
      allowed c -> kept s -> kept (after (fire dec c s))) ->
  forall (history : list Callback) (s : Sys),
    Forall allowed history -> kept s ->
    kept (after (fireAll dec history s)).
Proof.
  intros Hstep. induction history as [|c rest IH]; intros s Hall Hs;
    [exact Hs|].
  inversion Hall as [|c' rest' Hc Hrest]; subst.
  simpl. pose proof (Hstep c s Hc Hs) as H1.
  destruct (fire dec c s) as [c1 s1 e1]. simpl in H1.
  specialize (IH s1 Hrest H1).
  destruct (fireAll dec rest s1) as [c2 s2 e2]. exact IH.
Qed.

Lemma fireAll_cons dec (c : Callback) (rest : list Callback) (s : Sys) :
  after (fireAll dec (c :: rest) s)
  = after (fireAll dec rest (after (fire dec c s)))
  /\ emitted (fireAll dec (c :: rest) s)
     = emitted (fire dec c s)
       ++ emitted (fireAll dec rest (after (fire dec c s))).
Proof.
  simpl. destruct (fire dec c s) as [c1 s1 e1]. simpl.
  destruct (fireAll dec rest s1) as [c2 s2 e2]. split; reflexivity.
Qed.

(** ** The volume sample *)

Lemma fold_add_nonneg (l : list Z) :
  forall acc : Z, bytes l -> (0 <= acc)%Z -> (0 <= fold_left Z.add l acc)%Z.
Proof.
  induction l as [|x l IH]; intros acc Hl Hacc; [exact Hacc|].
  inversion Hl as [|x' l' Hx Hrest]; subst. simpl. apply IH; [exact Hrest|lia].
Qed.

Lemma bytes_firstn (n : nat) (l : list Z) : bytes l -> bytes (firstn n l).
Proof.
  revert l. induction n as [|n IH]; intros l Hl; [constructor|].
  destruct l as [|x l]; [constructor|].
  inversion Hl as [|x' l' Hx Hrest]; subst. simpl.
  constructor; [exact Hx | now apply IH].
Qed.

Lemma normalizedVolume_range (dataArray : list Z) :
  bytes dataArray -> 0 <= normalizedVolume dataArray <= 1.
Proof.
  intros Hbytes. unfold normalizedVolume. split; [|apply Q.le_min_l].
  apply Q.min_glb; [lra|].
  assert (Hsum : (0 <= fold_left Z.add (firstn bufferLength dataArray) 0)%Z).
  { apply fold_add_nonneg; [|lia]. now apply bytes_firstn. }
  unfold Qdiv. apply Qmult_le_0_compat; [apply Qmult_le_0_compat|].
  - change 0 with (inject_Z 0). now rewrite <- Zle_Qle.
  - apply Qinv_le_0_compat. change 0 with (inject_Z 0).
    rewrite <- Zle_Qle. apply Nat2Z.is_nonneg.
  - apply Qinv_le_0_compat. lra.
Qed.

(** ** The text of a trace *)

Lemma string_app_assoc (a b c : string) :
  ((a ++ b) ++ c)%string = (a ++ b ++ c)%string.
Proof. induction a as [|x a IH]; simpl; [reflexivity | now rewrite IH]. Qed.

Lemma textUnder_app (role : Role) (t1 t2 : list Event) :
  textUnder role (t1 ++ t2)
  = (textUnder role t1 ++ textUnder role t2)%string.
Proof.
  unfold textUnder. rewrite writes_app, fold_right_app.
  induction (writes t1) as [|[[r text] sid] l IH]; [reflexivity|].
  simpl. rewrite IH. destruct r, role; try reflexivity;
    now rewrite string_app_assoc.
Qed.

Lemma textUnder_none (role : Role) (trace : list Event) :
  writes trace = [] -> textUnder role trace = "".
Proof. unfold textUnder. now intros ->. Qed.

Lemma textUnder_flush (role by_ : Role) (text sessionId : string) :
  textUnder role (flush by_ text sessionId)
  = match role, by_ with
    | user, user | model, model => text
    | _, _ => ""
    end.
Proof.
  unfold textUnder. rewrite writes_flush. unfold written.
  destruct (truthy text) eqn:Htext; simpl.
  - destruct role, by_; try reflexivity; apply append_empty_r.
  - rewrite (truthy_false_empty _ Htext). destruct role, by_; reflexivity.
Qed.

Lemma textUnder_teardown (role : Role) (h : Hook) :
  textUnder role (teardown h)
  = match role with
    | user => currentInputRef h
    | model => currentOutputRef h
    end.
Proof.
  unfold textUnder. rewrite writes_teardown. unfold written.
  destruct (truthy (currentInputRef h)) eqn:Hin;
    destruct (truthy (currentOutputRef h)) eqn:Hout; simpl;
    try rewrite (truthy_false_empty _ Hin);
    try rewrite (truthy_false_empty _ Hout);
    destruct role; try reflexivity; apply append_empty_r.
Qed.

(** ** The volume *)

Lemma fire_volume dec (c : Callback) (s : Sys) :
  sound c ->
  0 <= volume (hook s) <= 1 ->
  0 <= volume (hook (after (fire dec c s))) <= 1.
Proof.
  intros Hsound Hvol. destruct c as [env | env | | n]; unfold fire.
  - unfold bind. destruct (truthy_opt (API_KEY env)) eqn:Hkey.
    + destruct (inputContextAvailable env && outputContextAvailable env)
        eqn:Hok.
      * destruct (connectUntilAwait_reached env s Hkey Hok)
          as (trace & -> & _).
        cbn. apply normalizedVolume_range. exact Hsound.
      * destruct (connectUntilAwait_failed env s Hkey Hok)
          as (h' & b' & before & -> & _).
        cbn. lra.
    + rewrite connectUntilAwait_unconfigured by assumption. cbn. exact Hvol.
  - destruct (microphoneGranted env && clientConstructed env) eqn:Hok.
    + rewrite connectAfterAwait_joined by assumption. cbn. exact Hvol.
    + destruct (connectAfterAwait_failed env s Hok)
        as (h' & b' & before & -> & _).
      cbn. lra.
  - unfold disconnect. rewrite cleanup_step. cbn. lra.
  - destruct n as [| a | source | | | data]; unfold notify.
    + unfold onopen, bind. cbn.
      destruct (inputContextRef (hook s)), (streamRef (hook s)); cbn;
        exact Hvol.
    + destruct (onmessage_outcome dec (clock a) (message a) s)
        as (h1 & e1 & c & h2 & b2 & e2 & -> & Hturn & Hrest).
      cbn.
      destruct Hturn as [(_ & -> & _) | (_ & -> & _)];
        destruct Hrest
          as [(_ & _ & -> & _)
             | [(_ & _ & -> & _)
               | [(_ & decoded & gain & _ & -> & _) | (_ & _ & -> & _)]]];
        cbn; exact Hvol.
    + unfold onended, bind. cbn.
      destruct (filter _ (activeSourcesRef (hook s))); cbn; exact Hvol.
    + cbn. exact Hvol.
    + cbn. exact Hvol.
    + unfold updateVolume, bind. cbn.
      destruct (analyzerRef (hook s)); cbn;
        [apply normalizedVolume_range; exact Hsound | exact Hvol].
Qed.

(** X1.  The volume the hook reports is a number between 0 and 1, as its
    interface says: whatever is called and whatever fires, in whatever
    order, a volume in that range stays in that range, provided the bytes
    the analyser writes are not negative. *)
Theorem volume_stays_between_0_and_1 :
  forall dec (history : list Callback) (s : Sys),
    Forall sound history ->
    0 <= volume (hook s) <= 1 ->
    0 <= volume (hook (after (fireAll dec history s))) <= 1.
Proof.
  intros dec history s Hsound Hvol.
  exact (fireAll_keeps dec sound (fun s => 0 <= volume (hook s) <= 1)
           (fire_volume dec) history s Hsound Hvol).
Qed.

Lemma bytes_repeat (b : Z) (n : nat) : (0 <= b)%Z -> bytes (repeat b n).
Proof.
  intros Hb. induction n as [|n IH]; simpl; [constructor|].
  constructor; assumption.
Qed.

Lemma volume_stays_between_0_and_1_witness :
  0 <= volume (hook (after (fireAll halfSecond
                              [CallConnect granted; ResumeConnect granted;
                               Notify OnOpen; Notify (OnFrame [10; 20]%Z)]
                              pageLoad))) <= 1.
Proof.
  apply (volume_stays_between_0_and_1 halfSecond
           [CallConnect granted; ResumeConnect granted; Notify OnOpen;
            Notify (OnFrame [10; 20]%Z)] pageLoad).
  - repeat constructor; try (apply (bytes_repeat 0 128); lia); lia.
  - vm_compute. split; discriminate.
Defined.

(** ** What the hook writes *)

Lemma Forall_written (kept : Role * string * string -> Prop) (role : Role)
    (text sessionId : string) :
  (truthy text = true -> kept (role, text, sessionId)) ->
  Forall kept (written role text sessionId).
Proof.
  intros Hkept. unfold written. destruct (truthy text); constructor;
    [now apply Hkept | constructor].
Qed.

Lemma writes_interruption (text sessionId : string)
    (stopped : list AudioBufferSourceNode) :
  writes (ConsoleLog "User interrupted. Clearing audio queue."
          :: flushInterrupted text sessionId
          ++ map SourceStop stopped ++ [SetIsSpeaking false])
  = if truthy text then [(model, (text ++ INTERRUPTED)%string, sessionId)]
    else [].
Proof.
  change (writes ([ConsoleLog "User interrupted. Clearing audio queue."]
                  ++ flushInterrupted text sessionId
                  ++ map SourceStop stopped ++ [SetIsSpeaking false])
          = if truthy text
            then [(model, (text ++ INTERRUPTED)%string, sessionId)] else []).
  rewrite !writes_app, writes_flushInterrupted, writes_map_SourceStop.
  simpl. now rewrite app_nil_r.
Qed.

Lemma fire_writes dec (c : Callback) (s : Sys) :
  let r := fire dec c s in
  Forall (fun w =>
            truthy (snd (fst w)) = true
            /\ snd w = sessionIdRef (hook (after r)))
         (writes (emitted r)).
Proof.
  intros r. subst r. destruct c as [env | env | | n]; unfold fire.
  - unfold bind. destruct (truthy_opt (API_KEY env)) eqn:Hkey.
    + destruct (inputContextAvailable env && outputContextAvailable env)
        eqn:Hok.
      * destruct (connectUntilAwait_reached env s Hkey Hok)
          as (trace & -> & _ & Hwrites & _).
        cbn [after emitted hook ret]. rewrite app_nil_r, Hwrites.
        constructor.
      * destruct (connectUntilAwait_failed env s Hkey Hok)
          as (h' & b' & before & -> & _ & Hwrites & _).
        cbn [after emitted hook ret].
        rewrite app_nil_r, writes_app, Hwrites, writes_teardown. cbn [app].
        apply Forall_app. split; apply Forall_written; auto.
    + rewrite connectUntilAwait_unconfigured by assumption. cbn.
      constructor.
  - destruct (microphoneGranted env && clientConstructed env) eqn:Hok.
    + rewrite connectAfterAwait_joined by assumption. cbn. constructor.
    + destruct (connectAfterAwait_failed env s Hok)
        as (h' & b' & before & -> & _ & Hwrites & _).
      cbn [after emitted hook]. rewrite writes_app, Hwrites, writes_teardown.
      cbn [app].
      apply Forall_app. split; apply Forall_written; auto.
  - unfold disconnect. rewrite cleanup_step. cbn [after emitted hook].
    rewrite writes_teardown.
    apply Forall_app. split; apply Forall_written; auto.
  - destruct n as [| a | source | | | data]; unfold notify.
    + unfold onopen, bind. cbn.
      destruct (inputContextRef (hook s)), (streamRef (hook s)); cbn;
        constructor.
    + destruct (onmessage_outcome dec (clock a) (message a) s)
        as (h1 & e1 & c & h2 & b2 & e2 & -> & Hturn & Hrest).
      cbn [after emitted hook]. rewrite writes_app. apply Forall_app.
      assert (Hsid : sessionIdRef h2 = sessionIdRef (hook s)).
      { destruct Hturn as [(_ & -> & _) | (_ & -> & _)];
          destruct Hrest
            as [(_ & _ & -> & _)
               | [(_ & _ & -> & _)
                 | [(_ & decoded & gain & _ & -> & _) | (_ & _ & -> & _)]]];
          reflexivity. }
      rewrite Hsid. split.
      * destruct Hturn as [(_ & _ & ->) | (_ & _ & ->)]; [|constructor].
        rewrite !writes_app, !writes_flush. simpl. rewrite app_nil_r.
        apply Forall_app. split; apply Forall_written; auto.
      * destruct Hrest
          as [(_ & _ & _ & _ & ->)
             | [(_ & _ & _ & _ & ->)
               | [(_ & decoded & gain & _ & _ & _ & ->) | (_ & _ & _ & _ & ->)]]];
          try (cbn; constructor).
        rewrite writes_interruption.
        destruct (truthy (currentOutputRef h1)) eqn:Hout; constructor;
          [|constructor].
        split; [|reflexivity]. simpl. rewrite truthy_app, Hout. reflexivity.
    + unfold onended, bind. cbn.
      destruct (filter _ (activeSourcesRef (hook s))); cbn; constructor.
    + cbn. constructor.
    + cbn. constructor.
    + unfold updateVolume, bind. cbn.
      destruct (analyzerRef (hook s)); cbn; constructor.
Qed.

(** X2.  The hook never asks for empty text to be saved, and whatever a
    callback saves it saves under the session identifier the hook holds when
    the callback returns.  For [connect] that is the identifier it has just
    minted: text still buffered from before the call is saved, when
    [connect] fails, under the identifier of the session that did not start. *)
Theorem writes_are_not_empty_and_carry_the_session :
  forall dec (c : Callback) (s : Sys),
    let r := fire dec c s in
    Forall (fun w =>
              let '(role, text, sessionId) := w in
              truthy text = true
              /\ sessionId = sessionIdRef (hook (after r)))
           (writes (emitted r)).
Proof.
  intros dec c s r. pose proof (fire_writes dec c s) as H. cbv zeta in H.
  subst r. eapply Forall_impl; [|exact H].
  intros [[role text] sessionId] Hw. exact Hw.
Qed.

(** ** Transcripts *)

Lemma heard_app (l1 l2 : list Arrival) :
  heard (l1 ++ l2) = (heard l1 ++ heard l2)%string.
Proof.
  induction l1 as [|a l1 IH]; simpl; [reflexivity|].
  now rewrite IH, string_app_assoc.
Qed.

Lemma said_app (l1 l2 : list Arrival) :
  said (l1 ++ l2) = (said l1 ++ said l2)%string.
Proof.
  induction l1 as [|a l1 IH]; simpl; [reflexivity|].
  now rewrite IH, string_app_assoc.
Qed.

Lemma textUnder_interruption (role : Role) (text sessionId : string)
    (stopped : list AudioBufferSourceNode) :
  textUnder role
    (ConsoleLog "User interrupted. Clearing audio queue."
     :: flushInterrupted text sessionId
     ++ map SourceStop stopped ++ [SetIsSpeaking false])
  = match role with
    | user => ""
    | model => if truthy text then (text ++ INTERRUPTED)%string else ""
    end.
Proof.
  unfold textUnder. rewrite writes_interruption.
  destruct (truthy text), role; try reflexivity. simpl.
  apply append_empty_r.
Qed.

(** One callback: what it writes under a role, followed by what it leaves
    in the buffer of that role, is what the buffer held followed by the
    fragment the callback received.  For the model's buffer this is so unless
    the callback is an interruption. *)
Lemma fire_text dec (c : Callback) (s : Sys) :
  let r := fire dec c s in
  (textUnder user (emitted r) ++ currentInputRef (hook (after r)))%string
  = (currentInputRef (hook s) ++ heard (arrivalsOf [c]))%string
  /\ (Forall (fun a => isInterrupted (message a) = false) (arrivalsOf [c]) ->
      (textUnder model (emitted r) ++ currentOutputRef (hook (after r)))%string
      = (currentOutputRef (hook s) ++ said (arrivalsOf [c]))%string).
Proof.
  intros r. subst r. destruct c as [env | env | | n]; unfold fire.
  - unfold bind. destruct (truthy_opt (API_KEY env)) eqn:Hkey.
    + destruct (inputContextAvailable env && outputContextAvailable env)
        eqn:Hok.
      * destruct (connectUntilAwait_reached env s Hkey Hok)
          as (trace & -> & _ & Hwrites & _).
        cbn [after emitted hook ret arrivalsOf flat_map heard said app].
        rewrite app_nil_r, !(textUnder_none _ _ Hwrites), !append_empty_r.
        split; reflexivity.
      * destruct (connectUntilAwait_failed env s Hkey Hok)
          as (h' & b' & before & -> & _ & Hwrites & _ & Hin & Hout & _).
        cbn [after emitted hook ret arrivalsOf flat_map heard said app].
        rewrite app_nil_r, !textUnder_app, !(textUnder_none _ _ Hwrites),
          !textUnder_teardown, Hin, Hout.
        split; reflexivity.
    + rewrite connectUntilAwait_unconfigured by assumption. cbn.
      rewrite !append_empty_r. split; reflexivity.
  - destruct (microphoneGranted env && clientConstructed env) eqn:Hok.
    + rewrite connectAfterAwait_joined by assumption. cbn.
      rewrite !append_empty_r. split; reflexivity.
    + destruct (connectAfterAwait_failed env s Hok)
        as (h' & b' & before & -> & _ & Hwrites & _ & Hin & Hout & _).
      cbn [after emitted hook ret arrivalsOf flat_map heard said app].
      rewrite !textUnder_app, !(textUnder_none _ _ Hwrites),
        !textUnder_teardown, Hin, Hout.
      split; reflexivity.
  - unfold disconnect. rewrite cleanup_step.
    cbn [after emitted hook ret arrivalsOf flat_map heard said app].
    rewrite !textUnder_teardown. split; reflexivity.
  - destruct n as [| a | source | | | data]; unfold notify.
    + unfold onopen, bind. cbn.
      destruct (inputContextRef (hook s)), (streamRef (hook s)); cbn;
        rewrite !append_empty_r; split; reflexivity.
    + destruct (onmessage_outcome dec (clock a) (message a) s)
        as (h1 & e1 & c & h2 & b2 & e2 & -> & Hturn & Hrest).
      cbn [after emitted hook ret arrivalsOf flat_map heard said app].
      rewrite !textUnder_app, !append_empty_r.
      fold (inboundWith (message a) (hook s)).
      fold (outboundWith (message a) (hook s)).
      destruct Hturn as [(_ & -> & ->) | (_ & -> & ->)];
        destruct Hrest
          as [(Hint & _ & -> & _ & ->)
             | [(_ & _ & -> & _ & ->)
               | [(_ & decoded & gain & _ & -> & _ & ->)
                 | (_ & _ & -> & _ & ->)]]];
        rewrite ?textUnder_app, ?textUnder_flush, ?textUnder_interruption;
        cbn; rewrite ?append_empty_r;
        (split; [reflexivity|]); intros Hnone;
        try reflexivity;
        inversion Hnone as [|a' l' Hnot _]; subst;
        rewrite Hint in Hnot; discriminate Hnot.
    + unfold onended, bind. cbn.
      destruct (filter _ (activeSourcesRef (hook s))); cbn;
        rewrite !append_empty_r; split; reflexivity.
    + cbn. rewrite !append_empty_r. split; reflexivity.
    + cbn. rewrite !append_empty_r. split; reflexivity.
    + unfold updateVolume, bind. cbn.
      destruct (analyzerRef (hook s)); cbn;
        rewrite !append_empty_r; split; reflexivity.
Qed.

Lemma arrivalsOf_cons (c : Callback) (rest : list Callback) :
  arrivalsOf (c :: rest) = arrivalsOf [c] ++ arrivalsOf rest.
Proof. unfold arrivalsOf. simpl. now rewrite app_nil_r. Qed.

(** X3.  Nothing the user said is lost or written twice.  Over any history
    of calls and callbacks, the text written under the role [user], in the
    order of the writes, followed by what is still in the input buffer, is
    what the buffer held at the start followed by the input fragments of the
    messages, in the order of their arrival. *)
Theorem what_the_user_said_is_written_once :
  forall dec (history : list Callback) (s : Sys),
    let r := fireAll dec history s in
    (textUnder user (emitted r) ++ currentInputRef (hook (after r)))%string
    = (currentInputRef (hook s) ++ heard (arrivalsOf history))%string.
Proof.
  intros dec history. induction history as [|c rest IH]; intros s r; subst r.
  - simpl. now rewrite append_empty_r.
  - destruct (fireAll_cons dec c rest s) as [-> ->].
    destruct (fire_text dec c s) as [Hstep _]. cbv zeta in Hstep.
    specialize (IH (after (fire dec c s))). cbv zeta in IH.
    rewrite (arrivalsOf_cons c rest), heard_app.
    rewrite textUnder_app, string_app_assoc, IH, <- string_app_assoc, Hstep,
      string_app_assoc.
    reflexivity.
Qed.

(** X4.  The same for what the agent said, as long as no message of the
    history is an interruption: the text written under the role [model]
    followed by what is still in the output buffer is what the buffer held
    at the start followed by the output fragments of the messages. *)
Theorem what_the_agent_said_is_written_once :
  forall dec (history : list Callback) (s : Sys),
    Forall (fun a => isInterrupted (message a) = false)
           (arrivalsOf history) ->
    let r := fireAll dec history s in
    (textUnder model (emitted r) ++ currentOutputRef (hook (after r)))%string
    = (currentOutputRef (hook s) ++ said (arrivalsOf history))%string.
Proof.
  intros dec history. induction history as [|c rest IH]; intros s Hnone r;
    subst r.
  - simpl. now rewrite append_empty_r.
  - rewrite arrivalsOf_cons in Hnone. apply Forall_app in Hnone.
    destruct Hnone as [Hc Hrest].
    destruct (fireAll_cons dec c rest s) as [-> ->].
    destruct (fire_text dec c s) as [_ Hstep]. cbv zeta in Hstep.
    specialize (Hstep Hc).
    specialize (IH (after (fire dec c s)) Hrest). cbv zeta in IH.
    rewrite (arrivalsOf_cons c rest), said_app.
    rewrite textUnder_app, string_app_assoc, IH, <- string_app_assoc, Hstep,
      string_app_assoc.
    reflexivity.
Qed.

Lemma what_the_agent_said_is_written_once_witness :
  (textUnder model
     (emitted (fireAll halfSecond
                 [Notify (OnMessage {| clock := 2; message := audioChunk |});
                  Notify (OnMessage {| clock := 3; message := turnEnd |});
                  Notify (OnMessage {| clock := 4; message := audioChunk |});
                  CallDisconnect] opened))
   ++ currentOutputRef
        (hook (after (fireAll halfSecond
                 [Notify (OnMessage {| clock := 2; message := audioChunk |});
                  Notify (OnMessage {| clock := 3; message := turnEnd |});
                  Notify (OnMessage {| clock := 4; message := audioChunk |});
                  CallDisconnect] opened))))%string
  = (currentOutputRef (hook opened)
     ++ said (arrivalsOf
                [Notify (OnMessage {| clock := 2; message := audioChunk |});
                 Notify (OnMessage {| clock := 3; message := turnEnd |});
                 Notify (OnMessage {| clock := 4; message := audioChunk |});
                 CallDisconnect]))%string.
Proof.
  apply (what_the_agent_said_is_written_once halfSecond
           [Notify (OnMessage {| clock := 2; message := audioChunk |});
            Notify (OnMessage {| clock := 3; message := turnEnd |});
            Notify (OnMessage {| clock := 4; message := audioChunk |});
            CallDisconnect] opened).
  vm_compute. repeat constructor.
Defined.

(** ** The playback cursor *)

Lemma fire_cursor dec (c : Callback) (s : Sys) :
  arrivalsOf [c] = [] ->
  nextStartTimeRef (hook (after (fire dec c s))) = nextStartTimeRef (hook s).
Proof.
  intros Hquiet. destruct c as [env | env | | n]; unfold fire.
  - unfold bind. destruct (truthy_opt (API_KEY env)) eqn:Hkey.
    + destruct (inputContextAvailable env && outputContextAvailable env)
        eqn:Hok.
      * destruct (connectUntilAwait_reached env s Hkey Hok)
          as (trace & -> & _).
        reflexivity.
      * destruct (connectUntilAwait_failed env s Hkey Hok)
          as (h' & b' & before & -> & _ & _ & _ & _ & _ & _ & Hcursor & _).
        cbn. exact Hcursor.
    + rewrite connectUntilAwait_unconfigured by assumption. reflexivity.
  - destruct (microphoneGranted env && clientConstructed env) eqn:Hok.
    + rewrite connectAfterAwait_joined by assumption. reflexivity.
    + destruct (connectAfterAwait_failed env s Hok)
        as (h' & b' & before & -> & _ & _ & _ & _ & _ & _ & Hcursor & _).
      cbn. exact Hcursor.
  - unfold disconnect. rewrite cleanup_step. reflexivity.
  - destruct n as [| a | source | | | data]; unfold notify.
    + unfold onopen, bind. cbn.
      destruct (inputContextRef (hook s)), (streamRef (hook s)); reflexivity.
    + discriminate Hquiet.
    + unfold onended, bind. cbn.
      destruct (filter _ (activeSourcesRef (hook s))); reflexivity.
    + reflexivity.
    + reflexivity.
    + unfold updateVolume, bind. cbn.
      destruct (analyzerRef (hook s)); reflexivity.
Qed.

(** X6.  Only a message moves the playback cursor.  [disconnect] does not
    reset it and [connect] does not either: over a history without messages,
    whatever else is called or fires, the cursor is where it was, so the
    first segment of a new session is scheduled no earlier than the point
    the previous session had reached. *)
Theorem only_a_message_moves_the_playback_cursor :
  forall dec (history : list Callback) (s : Sys),
    arrivalsOf history = [] ->
    nextStartTimeRef (hook (after (fireAll dec history s)))
    = nextStartTimeRef (hook s).
Proof.
  intros dec history. induction history as [|c rest IH]; intros s Hquiet;
    [reflexivity|].
  rewrite arrivalsOf_cons in Hquiet. apply app_eq_nil in Hquiet.
  destruct Hquiet as [Hc Hrest].
  destruct (fireAll_cons dec c rest s) as [-> _].
  rewrite (IH _ Hrest). now apply fire_cursor.
Qed.

Lemma only_a_message_moves_the_playback_cursor_witness :
  nextStartTimeRef
    (hook (after (fireAll halfSecond
                    [CallDisconnect; CallConnect granted;
                     ResumeConnect granted; Notify OnOpen] answering)))
  = nextStartTimeRef (hook answering).
Proof.
  apply (only_a_message_moves_the_playback_cursor halfSecond
           [CallDisconnect; CallConnect granted; ResumeConnect granted;
            Notify OnOpen] answering).
  reflexivity.
Defined.

(** ** The scheduled segments *)

Lemma sourcesKnown_kept (s s' : Sys) :
  activeSourcesRef (hook s') = activeSourcesRef (hook s) ->
  (fresh (browser s) <= fresh (browser s'))%nat ->
  sourcesKnown s -> sourcesKnown s'.
Proof.
  unfold sourcesKnown. intros -> Hle [Hknown Hdistinct].
  split; [|exact Hdistinct].
  eapply Forall_impl; [|exact Hknown]. simpl. intros source Hlt. lia.
Qed.

Lemma sourcesKnown_empty (s : Sys) :
  activeSourcesRef (hook s) = [] -> sourcesKnown s.
Proof. unfold sourcesKnown. intros ->. split; constructor. Qed.

Lemma known_filter (keep : AudioBufferSourceNode -> bool)
    (l : list AudioBufferSourceNode) (n : nat) :
  Forall (fun source => (source_id source < n)%nat) l
  /\ NoDup (map source_id l) ->
  Forall (fun source => (source_id source < n)%nat) (filter keep l)
  /\ NoDup (map source_id (filter keep l)).
Proof.
  induction l as [|x l IH]; intros [Hknown Hdistinct]; [split; constructor|].
  inversion Hknown as [|x' l' Hx Hrest]; subst.
  simpl in Hdistinct. inversion Hdistinct as [|y ys Hnot Hdistinct']; subst.
  destruct (IH (conj Hrest Hdistinct')) as [IH1 IH2].
  simpl. destruct (keep x); [|split; assumption].
  split; [constructor; assumption|].
  simpl. constructor; [|exact IH2].
  intros Hin. apply Hnot. apply in_map_iff in Hin.
  destruct Hin as (y & Hy & Hin). apply filter_In in Hin.
  apply in_map_iff. exists y. split; [exact Hy | apply Hin].
Qed.

Lemma filter_known (l : list AudioBufferSourceNode) (n : nat) :
  Forall (fun source => (source_id source < n)%nat) l ->
  filter (fun source => negb (source_id source =? n)%nat) l = l.
Proof.
  induction l as [|x l IH]; intros Hknown; [reflexivity|].
  inversion Hknown as [|x' l' Hx Hrest]; subst. simpl.
  destruct (Nat.eqb_spec (source_id x) n) as [Heq | _]; [lia|].
  simpl. now rewrite IH.
Qed.

Lemma fire_sources dec (c : Callback) (s : Sys) :
  sourcesKnown s -> sourcesKnown (after (fire dec c s)).
Proof.
  intros Hknown. destruct c as [env | env | | n]; unfold fire.
  - unfold bind. destruct (truthy_opt (API_KEY env)) eqn:Hkey.
    + destruct (inputContextAvailable env && outputContextAvailable env)
        eqn:Hok.
      * destruct (connectUntilAwait_reached env s Hkey Hok)
          as (trace & -> & _).
        apply (sourcesKnown_kept s); [reflexivity | cbn; lia | exact Hknown].
      * destruct (connectUntilAwait_failed env s Hkey Hok)
          as (h' & b' & before & -> & _).
        apply sourcesKnown_empty. reflexivity.
    + rewrite connectUntilAwait_unconfigured by assumption.
      apply (sourcesKnown_kept s); [reflexivity | cbn; lia | exact Hknown].
  - destruct (microphoneGranted env && clientConstructed env) eqn:Hok.
    + rewrite connectAfterAwait_joined by assumption.
      apply (sourcesKnown_kept s); [reflexivity | cbn; lia | exact Hknown].
    + destruct (connectAfterAwait_failed env s Hok)
        as (h' & b' & before & -> & _).
      apply sourcesKnown_empty. reflexivity.
  - unfold disconnect. rewrite cleanup_step.
    apply sourcesKnown_empty. reflexivity.
  - destruct n as [| a | source | | | data]; unfold notify.
    + unfold onopen, bind. cbn.
      destruct (inputContextRef (hook s)), (streamRef (hook s));
        (apply (sourcesKnown_kept s);
         [reflexivity | cbn; lia | exact Hknown]).
    + destruct (onmessage_outcome dec (clock a) (message a) s)
        as (h1 & e1 & c & h2 & b2 & e2 & -> & Hturn & Hrest).
      cbn [after].
      destruct Hrest
        as [(_ & _ & -> & -> & _)
           | [(_ & _ & -> & -> & _)
             | [(_ & decoded & gain & _ & -> & -> & _)
               | (_ & _ & -> & -> & _)]]].
      * apply sourcesKnown_empty. reflexivity.
      * apply (sourcesKnown_kept s); [|cbn; lia | exact Hknown].
        destruct Hturn as [(_ & -> & _) | (_ & -> & _)]; reflexivity.
      * destruct Hknown as [Hknown Hdistinct]. unfold sourcesKnown. cbn.
        split.
        -- apply Forall_app. split.
           ++ eapply Forall_impl; [|exact Hknown]. simpl. intros x Hx. lia.
           ++ constructor; [simpl; lia | constructor].
        -- rewrite map_app. simpl.
           apply NoDup_app; [exact Hdistinct | repeat constructor; intros [] |].
           intros x Hin [<- | []].
           apply in_map_iff in Hin. destruct Hin as (y & Hy & Hin).
           rewrite Forall_forall in Hknown. specialize (Hknown y Hin). lia.
      * apply (sourcesKnown_kept s); [|cbn; lia | exact Hknown].
        destruct Hturn as [(_ & -> & _) | (_ & -> & _)]; reflexivity.
    + unfold onended, bind. cbn.
      pose proof (known_filter
                    (fun x => negb (source_id x =? source_id source)%nat)
                    (activeSourcesRef (hook s)) (fresh (browser s)) Hknown)
        as Hkept.
      destruct (filter _ (activeSourcesRef (hook s))) eqn:Hfilter; cbn;
        unfold sourcesKnown; cbn; rewrite ?Hfilter; exact Hkept.
    + apply (sourcesKnown_kept s); [reflexivity | cbn; lia | exact Hknown].
    + apply (sourcesKnown_kept s); [reflexivity | cbn; lia | exact Hknown].
    + unfold updateVolume, bind. cbn.
      destruct (analyzerRef (hook s));
        (apply (sourcesKnown_kept s);
         [reflexivity | cbn; lia | exact Hknown]).
Qed.

Lemma starts_interruption (text sessionId : string)
    (stopped : list AudioBufferSourceNode) :
  starts (ConsoleLog "User interrupted. Clearing audio queue."
          :: flushInterrupted text sessionId
          ++ map SourceStop stopped ++ [SetIsSpeaking false])
  = [].
Proof.
  change (starts ([ConsoleLog "User interrupted. Clearing audio queue."]
                  ++ flushInterrupted text sessionId
                  ++ map SourceStop stopped ++ [SetIsSpeaking false]) = []).
  now rewrite !starts_app, starts_flushInterrupted, starts_map_SourceStop.
Qed.

(** X7.  A segment that is scheduled and then ends leaves the set of
    scheduled segments as it was before.  In any state the hook can reach
    from the first render, a message that schedules a segment adds it at the
    end of the set and turns the speaking indicator on; when that segment
    ends, the set is what it was before the message, the one segment is the
    only one removed, and the speaking indicator goes off exactly when the
    set is empty. *)
Theorem ended_segment_leaves_the_set_as_it_was :
  forall dec (history : list Callback) (a : Arrival)
         (source : AudioBufferSourceNode) (start : Q),
    let s := after (fireAll dec history pageLoad) in
    let r := onmessage dec (clock a) (message a) s in
    starts (emitted r) = [(source, start)] ->
    activeSourcesRef (hook (after r)) = activeSourcesRef (hook s) ++ [source]
    /\ isSpeaking (hook (after r)) = true
    /\ activeSourcesRef (hook (after (onended source (after r))))
       = activeSourcesRef (hook s)
    /\ isSpeaking (hook (after (onended source (after r))))
       = match activeSourcesRef (hook s) with
         | [] => false
         | _ :: _ => true
         end.
Proof.
  intros dec history a source start s r Hstarts.
  assert (Hknown : sourcesKnown s).
  { subst s.
    apply (fireAll_keeps dec (fun _ => True) sourcesKnown).
    - intros c s0 _. apply fire_sources.
    - apply Forall_forall. intros c _. exact I.
    - apply sourcesKnown_empty. reflexivity. }
  subst r.
  destruct (onmessage_outcome dec (clock a) (message a) s)
    as (h1 & e1 & c & h2 & b2 & e2 & Hr & Hturn & Hrest).
  rewrite Hr in Hstarts |- *. cbn [after emitted hook] in Hstarts |- *.
  rewrite starts_app in Hstarts.
  assert (He1 : starts e1 = []).
  { destruct Hturn as [(_ & _ & ->) | (_ & _ & ->)]; [|reflexivity].
    now rewrite !starts_app, !starts_flush. }
  rewrite He1 in Hstarts. cbn [app] in Hstarts.
  destruct Hrest
    as [(_ & _ & _ & _ & ->)
       | [(_ & _ & _ & _ & ->)
         | [(_ & decoded & gain & _ & -> & -> & ->)
           | (_ & _ & _ & _ & ->)]]];
    try (rewrite ?starts_interruption in Hstarts; discriminate Hstarts).
  cbn in Hstarts. injection Hstarts as <- <-.
  destruct Hknown as [Hknown _].
  unfold onended, bind. cbn.
  rewrite filter_app, (filter_known _ _ Hknown). cbn.
  rewrite Nat.eqb_refl. cbn. rewrite app_nil_r.
  destruct (activeSourcesRef (hook s)) eqn:Hactive; cbn;
    repeat split; reflexivity.
Qed.

Lemma ended_segment_leaves_the_set_as_it_was_witness :
  let s :=
    after (fireAll halfSecond
             [CallConnect granted; ResumeConnect granted; Notify OnOpen;
              Notify (OnMessage {| clock := 1; message := audioChunk |})]
             pageLoad) in
  let r := onmessage halfSecond 2 audioChunk s in
  let source := {| source_id := 10; buffer := {| duration := 1 # 2 |} |} in
  activeSourcesRef (hook (after r)) = activeSourcesRef (hook s) ++ [source]
  /\ isSpeaking (hook (after r)) = true
  /\ activeSourcesRef (hook (after (onended source (after r))))
     = activeSourcesRef (hook s)
  /\ isSpeaking (hook (after (onended source (after r))))
     = match activeSourcesRef (hook s) with
       | [] => false
       | _ :: _ => true
       end.
Proof.
  intros s r source.
  apply (ended_segment_leaves_the_set_as_it_was halfSecond
           [CallConnect granted; ResumeConnect granted; Notify OnOpen;
            Notify (OnMessage {| clock := 1; message := audioChunk |})]
           {| clock := 2; message := audioChunk |} source 2).
  vm_compute. reflexivity.
Defined.

(** ** Late and failed openings *)

(** X13.  A channel that opens after [disconnect] turns the status back to
    [connected].  The handler sets the status before it looks for the input
    context and the stream; [disconnect] has dropped both, so no capture
    node is created and nothing else changes: the hook reports a connected
    session while it holds no microphone stream and no audio context. *)
Theorem open_after_disconnect_reports_connected :
  forall s : Sys,
    let quiet := after (disconnect s) in
    let r := onopen quiet in
    completion r = Normal tt
    /\ emitted r = [SetStatus connected]
    /\ status (hook (after r)) = connected
    /\ hook (after r) = with_status connected (hook quiet)
    /\ browser (after r) = browser quiet
    /\ streamRef (hook (after r)) = None
    /\ inputContextRef (hook (after r)) = None
    /\ outputContextRef (hook (after r)) = None.
Proof.
  intros s quiet r. subst quiet r. unfold disconnect.
  rewrite cleanup_step. cbn [after]. unfold onopen, bind. cbn.
  repeat split; reflexivity.
Qed.

(** X12.  When an acquisition step of [connect] fails, everything acquired
    before it is released.  From a state that holds no session resource, a
    call of [connect] with the credential present in which a context, the
    microphone or the client is refused returns normally and again holds no
    session resource: no audio context is left open and no microphone stream
    is left live.  The status goes through [connecting] and [error] and is
    left at [disconnected]. *)
Theorem failed_connect_releases_what_it_acquired :
  forall (env : Env) (s : Sys),
    truthy_opt (API_KEY env) = true ->
    acquires env = false ->
    idle s ->
    let r := connect env s in
    completion r = Normal tt
    /\ idle (after r)
    /\ sessionRef (hook (after r)) = None
    /\ statuses (emitted r) = [connecting; error; disconnected]
    /\ status (hook (after r)) = disconnected.
Proof.
  intros env s Hkey Hacq Hidle r. subst r.
  destruct (connect_failure_step env s Hkey Hacq)
    as (h' & b' & trace & -> & Hstatuses & _ & _ & _ & _ & Hown).
  cbn [completion after emitted].
  split; [reflexivity|].
  split; [apply cleanup_releases, Hown, Hidle|].
  split; [reflexivity|]. split; [exact Hstatuses | reflexivity].
Qed.

Lemma failed_connect_releases_what_it_acquired_witness :
  completion (connect microphoneDenied pageLoad) = Normal tt
  /\ idle (after (connect microphoneDenied pageLoad))
  /\ sessionRef (hook (after (connect microphoneDenied pageLoad))) = None
  /\ statuses (emitted (connect microphoneDenied pageLoad))
     = [connecting; error; disconnected]
  /\ status (hook (after (connect microphoneDenied pageLoad))) = disconnected.
Proof.
  apply (failed_connect_releases_what_it_acquired microphoneDenied pageLoad).
  - reflexivity.
  - reflexivity.
  - vm_compute. repeat split; reflexivity.
Defined.

(** ** An interrupted answer in the store *)

Lemma space_is_one_character (c : list ascii) :
  In c whiteSpace -> In " "%char c -> c = [" "%char].
Proof.
  unfold whiteSpace. simpl. intros Hc Hin.
  repeat (destruct Hc as [<- | Hc];
          [simpl in Hin;
           repeat (destruct Hin as [Hin | Hin]; [try discriminate Hin|]);
           first [reflexivity | contradiction]|]).
  contradiction.
Qed.

Lemma no_character_ends_in_bracket (c rest : list ascii) :
  In c whiteSpace -> List.rev c <> "]"%char :: rest.
Proof.
  unfold whiteSpace. simpl. intros Hc.
  repeat (destruct Hc as [<- | Hc]; [simpl; discriminate|]).
  contradiction.
Qed.

Lemma strip_step (characters : list (list ascii)) (fuel : nat)
    (l : list ascii) :
  strip characters (S fuel) l
  = match dropOne characters l with
    | Some rest => strip characters fuel rest
    | None => l
    end.
Proof. reflexivity. Qed.

Lemma strip_marked (fuel : nat) :
  forall l : list ascii,
    (List.length (l ++ list_ascii_of_string INTERRUPTED) <= fuel)%nat ->
    exists prefix : list ascii,
      strip whiteSpace fuel (l ++ list_ascii_of_string INTERRUPTED)
      = prefix ++ list_ascii_of_string "[INTERRUPTED]".
Proof.
  induction fuel as [|fuel IH]; intros l Hlen.
  - rewrite length_app in Hlen. simpl in Hlen. lia.
  - rewrite strip_step.
    destruct (dropOne whiteSpace (l ++ list_ascii_of_string INTERRUPTED))
      as [rest|] eqn:Hdrop.
    + destruct (dropOne_Some _ _ _ Hdrop) as (c & Hc & Heq).
      assert (Hne : c <> []).
      { pose proof whiteSpace_nonempty as Hnonempty.
        rewrite Forall_forall in Hnonempty. now apply Hnonempty. }
      apply app_eq_app in Heq. destruct Heq as (z & [[H1 H2] | [H1 H2]]).
      * subst l rest. apply IH. rewrite !length_app in Hlen |- *.
        destruct c; [contradiction | simpl in Hlen |- *].
        rewrite length_app in Hlen. lia.
      * destruct z as [|a z].
        -- rewrite app_nil_r in H1. simpl in H2. subst c rest.
           apply (IH []). simpl. rewrite length_app in Hlen.
           destruct l; [contradiction | simpl in Hlen |- *; lia].
        -- simpl in H2. injection H2 as <- Hrest.
           assert (Hspace : c = [" "%char]).
           { apply space_is_one_character; [exact Hc|].
             rewrite H1. apply in_or_app. right. now left. }
           rewrite Hspace in H1. destruct l as [|b l].
           ++ simpl in H1. injection H1 as <-. simpl in Hrest. subst rest.
              exists []. apply strip_stops. reflexivity.
           ++ destruct l; discriminate H1.
    + exists (l ++ [" "%char]). rewrite <- app_assoc. reflexivity.
Qed.

Lemma trim_marked (text : string) :
  exists prefix : string,
    trim (text ++ INTERRUPTED) = (prefix ++ "[INTERRUPTED]")%string.
Proof.
  unfold trim.
  assert (Hstart :
    exists prefix : list ascii,
      list_ascii_of_string (trimStart (text ++ INTERRUPTED))
      = prefix ++ list_ascii_of_string "[INTERRUPTED]").
  { unfold trimStart. cbv zeta. rewrite list_ascii_of_string_of_list_ascii.
    rewrite list_ascii_of_string_app. apply strip_marked. apply Nat.le_refl. }
  destruct Hstart as (prefix & Hstart).
  exists (string_of_list_ascii prefix).
  unfold trimEnd. cbv zeta. rewrite Hstart.
  rewrite strip_stops.
  - rewrite rev_involutive, string_of_list_ascii_app. reflexivity.
  - rewrite rev_app_distr.
    destruct (dropOne (map (@List.rev ascii) whiteSpace)
                (List.rev (list_ascii_of_string "[INTERRUPTED]")
                 ++ List.rev prefix)) as [rest|] eqn:Hdrop; [|reflexivity].
    destruct (dropOne_Some _ _ _ Hdrop) as (rc & Hrc & Heq).
    apply in_map_iff in Hrc. destruct Hrc as (c & <- & Hc).
    exfalso.
    assert (Hne : c <> []).
    { pose proof whiteSpace_nonempty as Hnonempty.
      rewrite Forall_forall in Hnonempty. now apply Hnonempty. }
    simpl in Heq.
    destruct (List.rev c) as [|a rc] eqn:Hrev.
    + apply (f_equal (@List.rev ascii)) in Hrev.
      rewrite rev_involutive in Hrev. contradiction.
    + simpl in Heq. injection Heq as <- _.
      exact (no_character_ends_in_bracket c rc Hc Hrev).
Qed.

Lemma documents_app (t1 t2 : list Event) :
  documents (t1 ++ t2) = documents t1 ++ documents t2.
Proof. apply flat_map_app. Qed.

Lemma documents_map_SourceStop (l : list AudioBufferSourceNode) :
  documents (map SourceStop l) = [].
Proof. induction l as [|x l IH]; simpl; [reflexivity | exact IH]. Qed.

(** X5.  What the agent had said when the user barged in always reaches the
    store.  When a message reports an interruption and not the end of the
    turn, and the output buffer with the fragment of the message is not
    empty, the handler has exactly one document stored: under the role
    [model] and the session identifier, with the buffered text trimmed, and
    its text ends in the marker.  This is so even when the buffered text is
    white space only, which a flush at the end of a turn would not store. *)
Theorem interrupted_answer_is_stored_with_its_marker :
  forall dec now (message : LiveServerMessage) (s : Sys),
    isInterrupted message = true ->
    isTurnComplete message = false ->
    truthy (outboundWith message (hook s)) = true ->
    exists prefix : string,
      trim (outboundWith message (hook s) ++ INTERRUPTED)
      = (prefix ++ "[INTERRUPTED]")%string
      /\ documents (emitted (onmessage dec now message s))
         = [{| doc_sessionId := sessionIdRef (hook s); doc_role := model;
               doc_text := (prefix ++ "[INTERRUPTED]")%string |}].
Proof.
  intros dec now message s Hint Htc Hout.
  destruct (trim_marked (outboundWith message (hook s))) as (prefix & Htrim).
  exists prefix. split; [exact Htrim|].
  destruct (onmessage_outcome dec now message s)
    as (h1 & e1 & c & h2 & b2 & e2 & -> & Hturn & Hrest).
  cbn [emitted].
  destruct Hturn as [(Htc' & _) | (_ & -> & ->)];
    [rewrite Htc in Htc'; discriminate Htc'|].
  destruct Hrest
    as [(_ & _ & _ & _ & ->)
       | [(Hint' & _) | [(Hint' & _) | (Hint' & _)]]];
    try (rewrite Hint in Hint'; discriminate Hint').
  cbn [app with_currentOutputRef with_currentInputRef currentOutputRef].
  unfold flushInterrupted. rewrite Hout.
  change (documents
            ([ConsoleLog "User interrupted. Clearing audio queue.";
              SaveTranscript model
                (outboundWith message (hook s) ++ INTERRUPTED)
                (sessionIdRef (hook s))]
             ++ map SourceStop (activeSourcesRef (hook s))
             ++ [SetIsSpeaking false])
          = [{| doc_sessionId := sessionIdRef (hook s); doc_role := model;
                doc_text := (prefix ++ "[INTERRUPTED]")%string |}]).
  rewrite !documents_app, documents_map_SourceStop.
  cbn [documents flat_map app]. unfold addDoc.
  rewrite truthy_app, Hout, Htrim, truthy_app. cbn.
  rewrite orb_true_r. reflexivity.
Qed.

Lemma interrupted_answer_is_stored_with_its_marker_witness :
  exists prefix : string,
    trim (outboundWith bargeIn (hook answering) ++ INTERRUPTED)
    = (prefix ++ "[INTERRUPTED]")%string
    /\ documents (emitted (onmessage halfSecond (22 # 10) bargeIn answering))
       = [{| doc_sessionId := sessionIdRef (hook answering);
             doc_role := model;
             doc_text := (prefix ++ "[INTERRUPTED]")%string |}].
Proof.
  apply (interrupted_answer_is_stored_with_its_marker halfSecond (22 # 10)
           bargeIn answering); reflexivity.
Defined.

(** ** Audio that does not decode *)

(** X8.  A payload that does not decode leaves the speaking indicator on.
    The handler turns the indicator on and moves the cursor up to the clock
    before it decodes, and has no handler for a decoder that throws: the
    message handler rejects, nothing is scheduled and the set of segments is
    as it was, so no [onended] will turn the indicator off for this message. *)
Theorem undecodable_audio_leaves_the_indicator_on :
  forall dec now (message : LiveServerMessage) (s : Sys) (data : string),
    isInterrupted message = false ->
    audioStepRuns message (hook s) = true ->
    base64Audio message = Some data ->
    dec data = None ->
    let r := onmessage dec now message s in
    completion r = Throw
    /\ isSpeaking (hook (after r)) = true
    /\ starts (emitted r) = []
    /\ activeSourcesRef (hook (after r)) = activeSourcesRef (hook s)
    /\ nextStartTimeRef (hook (after r))
       = Qmax (nextStartTimeRef (hook s)) now.
Proof.
  intros dec now message s data Hint Hruns Hdata Hdec r. subst r.
  unfold onmessage, bind. rewrite handleTranscription_step. simpl.
  destruct (first_two_steps message s)
    as (s1 & e1 & -> & Hstarts & _ & Hcursor & Hactive & Hoc & Hgain & _).
  rewrite Hint.
  assert (Hruns1 : audioStepRuns message (hook s1) = true)
    by (unfold audioStepRuns in *; now rewrite Hoc, Hgain).
  rewrite (handleAudioData_reject dec now message s1 data) by assumption.
  simpl. rewrite starts_app, Hstarts, Hcursor, Hactive.
  repeat split; reflexivity.
Qed.

Lemma undecodable_audio_leaves_the_indicator_on_witness :
  let r := onmessage (fun _ => None) 2 audioChunk opened in
  completion r = Throw
  /\ isSpeaking (hook (after r)) = true
  /\ starts (emitted r) = []
  /\ activeSourcesRef (hook (after r)) = activeSourcesRef (hook opened)
  /\ nextStartTimeRef (hook (after r))
     = Qmax (nextStartTimeRef (hook opened)) 2.
Proof.
  apply (undecodable_audio_leaves_the_indicator_on (fun _ => None) 2
           audioChunk opened "UklGRg=="); reflexivity.
Defined.

(** ** The order of acquisition *)

Lemma acquisitions_app (t1 t2 : list Event) :
  acquisitions (t1 ++ t2) = acquisitions t1 ++ acquisitions t2.
Proof. apply filter_app. Qed.

Lemma acquisitions_map_none {A : Type} (f : A -> Event) (l : list A) :
  (forall x, acquisitions [f x] = []) -> acquisitions (map f l) = [].
Proof.
  intros Hf. induction l as [|x l IH]; [reflexivity|].
  change (acquisitions ([f x] ++ map f l) = []).
  now rewrite acquisitions_app, Hf, IH.
Qed.

Lemma acquisitions_teardown (h : Hook) : acquisitions (teardown h) = [].
Proof.
  unfold teardown. rewrite !acquisitions_app.
  rewrite !acquisitions_map_none by reflexivity.
  unfold flush.
  destruct (rafIdRef h) as [[|n]|];
    destruct (truthy (currentInputRef h));
    destruct (truthy (currentOutputRef h)); reflexivity.
Qed.

Lemma acquisitions_cons (e : Event) (t : list Event) :
  acquisitions (e :: t) = acquisitions [e] ++ acquisitions t.
Proof. exact (acquisitions_app [e] t). Qed.

(** The acquisition calls of [connect], in order: each step is attempted
    only when the one before it went through. *)
Lemma connect_acquisitions (env : Env) (s : Sys) :
  truthy_opt (API_KEY env) = true ->
  acquisitions (emitted (connect env s))
  = NewAudioContext 16000
    :: (if inputContextAvailable env then
          NewAudioContext 24000
          :: (if outputContextAvailable env then
                GetUserMedia
                :: (if microphoneGranted env then
                      NewGoogleGenAI (text_of (API_KEY env))
                      :: (if clientConstructed env then
                            [LiveConnect MODEL_NAME]
                          else [])
                    else [])
              else [])
        else []).
Proof.
  intros Hkey.
  destruct env as [key uuid inputOk outputOk data micOk clientOk].
  unfold connect.
  cbn [API_KEY randomUUID inputContextAvailable outputContextAvailable
       frequencyData microphoneGranted clientConstructed] in Hkey |- *.
  rewrite Hkey. cbn [negb].
  destruct inputOk;
    [destruct outputOk; [destruct micOk; [destruct clientOk|]|]|];
    unfold try_catch, bind; cbn; rewrite ?cleanup_step; cbn [emitted];
    repeat match goal with
           | |- context [acquisitions (?e :: ?t)] =>
               lazymatch t with
               | [] => fail
               | _ => rewrite (acquisitions_cons e t)
               end
           end;
    rewrite ?acquisitions_teardown; reflexivity.
Qed.

(** X11.  [connect] asks for the microphone only once both audio contexts
    exist, and opens the channel only once the microphone is granted and the
    client is built: the microphone is requested exactly when the credential
    is present and both contexts were created, and a channel is opened
    exactly when the credential is present and no step was refused. *)
Theorem connect_acquires_in_order :
  forall (env : Env) (s : Sys),
    let trace := acquisitions (emitted (connect env s)) in
    (In GetUserMedia trace
     <-> truthy_opt (API_KEY env) && inputContextAvailable env
         && outputContextAvailable env = true)
    /\ (In (LiveConnect MODEL_NAME) trace
        <-> truthy_opt (API_KEY env) && acquires env = true).
Proof.
  intros env s trace. subst trace. unfold acquires.
  destruct (truthy_opt (API_KEY env)) eqn:Hkey.
  - rewrite (connect_acquisitions env s Hkey). cbn [andb].
    destruct (inputContextAvailable env), (outputContextAvailable env),
      (microphoneGranted env), (clientConstructed env); cbn [andb In];
      split; split; intros H;
      repeat match goal with
             | H : _ \/ _ |- _ => destruct H as [H | H]
             end;
      try discriminate H; try contradiction; try reflexivity;
      try (right; right; left; reflexivity);
      right; right; right; right; left; reflexivity.
  - rewrite connect_unconfigured_step by assumption. cbn.
    split; split; intros H; try contradiction; discriminate H.
Qed.

(** ** The application *)

Lemma notify_keeps_resources dec (n : Notification) (s : Sys) :
  let r := notify dec n s in
  inputContextRef (hook (after r)) = inputContextRef (hook s)
  /\ outputContextRef (hook (after r)) = outputContextRef (hook s)
  /\ streamRef (hook (after r)) = streamRef (hook s)
  /\ openContexts (browser (after r)) = openContexts (browser s)
  /\ liveStreams (browser (after r)) = liveStreams (browser s).
Proof.
  intros r. subst r. destruct n as [| a | source | | | data]; unfold notify.
  - unfold onopen, bind. cbn.
    destruct (inputContextRef (hook s)) eqn:Hic,
      (streamRef (hook s)) eqn:Hst; cbn;
      rewrite ?Hic, ?Hst; repeat split; reflexivity.
  - apply onmessage_keeps_resources.
  - unfold onended, bind. cbn.
    destruct (filter _ (activeSourcesRef (hook s))); cbn;
      repeat split; reflexivity.
  - cbn. repeat split; reflexivity.
  - cbn. repeat split; reflexivity.
  - unfold updateVolume, bind. cbn.
    destruct (analyzerRef (hook s)); cbn; repeat split; reflexivity.
Qed.

Lemma owned_same (s s' : Sys) :
  inputContextRef (hook s') = inputContextRef (hook s) ->
  outputContextRef (hook s') = outputContextRef (hook s) ->
  streamRef (hook s') = streamRef (hook s) ->
  openContexts (browser s') = openContexts (browser s) ->
  liveStreams (browser s') = liveStreams (browser s) ->
  (owned s -> owned s')
  /\ (idle s -> idle s')
  /\ (inputAtCaptureRate s -> inputAtCaptureRate s').
Proof.
  unfold owned, idle, inputAtCaptureRate.
  intros -> -> -> -> ->. repeat split; tauto.
Qed.

Lemma idle_in_order (s : Sys) :
  idle s -> owned s /\ inputAtCaptureRate s.
Proof.
  intros Hidle. split; [now apply idle_owned|].
  destruct Hidle as (Hic & _). unfold inputAtCaptureRate. rewrite Hic.
  discriminate.
Qed.

Lemma pick_one {A : Type} (i : nat) (x y : A) (others : list A) :
  pick i [x] = Some (y, others) -> y = x /\ others = [].
Proof.
  destruct i as [|i]; simpl; [intros [= <- <-]; split; reflexivity|].
  destruct i; discriminate.
Qed.

(** One event keeps the application in order, when the user is patient. *)
Lemma dispatch_orderly dec (e : AppEvent) (a a1 : App) (e1 : list Event) :
  orderly a ->
  match e with
  | ClickBegin _ | ClickEnd | Unmount => awaiting a = []
  | _ => True
  end ->
  dispatch dec e a = Some (a1, e1) ->
  orderly a1.
Proof.
  intros (Howned & Hrate & Hlanding & Hwait) Hpatient Hstep.
  destruct e as [env | | | i | n]; simpl in Hstep.
  - (* Begin Session *)
    destruct (mounted a); [|discriminate Hstep].
    destruct (hasStarted a) eqn:Hstarted; [discriminate Hstep|].
    simpl in Hstep. injection Hstep as <- <-.
    destruct (Hlanding eq_refl) as [Hidle _].
    unfold handleStart, orderly. cbn [fst session hasStarted awaiting].
    rewrite Hpatient.
    destruct (truthy_opt (API_KEY env)) eqn:Hkey.
    + destruct (inputContextAvailable env && outputContextAvailable env)
        eqn:Hok.
      * destruct (connectUntilAwait_reached env (session a) Hkey Hok)
          as (trace & -> & _).
        cbn [completion after app].
        destruct Hidle as (Hic & Hoc & Hst & Hctxs & Hstreams).
        split; [|split; [|split]].
        -- unfold owned. cbn. rewrite Hctxs, Hstreams, Hst. split; reflexivity.
        -- unfold inputAtCaptureRate. cbn. intros ctx [= <-]. reflexivity.
        -- discriminate.
        -- right. exists env. split; [reflexivity|]. cbn. exact Hst.
      * destruct (connectUntilAwait_failed env (session a) Hkey Hok)
          as (h' & b' & before & -> & _ & _ & _ & _ & _ & _ & _ & _ & _ & _
              & Hown).
        cbn [completion after].
        assert (Hquiet : idle {| hook := torn h'; browser := released h' b' |})
          by (apply cleanup_releases, Hown, Hidle).
        destruct (idle_in_order _ Hquiet) as [H1 H2].
        split; [exact H1|]. split; [exact H2|].
        split; [discriminate | now left].
    + rewrite connectUntilAwait_unconfigured by assumption.
      cbn [completion after].
      destruct (owned_same (session a)
                  {| hook := with_status error (hook (session a));
                     browser := browser (session a) |}
                  eq_refl eq_refl eq_refl eq_refl eq_refl) as (H1 & _ & H3).
      split; [now apply H1|]. split; [now apply H3|].
      split; [discriminate | now left].
  - (* End Session *)
    destruct (mounted a); [|discriminate Hstep].
    destruct (hasStarted a); [|discriminate Hstep].
    simpl in Hstep. injection Hstep as <- <-.
    unfold handleStop, orderly. cbn [fst session hasStarted awaiting].
    assert (Hquiet : idle (after (disconnect (session a))))
      by (apply disconnect_releases; exact Howned).
    destruct (idle_in_order _ Hquiet) as [H1 H2].
    split; [exact H1|]. split; [exact H2|].
    split; [intros _; split; assumption | now left].
  - (* unmount *)
    destruct (mounted a); [|discriminate Hstep].
    injection Hstep as <- <-.
    unfold unmount, orderly. cbn [fst session hasStarted awaiting].
    assert (Hquiet : idle (after (disconnect (session a))))
      by (apply disconnect_releases; exact Howned).
    destruct (idle_in_order _ Hquiet) as [H1 H2].
    split; [exact H1|]. split; [exact H2|].
    split; [intros _; split; assumption | now left].
  - (* the microphone request is answered *)
    destruct (pick i (awaiting a)) as [[env others]|] eqn:Hpick;
      [|discriminate Hstep].
    injection Hstep as <- <-.
    destruct Hwait as [Hnone | (env' & Hone & Hst)];
      [rewrite Hnone in Hpick; destruct i; discriminate Hpick|].
    rewrite Hone in Hpick. apply pick_one in Hpick.
    destruct Hpick as [-> ->].
    assert (Hstarted : hasStarted a = true).
    { destruct (hasStarted a); [reflexivity|].
      destruct (Hlanding eq_refl) as [_ Hnone]. rewrite Hone in Hnone.
      discriminate Hnone. }
    unfold resume, orderly. cbn [fst session hasStarted awaiting].
    rewrite Hstarted.
    destruct (microphoneGranted env' && clientConstructed env') eqn:Hok.
    + rewrite connectAfterAwait_joined by assumption. cbn [after].
      destruct Howned as [Hctxs Hstreams]. rewrite Hst in Hstreams.
      split; [|split; [|split]].
      * unfold owned. cbn. rewrite Hctxs, Hstreams. split; reflexivity.
      * exact Hrate.
      * discriminate.
      * now left.
    + destruct (connectAfterAwait_failed env' (session a) Hok)
        as (h' & b' & before & -> & _ & _ & _ & _ & _ & _ & _ & _ & _ & _
            & Hown).
      cbn [after].
      assert (Hquiet : idle {| hook := torn h'; browser := released h' b' |})
        by (apply cleanup_releases, Hown; assumption).
      destruct (idle_in_order _ Hquiet) as [H1 H2].
      split; [exact H1|]. split; [exact H2|].
      split; [discriminate | now left].
  - (* a callback of the hook *)
    injection Hstep as <- <-.
    destruct (notify_keeps_resources dec n (session a))
      as (Hic & Hoc & Hst & Hctxs & Hstreams).
    destruct (owned_same (session a) (after (notify dec n (session a)))
                Hic Hoc Hst Hctxs Hstreams) as (H1 & H2 & H3).
    unfold orderly. cbn [session hasStarted awaiting].
    split; [now apply H1|]. split; [now apply H3|]. split.
    + intros Hstarted. destruct (Hlanding Hstarted) as [Hidle Hnone].
      split; [now apply H2 | exact Hnone].
    + destruct Hwait as [Hnone | (env & Hone & Hnostream)]; [now left|].
      right. exists env. split; [exact Hone|]. now rewrite Hst.
Qed.

Lemma play_orderly dec (events : list AppEvent) :
  forall (a a' : App) (trace : list Event),
    orderly a ->
    patient dec events a = true ->
    play dec events a = Some (a', trace) ->
    orderly a'.
Proof.
  induction events as [|e rest IH]; intros a a' trace Horder Hpatient Hplay.
  - simpl in Hplay. injection Hplay as <- <-. exact Horder.
  - simpl in Hpatient, Hplay. apply andb_true_iff in Hpatient.
    destruct Hpatient as [Hnow Hlater].
    destruct (dispatch dec e a) as [[a1 e1]|] eqn:Hstep;
      [|discriminate Hplay].
    destruct (play dec rest a1) as [[a2 e2]|] eqn:Hrest;
      [|discriminate Hplay].
    injection Hplay as <- <-.
    apply (IH a1 a2 e2); [|exact Hlater | exact Hrest].
    apply (dispatch_orderly dec e a a1 e1 Horder); [|exact Hstep].
    destruct e; try exact I; destruct (awaiting a); try reflexivity;
      discriminate Hnow.
Qed.

(** X14.  With a patient user the application never holds more than one
    microphone stream or more than one output device.  Starting from the
    first render, after any sequence of clicks, answers to the microphone
    request, unmounting and callbacks of the hook, in which no button is
    clicked and the component is not unmounted while a microphone request is
    unanswered: at most one microphone stream is live and at most one output
    context is open, each referred to by the hook, and whenever the landing
    page is shown none is. *)
Theorem patient_use_holds_one_microphone :
  forall dec (events : list AppEvent) (a' : App) (trace : list Event),
    patient dec events firstRender = true ->
    play dec events firstRender = Some (a', trace) ->
    (List.length (liveStreams (browser (session a'))) <= 1)%nat
    /\ (List.length (outputDevices (browser (session a'))) <= 1)%nat
    /\ owned (session a')
    /\ (render a' = Landing -> idle (session a')).
Proof.
  intros dec events a' trace Hpatient Hplay.
  assert (Hfirst : orderly firstRender).
  { unfold orderly. cbn.
    split; [split; reflexivity|]. split; [intros ctx; discriminate|].
    split; [|now left]. intros _. split; [|reflexivity].
    repeat split; reflexivity. }
  destruct (play_orderly dec events firstRender a' trace Hfirst Hpatient Hplay)
    as (Howned & Hrate & Hlanding & _).
  pose proof Howned as [Hctxs Hstreams].
  split; [|split; [|split; [exact Howned|]]].
  - rewrite Hstreams. destruct (streamRef (hook (session a'))); cbn; lia.
  - unfold outputDevices. rewrite Hctxs. unfold inputAtCaptureRate in Hrate.
    destruct (inputContextRef (hook (session a'))) as [ic|].
    + rewrite (filter_app _ (optionList (Some ic))). cbn.
      rewrite (Hrate ic eq_refl). cbn.
      destruct (outputContextRef (hook (session a'))) as [oc|]; cbn;
        [destruct (sampleRate oc =? 24000)%Z; cbn; lia | lia].
    + cbn. destruct (outputContextRef (hook (session a'))) as [oc|]; cbn;
        [destruct (sampleRate oc =? 24000)%Z; cbn; lia | lia].
  - unfold render. destruct (mounted a'); cbn; [|discriminate].
    destruct (hasStarted a'); [discriminate|].
    intros _. now destruct (Hlanding eq_refl).
Qed.

Lemma patient_use_holds_one_microphone_witness :
  let played := play halfSecond threeSessions firstRender in
  let a' :=
    match played with
    | Some (a, _) => a
    | None => firstRender
    end in
  (List.length (liveStreams (browser (session a'))) <= 1)%nat
  /\ (List.length (outputDevices (browser (session a'))) <= 1)%nat
  /\ owned (session a')
  /\ (render a' = Landing -> idle (session a')).
Proof.
  intros played a'.
  apply (patient_use_holds_one_microphone halfSecond threeSessions a'
           match played with
           | Some (_, trace) => trace
           | None => []
           end).
  - vm_compute. reflexivity.
  - vm_compute. reflexivity.
Defined.

Lemma play_cons dec (e : AppEvent) (rest : list AppEvent) (a : App) :
  play dec (e :: rest) a
  = match dispatch dec e a with
    | Some (a1, e1) =>
        match play dec rest a1 with
        | Some (a2, e2) => Some (a2, e1 ++ e2)
        | None => None
        end
    | None => None
    end.
Proof. reflexivity. Qed.

(** X15.  Ending the session while the microphone prompt is still open
    leaves the microphone on.  From the landing page with nothing held, when
    "Begin Session" is clicked, then "End Session" before the microphone
    request is answered, and the request is then granted: the landing page
    is shown and the status is [disconnected], yet the [connect] that
    resumes takes the stream and opens the channel after [disconnect] has
    run, so one microphone stream is live and one more channel is open,
    while both audio contexts are closed. *)
Theorem ending_during_the_prompt_leaves_the_microphone_on :
  forall dec (env : Env) (a : App),
    mounted a = true ->
    hasStarted a = false ->
    awaiting a = [] ->
    idle (session a) ->
    truthy_opt (API_KEY env) = true ->
    acquires env = true ->
    exists (a' : App) (trace : list Event),
      play dec [ClickBegin env; ClickEnd; Answered 0] a = Some (a', trace)
      /\ render a' = Landing
      /\ awaiting a' = []
      /\ status (hook (session a')) = disconnected
      /\ liveStreams (browser (session a'))
         = [{| stream_id := 5 + fresh (browser (session a)) |}]
      /\ streamRef (hook (session a'))
         = Some {| stream_id := 5 + fresh (browser (session a)) |}
      /\ openChannels (browser (session a'))
         = openChannels (browser (session a))
           ++ [{| channel_id := 6 + fresh (browser (session a)) |}]
      /\ openContexts (browser (session a')) = []
      /\ inputContextRef (hook (session a')) = None
      /\ outputContextRef (hook (session a')) = None.
Proof.
  intros dec env a Hmounted Hstarted Hnone Hidle Hkey Hacq.
  destruct a as [m st aw s]. cbn in Hmounted, Hstarted, Hnone, Hidle.
  subst m st aw. unfold acquires in Hacq.
  apply andb_true_iff in Hacq. destruct Hacq as [Hacq Hclient].
  apply andb_true_iff in Hacq. destruct Hacq as [Hctx Hmic].
  assert (Hok2 : microphoneGranted env && clientConstructed env = true)
    by now rewrite Hmic, Hclient.
  destruct (connectUntilAwait_reached env s Hkey Hctx) as (trace1 & Hr1 & _).
  rewrite play_cons. cbn [dispatch mounted hasStarted andb negb].
  unfold handleStart. cbn [session mounted awaiting]. rewrite Hr1.
  cbn [completion after emitted app].
  rewrite play_cons. cbn [dispatch mounted hasStarted andb].
  unfold handleStop, disconnect. cbn [session mounted awaiting].
  rewrite cleanup_step. cbn [after emitted].
  rewrite play_cons. cbn [dispatch awaiting pick].
  unfold resume. cbn [session mounted hasStarted].
  rewrite connectAfterAwait_joined by assumption.
  cbn [after emitted play].
  eexists; eexists. split; [reflexivity|].
  destruct Hidle as (Hic & Hoc & Hst & Hctxs & Hstreams).
  unfold released. cbn -[Nat.eqb]. rewrite Hst, Hctxs, Hstreams.
  cbn -[Nat.eqb]. rewrite !Nat.eqb_refl.
  replace (S (fresh (browser s)) =? fresh (browser s))%nat with false
    by (symmetry; apply Nat.eqb_neq; lia).
  cbn -[Nat.eqb]. rewrite Nat.eqb_refl.
  repeat split; reflexivity.
Qed.

Lemma ending_during_the_prompt_leaves_the_microphone_on_witness :
  exists (a' : App) (trace : list Event),
    play halfSecond [ClickBegin granted; ClickEnd; Answered 0] firstRender
    = Some (a', trace)
    /\ render a' = Landing
    /\ awaiting a' = []
    /\ status (hook (session a')) = disconnected
    /\ liveStreams (browser (session a'))
       = [{| stream_id := 5 + fresh (browser (session firstRender)) |}]
    /\ streamRef (hook (session a'))
       = Some {| stream_id := 5 + fresh (browser (session firstRender)) |}
    /\ openChannels (browser (session a'))
       = openChannels (browser (session firstRender))
         ++ [{| channel_id := 6 + fresh (browser (session firstRender)) |}]
    /\ openContexts (browser (session a')) = []
    /\ inputContextRef (hook (session a')) = None
    /\ outputContextRef (hook (session a')) = None.
Proof.
  apply (ending_during_the_prompt_leaves_the_microphone_on halfSecond granted
           firstRender); try reflexivity.
  vm_compute. repeat split; reflexivity.
Defined.

(** X16.  Which failures of a start the screen shows.  A start in which both
    contexts are created and then the microphone is denied, or the client is
    refused, passes through the status [error] and leaves the session page
    with the gray orb of a disconnected session, no caption and the privacy
    indicator at "Offline": the failure is not shown.  A start without the
    credential leaves the red orb with the caption "Connection Error". *)
Theorem only_the_missing_credential_is_shown_as_an_error :
  forall dec (denied bare : Env) (a : App),
    mounted a = true ->
    hasStarted a = false ->
    awaiting a = [] ->
    truthy_opt (API_KEY denied) = true ->
    inputContextAvailable denied && outputContextAvailable denied = true ->
    microphoneGranted denied && clientConstructed denied = false ->
    truthy_opt (API_KEY bare) = false ->
    (exists (a' : App) (trace : list Event),
        play dec [ClickBegin denied; Answered 0] a = Some (a', trace)
        /\ statuses trace = [connecting; error; disconnected]
        /\ render a' = Running "rgb(75, 85, 99)" None "Offline")
    /\ (exists (a' : App) (trace : list Event),
           play dec [ClickBegin bare] a = Some (a', trace)
           /\ statuses trace = [error]
           /\ render a'
              = Running "rgb(239, 68, 68)" (Some "Connection Error")
                  "Offline").
Proof.
  intros dec denied bare a Hmounted Hstarted Hnone Hkey Hctx Hfail Hbare.
  destruct a as [m st aw s]. cbn in Hmounted, Hstarted, Hnone.
  subst m st aw. split.
  - destruct (connectUntilAwait_reached denied s Hkey Hctx)
      as (trace1 & Hr1 & Hstatuses1 & _).
    destruct (connectAfterAwait_failed denied (prepared denied s) Hfail)
      as (h' & b' & before & Hr2 & Hstatuses2 & _).
    rewrite play_cons. cbn [dispatch mounted hasStarted andb negb].
    unfold handleStart. cbn [session mounted awaiting]. rewrite Hr1.
    cbn [completion after emitted app].
    rewrite play_cons. cbn [dispatch awaiting pick].
    unfold resume. cbn [session mounted hasStarted]. rewrite Hr2.
    cbn [after emitted play].
    eexists; eexists. split; [reflexivity|]. split; [|reflexivity].
    rewrite app_nil_r, !statuses_app, Hstatuses1, Hstatuses2,
      statuses_teardown.
    reflexivity.
  - rewrite play_cons. cbn [dispatch mounted hasStarted andb negb].
    unfold handleStart. cbn [session mounted awaiting].
    rewrite connectUntilAwait_unconfigured by assumption.
    cbn [completion after emitted play].
    eexists; eexists. split; [reflexivity|]. split; reflexivity.
Qed.

Lemma only_the_missing_credential_is_shown_as_an_error_witness :
  (exists (a' : App) (trace : list Event),
      play halfSecond [ClickBegin microphoneDenied; Answered 0] firstRender
      = Some (a', trace)
      /\ statuses trace = [connecting; error; disconnected]
      /\ render a' = Running "rgb(75, 85, 99)" None "Offline")
  /\ (exists (a' : App) (trace : list Event),
         play halfSecond [ClickBegin unconfigured] firstRender
         = Some (a', trace)
         /\ statuses trace = [error]
         /\ render a'
            = Running "rgb(239, 68, 68)" (Some "Connection Error")
                "Offline").
Proof.
  apply (only_the_missing_credential_is_shown_as_an_error halfSecond
           microphoneDenied unconfigured firstRender); reflexivity.
Defined.

(** ** A stream the hook has lost *)

Lemma released_streams (h : Hook) (b : Browser) :
  liveStreams (released h b)
  = match streamRef h with
    | Some held =>
        filter (fun x => negb (stream_id x =? stream_id held)%nat)
               (liveStreams b)
    | None => liveStreams b
    end.
Proof.
  unfold released.
  destruct (inputContextRef h), (outputContextRef h), (streamRef h);
    reflexivity.
Qed.

(** [cleanup] stops the stream [streamRef] holds and no other. *)
Lemma lost_released (st : MediaStream) (h : Hook) (b : Browser) :
  lost st {| hook := h; browser := b |} ->
  lost st {| hook := torn h; browser := released h b |}.
Proof.
  unfold lost. cbn [hook browser]. intros (Hlive & Hid & Hother).
  destruct (released_keeps h b) as [-> _]. rewrite released_streams.
  split; [|split; [exact Hid | discriminate]].
  destruct (streamRef h) as [held|]; [|exact Hlive].
  apply filter_In. split; [exact Hlive|].
  apply negb_true_iff, Nat.eqb_neq. intros Heq.
  exact (Hother held eq_refl (eq_sym Heq)).
Qed.

Lemma lost_same (st : MediaStream) (s s' : Sys) :
  streamRef (hook s') = streamRef (hook s) ->
  liveStreams (browser s') = liveStreams (browser s) ->
  (fresh (browser s) <= fresh (browser s'))%nat ->
  lost st s -> lost st s'.
Proof.
  unfold lost. intros -> -> Hle (Hlive & Hid & Hother).
  split; [exact Hlive|]. split; [lia | exact Hother].
Qed.

Lemma notify_fresh dec (n : Notification) (s : Sys) :
  (fresh (browser s) <= fresh (browser (after (notify dec n s))))%nat.
Proof.
  destruct n as [| a | source | | | data]; unfold notify.
  - unfold onopen, bind. cbn.
    destruct (inputContextRef (hook s)), (streamRef (hook s)); cbn; lia.
  - destruct (onmessage_outcome dec (clock a) (message a) s)
      as (h1 & e1 & c & h2 & b2 & e2 & -> & _ & Hrest).
    destruct Hrest
      as [(_ & _ & _ & -> & _)
         | [(_ & _ & _ & -> & _)
           | [(_ & decoded & gain & _ & _ & -> & _) | (_ & _ & _ & -> & _)]]];
      cbn; lia.
  - unfold onended, bind. cbn.
    destruct (filter _ (activeSourcesRef (hook s))); cbn; lia.
  - cbn. lia.
  - cbn. lia.
  - unfold updateVolume, bind. cbn.
    destruct (analyzerRef (hook s)); cbn; lia.
Qed.

(** The first half of [connect] when it fails, as far as streams go. *)
Lemma connectUntilAwait_failed_streams (env : Env) (s : Sys) :
  truthy_opt (API_KEY env) = true ->
  inputContextAvailable env && outputContextAvailable env = false ->
  exists (h' : Hook) (b' : Browser) (trace : list Event),
    connectUntilAwait env s
    = {| completion := Normal false;
         after := {| hook := torn h'; browser := released h' b' |};
         emitted := trace |}
    /\ streamRef h' = streamRef (hook s)
    /\ liveStreams b' = liveStreams (browser s)
    /\ (fresh (browser s) <= fresh b')%nat.
Proof.
  intros Hkey Hok.
  destruct env as [key uuid inputOk outputOk data micOk clientOk].
  cbn in Hkey, Hok. unfold connectUntilAwait, connectFailed.
  cbn [API_KEY randomUUID inputContextAvailable outputContextAvailable
       frequencyData microphoneGranted clientConstructed].
  rewrite Hkey. cbn [negb].
  destruct inputOk; [destruct outputOk; [discriminate Hok|]|];
    unfold attempt, bind; cbn; rewrite cleanup_step; cbn;
    eexists; eexists; eexists; (split; [reflexivity|]); cbn;
    repeat split; first [reflexivity | lia].
Qed.

(** The second half of [connect] when it fails: the stream it may have been
    granted is the one [cleanup] stops. *)
Lemma connectAfterAwait_failed_streams (env : Env) (s : Sys) :
  microphoneGranted env && clientConstructed env = false ->
  exists (h' : Hook) (b' : Browser) (trace : list Event),
    connectAfterAwait env s
    = {| completion := Normal tt;
         after := {| hook := torn h'; browser := released h' b' |};
         emitted := trace |}
    /\ ((streamRef h' = streamRef (hook s)
         /\ liveStreams b' = liveStreams (browser s))
        \/ (streamRef h' = Some {| stream_id := fresh (browser s) |}
            /\ liveStreams b'
               = liveStreams (browser s)
                 ++ [{| stream_id := fresh (browser s) |}]))
    /\ (fresh (browser s) <= fresh b')%nat.
Proof.
  intros Hok.
  destruct env as [key uuid inputOk outputOk data micOk clientOk].
  cbn in Hok. unfold connectAfterAwait, connectFailed.
  cbn [API_KEY randomUUID inputContextAvailable outputContextAvailable
       frequencyData microphoneGranted clientConstructed].
  destruct micOk; [destruct clientOk; [discriminate Hok|]|];
    unfold try_catch, bind; cbn; rewrite cleanup_step; cbn;
    eexists; eexists; eexists; (split; [reflexivity|]); cbn;
    (split; [|lia]); [right | left]; split; reflexivity.
Qed.

Lemma fire_lost dec (st : MediaStream) (c : Callback) (s : Sys) :
  lost st s -> lost st (after (fire dec c s)).
Proof.
  intros Hlost. destruct c as [env | env | | n]; unfold fire.
  - unfold bind. destruct (truthy_opt (API_KEY env)) eqn:Hkey.
    + destruct (inputContextAvailable env && outputContextAvailable env)
        eqn:Hok.
      * destruct (connectUntilAwait_reached env s Hkey Hok)
          as (trace & -> & _).
        apply (lost_same st s); [reflexivity | reflexivity | cbn; lia
                                 | exact Hlost].
      * destruct (connectUntilAwait_failed_streams env s Hkey Hok)
          as (h' & b' & trace & -> & Hst & Hstreams & Hfresh).
        cbn [after]. apply lost_released.
        apply (lost_same st s); [exact Hst | exact Hstreams | exact Hfresh
                                 | exact Hlost].
    + rewrite connectUntilAwait_unconfigured by assumption.
      apply (lost_same st s); [reflexivity | reflexivity | cbn; lia
                               | exact Hlost].
  - destruct (microphoneGranted env && clientConstructed env) eqn:Hok.
    + rewrite connectAfterAwait_joined by assumption. cbn [after].
      destruct Hlost as (Hlive & Hid & Hother). unfold lost. cbn.
      split; [apply in_or_app; left; exact Hlive|]. split; [lia|].
      intros held [= <-]. cbn. lia.
    + destruct (connectAfterAwait_failed_streams env s Hok)
        as (h' & b' & trace & -> & Hstreams & Hfresh).
      cbn [after]. apply lost_released.
      destruct Hstreams as [[Hst Hstreams] | [Hst Hstreams]].
      * apply (lost_same st s); [exact Hst | exact Hstreams | exact Hfresh
                                 | exact Hlost].
      * destruct Hlost as (Hlive & Hid & Hother). unfold lost. cbn.
        rewrite Hst, Hstreams.
        split; [apply in_or_app; left; exact Hlive|]. split; [lia|].
        intros held [= <-]. cbn. lia.
  - unfold disconnect. rewrite cleanup_step. cbn [after].
    apply lost_released. destruct s. exact Hlost.
  - destruct (notify_keeps_resources dec n s) as (_ & _ & Hst & _ & Hstreams).
    apply (lost_same st s); [exact Hst | exact Hstreams
                             | apply notify_fresh | exact Hlost].
Qed.

(** X10.  A microphone stream the hook has lost is never stopped.  [connect]
    overwrites [streamRef] without stopping the stream it held, and
    [cleanup] stops only the stream [streamRef] holds: once a live stream is
    not the one the hook refers to, it stays live over every history of
    calls and callbacks, also over any number of calls of [disconnect]. *)
Theorem lost_stream_is_never_stopped :
  forall dec (history : list Callback) (st : MediaStream) (s : Sys),
    lost st s ->
    lost st (after (fireAll dec history s)).
Proof.
  intros dec history st s Hlost.
  apply (fireAll_keeps dec (fun _ => True) (lost st)).
  - intros c s0 _. apply fire_lost.
  - apply Forall_forall. intros c _. exact I.
  - exact Hlost.
Qed.

Lemma lost_stream_is_never_stopped_witness :
  lost {| stream_id := 5 |}
    (after (fireAll halfSecond
              [CallDisconnect; CallConnect granted; ResumeConnect granted;
               Notify OnOpen; CallDisconnect]
              (after (connect granted opened)))).
Proof.
  apply (lost_stream_is_never_stopped halfSecond
           [CallDisconnect; CallConnect granted; ResumeConnect granted;
            Notify OnOpen; CallDisconnect]
           {| stream_id := 5 |} (after (connect granted opened))).
  unfold lost. vm_compute.
  split; [left; reflexivity|]. split; [lia|].
  intros held [= <-]. discriminate.
Defined.

(** ** The message handler and its two halves *)

Lemma audioUntilAwait_skip now (message : LiveServerMessage) (s : Sys) :
  audioStepRuns message (hook s) = false ->
  audioUntilAwait now message s = ret None s.
Proof.
  unfold audioStepRuns, carriesAudio, audioUntilAwait, bind. simpl.
  destruct (base64Audio message) as [data|]; simpl; [|reflexivity].
  destruct (outputContextRef (hook s)); simpl;
    [|intros _; destruct (truthy data); reflexivity].
  destruct (outputGainNodeRef (hook s)); simpl;
    [|intros _; destruct (truthy data); reflexivity].
  rewrite !andb_true_r. intros ->. reflexivity.
Qed.

Lemma audioUntilAwait_suspend now (message : LiveServerMessage) (s : Sys)
    (data : string) (ctx : AudioContext) (gain : AudioNode) :
  base64Audio message = Some data ->
  truthy data = true ->
  outputContextRef (hook s) = Some ctx ->
  outputGainNodeRef (hook s) = Some gain ->
  audioUntilAwait now message s
  = {| completion :=
         Normal (Some {| decodingFor := ctx; encoded := data;
                         readAt := now |});
       after :=
         {| hook :=
              with_nextStartTimeRef (Qmax (nextStartTimeRef (hook s)) now)
                (with_isSpeaking true (hook s));
            browser := browser s |};
       emitted := [SetIsSpeaking true] |}.
Proof.
  intros Hdata Htruthy Hctx Hgain.
  unfold audioUntilAwait, bind. simpl.
  rewrite Hdata, Hctx, Hgain, Htruthy. reflexivity.
Qed.

Lemma audioAfterAwait_enqueue dec (d : Decoding) (s : Sys)
    (gain : AudioNode) (decoded : AudioBuffer) :
  dec (encoded d) = Some decoded ->
  outputGainNodeRef (hook s) = Some gain ->
  let source := {| source_id := fresh (browser s); buffer := decoded |} in
  let start := nextStartTimeRef (hook s) in
  audioAfterAwait dec true d s
  = {| completion := Normal tt;
       after :=
         {| hook :=
              with_activeSourcesRef (activeSourcesRef (hook s) ++ [source])
                (with_nextStartTimeRef (start + duration decoded)%Q (hook s));
            browser :=
              {| fresh := S (fresh (browser s));
                 openContexts := openContexts (browser s);
                 liveStreams := liveStreams (browser s);
                 openChannels := openChannels (browser s) |} |};
       emitted :=
         [CreateBufferSource source;
          NodeConnect (source_id source) (node_id gain);
          SourceStart source start] |}.
Proof.
  intros Hdec Hgain. unfold audioAfterAwait, bind. rewrite Hdec. simpl.
  rewrite Hgain. reflexivity.
Qed.

Lemma audioAfterAwait_reject dec (accepted : bool) (d : Decoding)
    (s : Sys) :
  dec (encoded d) = None ->
  audioAfterAwait dec accepted d s
  = {| completion := Throw; after := s; emitted := [] |}.
Proof.
  intros Hdec. unfold audioAfterAwait, bind. rewrite Hdec. reflexivity.
Qed.

Lemma audioAfterAwait_unconnected dec (accepted : bool) (d : Decoding)
    (s : Sys) (decoded : AudioBuffer) :
  dec (encoded d) = Some decoded ->
  outputGainNodeRef (hook s) = None \/ accepted = false ->
  let source := {| source_id := fresh (browser s); buffer := decoded |} in
  audioAfterAwait dec accepted d s
  = {| completion := Throw;
       after :=
         {| hook := hook s;
            browser :=
              {| fresh := S (fresh (browser s));
                 openContexts := openContexts (browser s);
                 liveStreams := liveStreams (browser s);
                 openChannels := openChannels (browser s) |} |};
       emitted := [CreateBufferSource source] |}.
Proof.
  intros Hdec Hno. unfold audioAfterAwait, bind. rewrite Hdec. simpl.
  destruct Hno as [-> | ->]; [reflexivity|].
  destruct (outputGainNodeRef (hook s)); reflexivity.
Qed.

(** What the second half does, case by case. *)
Lemma audioAfterAwait_cases dec (accepted : bool) (d : Decoding) (s : Sys) :
  let r := audioAfterAwait dec accepted d s in
  (exists (decoded : AudioBuffer) (gain : AudioNode),
      dec (encoded d) = Some decoded
      /\ r = {| completion := Normal tt;
                after :=
                  {| hook :=
                       with_activeSourcesRef
                         (activeSourcesRef (hook s)
                          ++ [{| source_id := fresh (browser s);
                                 buffer := decoded |}])
                         (with_nextStartTimeRef
                            (nextStartTimeRef (hook s) + duration decoded)%Q
                            (hook s));
                     browser :=
                       {| fresh := S (fresh (browser s));
                          openContexts := openContexts (browser s);
                          liveStreams := liveStreams (browser s);
                          openChannels := openChannels (browser s) |} |};
                emitted :=
                  [CreateBufferSource
                     {| source_id := fresh (browser s); buffer := decoded |};
                   NodeConnect (fresh (browser s)) (node_id gain);
                   SourceStart
                     {| source_id := fresh (browser s); buffer := decoded |}
                     (nextStartTimeRef (hook s))] |})
  \/ (exists source : AudioBufferSourceNode,
         r = {| completion := Throw;
                after :=
                  {| hook := hook s;
                     browser :=
                       {| fresh := S (fresh (browser s));
                          openContexts := openContexts (browser s);
                          liveStreams := liveStreams (browser s);
                          openChannels := openChannels (browser s) |} |};
                emitted := [CreateBufferSource source] |})
  \/ r = {| completion := Throw; after := s; emitted := [] |}.
Proof.
  intros r. subst r.
  destruct (dec (encoded d)) as [decoded|] eqn:Hdec.
  - destruct (outputGainNodeRef (hook s)) as [gain|] eqn:Hgain.
    + destruct accepted.
      * left. exists decoded, gain. split; [reflexivity|].
        now apply audioAfterAwait_enqueue.
      * right. left. eexists.
        apply (audioAfterAwait_unconnected dec false d s decoded Hdec).
        now right.
    + right. left. eexists.
      apply (audioAfterAwait_unconnected dec accepted d s decoded Hdec).
      now left.
  - right. right. now apply audioAfterAwait_reject.
Qed.

(** The audio step is its two halves run back to back. *)
Lemma handleAudioData_in_two_steps dec now (message : LiveServerMessage)
    (s : Sys) :
  (d <- audioUntilAwait now message ;;
   match d with
   | Some d => audioAfterAwait dec true d
   | None => ret tt
   end) s
  = handleAudioData dec now message s.
Proof.
  destruct (audioStepRuns message (hook s)) eqn:Hruns.
  - pose proof Hruns as Hruns'.
    unfold audioStepRuns, carriesAudio in Hruns'.
    destruct (base64Audio message) as [data|] eqn:Hdata; [|discriminate].
    destruct (outputContextRef (hook s)) as [ctx|] eqn:Hctx;
      [|now rewrite andb_false_r in Hruns'].
    destruct (outputGainNodeRef (hook s)) as [gain|] eqn:Hgain;
      [|now rewrite andb_false_r in Hruns'].
    simpl in Hruns'. rewrite !andb_true_r in Hruns'.
    unfold bind at 1.
    rewrite (audioUntilAwait_suspend now message s data ctx gain)
      by assumption.
    destruct (dec data) as [decoded|] eqn:Hdec.
    + rewrite (audioAfterAwait_enqueue dec _ _ gain decoded)
        by assumption.
      rewrite (handleAudioData_enqueue dec now message s data ctx gain decoded)
        by assumption.
      reflexivity.
    + rewrite audioAfterAwait_reject by assumption.
      rewrite (handleAudioData_reject dec now message s data) by assumption.
      reflexivity.
  - unfold bind at 1. rewrite audioUntilAwait_skip by assumption.
    rewrite handleAudioData_skip by assumption. reflexivity.
Qed.

Lemma bind_bind {A B C : Type} (m : M A) (f : A -> M B) (g : B -> M C)
    (s : Sys) :
  bind (bind m f) g s = bind m (fun a => bind (f a) g) s.
Proof.
  unfold bind. destruct (m s) as [[a|] s1 e1]; [|reflexivity].
  destruct (f a s1) as [[b|] s2 e2]; [|reflexivity].
  destruct (g b s2) as [c s3 e3]. now rewrite app_assoc.
Qed.

Lemma bind_ext {A B : Type} (m : M A) (k k' : A -> M B) (s : Sys) :
  (forall a s1, k a s1 = k' a s1) -> bind m k s = bind m k' s.
Proof.
  intros Hk. unfold bind. destruct (m s) as [[a|] s1 e1]; [|reflexivity].
  now rewrite Hk.
Qed.

Lemma bind_ret_tt (m : M unit) (s : Sys) :
  bind m (fun _ => ret tt) s = m s.
Proof.
  unfold bind, ret. destruct (m s) as [[[]|] s1 e1]; [|reflexivity].
  now rewrite app_nil_r.
Qed.

(** And so is the handler. *)
Lemma onmessage_in_two_steps dec now (message : LiveServerMessage) (s : Sys) :
  (d <- onmessageUntilAwait now message ;;
   match d with
   | Some d => audioAfterAwait dec true d
   | None => ret tt
   end) s
  = onmessage dec now message s.
Proof.
  unfold onmessageUntilAwait, onmessage.
  rewrite bind_bind. apply bind_ext. intros _ s1.
  rewrite bind_bind. apply bind_ext. intros _ s2.
  destruct (isInterrupted message).
  - rewrite bind_bind. apply bind_ret_tt.
  - apply handleAudioData_in_two_steps.
Qed.

(** What the first half does, case by case: the transcription and
    turn-completion steps run; then the handler flushes on interruption, or
    else skips the audio, or suspends on the decoder with the cursor moved
    up to the clock. *)
Lemma onmessageUntilAwait_cases now (message : LiveServerMessage) (s : Sys) :
  let r := onmessageUntilAwait now message s in
  exists (s1 : Sys) (e1 : list Event),
    starts e1 = []
    /\ nextStartTimeRef (hook s1) = nextStartTimeRef (hook s)
    /\ activeSourcesRef (hook s1) = activeSourcesRef (hook s)
    /\ outputContextRef (hook s1) = outputContextRef (hook s)
    /\ outputGainNodeRef (hook s1) = outputGainNodeRef (hook s)
    /\ inputContextRef (hook s1) = inputContextRef (hook s)
    /\ streamRef (hook s1) = streamRef (hook s)
    /\ browser s1 = browser s
    /\ ((isInterrupted message = true
         /\ r = {| completion := Normal None;
                   after :=
                     {| hook :=
                          with_isSpeaking false
                            (with_nextStartTimeRef 0
                               (with_activeSourcesRef []
                                  (with_currentOutputRef "" (hook s1))));
                        browser := browser s1 |};
                   emitted :=
                     e1 ++ ConsoleLog "User interrupted. Clearing audio queue."
                     :: flushInterrupted (currentOutputRef (hook s1))
                          (sessionIdRef (hook s1))
                     ++ map SourceStop (activeSourcesRef (hook s1))
                     ++ [SetIsSpeaking false] |})
        \/ (isInterrupted message = false
            /\ audioStepRuns message (hook s1) = false
            /\ r = {| completion := Normal None; after := s1;
                      emitted := e1 |})
        \/ (isInterrupted message = false
            /\ exists (data : string) (ctx : AudioContext) (gain : AudioNode),
                 base64Audio message = Some data
                 /\ truthy data = true
                 /\ outputContextRef (hook s1) = Some ctx
                 /\ outputGainNodeRef (hook s1) = Some gain
                 /\ r = {| completion :=
                             Normal (Some {| decodingFor := ctx;
                                             encoded := data;
                                             readAt := now |});
                           after :=
                             {| hook :=
                                  with_nextStartTimeRef
                                    (Qmax (nextStartTimeRef (hook s1)) now)
                                    (with_isSpeaking true (hook s1));
                                browser := browser s1 |};
                           emitted := e1 ++ [SetIsSpeaking true] |})).
Proof.
  intros r. subst r. unfold onmessageUntilAwait, bind.
  rewrite handleTranscription_step.
  destruct (first_two_steps message s)
    as (s1 & e1 & Hstep & Hstarts & _ & Hcursor & Hact & Hoc & Hgain & Hic
        & Hst & Hb).
  rewrite Hstep. exists s1, e1.
  repeat (split; [assumption|]).
  destruct (isInterrupted message).
  - left. split; [reflexivity|].
    rewrite handleInterruption_step. cbn. rewrite app_nil_r. reflexivity.
  - right. destruct (audioStepRuns message (hook s1)) eqn:Hruns.
    + right. split; [reflexivity|].
      pose proof Hruns as Hruns'.
      unfold audioStepRuns, carriesAudio in Hruns'.
      destruct (base64Audio message) as [data|] eqn:Hdata; [|discriminate].
      destruct (outputContextRef (hook s1)) as [ctx|] eqn:Hc;
        [|now rewrite andb_false_r in Hruns'].
      destruct (outputGainNodeRef (hook s1)) as [gain|] eqn:Hg;
        [|now rewrite andb_false_r in Hruns'].
      simpl in Hruns'. rewrite !andb_true_r in Hruns'.
      exists data, ctx, gain.
      rewrite (audioUntilAwait_suspend now message s1 data ctx gain)
        by assumption.
      repeat split; first [assumption | reflexivity].
    + left. split; [reflexivity|]. split; [reflexivity|].
      rewrite audioUntilAwait_skip by assumption. cbn.
      rewrite app_nil_r. destruct s1. reflexivity.
Qed.

Lemma pick_In {A : Type} (l : list A) :
  forall (i : nat) (x : A) (others : list A),
    pick i l = Some (x, others) ->
    In x l /\ (forall y, In y others -> In y l).
Proof.
  induction l as [|z l IH]; intros i x others Hpick;
    [destruct i; discriminate Hpick|].
  destruct i as [|i]; simpl in Hpick.
  - injection Hpick as <- <-. split; [now left | intros y Hy; now right].
  - destruct (pick i l) as [[y rest]|] eqn:Hrest; [|discriminate Hpick].
    injection Hpick as <- <-.
    destruct (IH i y rest Hrest) as [Hin Hrest'].
    split; [now right|]. intros w [<- | Hw]; [now left | right; auto].
Qed.

(** The second half moves nothing but the schedule. *)
Lemma audioAfterAwait_keeps_resources dec (accepted : bool) (d : Decoding)
    (s : Sys) :
  let r := audioAfterAwait dec accepted d s in
  inputContextRef (hook (after r)) = inputContextRef (hook s)
  /\ outputContextRef (hook (after r)) = outputContextRef (hook s)
  /\ streamRef (hook (after r)) = streamRef (hook s)
  /\ openContexts (browser (after r)) = openContexts (browser s)
  /\ liveStreams (browser (after r)) = liveStreams (browser s).
Proof.
  intros r. subst r.
  destruct (audioAfterAwait_cases dec accepted d s)
    as [(decoded & gain & _ & ->) | [(source & ->) | ->]];
    repeat split; reflexivity.
Qed.

Lemma onmessageUntilAwait_keeps_resources now (message : LiveServerMessage)
    (s : Sys) :
  let r := onmessageUntilAwait now message s in
  inputContextRef (hook (after r)) = inputContextRef (hook s)
  /\ outputContextRef (hook (after r)) = outputContextRef (hook s)
  /\ streamRef (hook (after r)) = streamRef (hook s)
  /\ openContexts (browser (after r)) = openContexts (browser s)
  /\ liveStreams (browser (after r)) = liveStreams (browser s).
Proof.
  destruct (onmessageUntilAwait_cases now message s)
    as (s1 & e1 & _ & _ & _ & Hoc & _ & Hic & Hst & Hb & Hcases).
  intros r. subst r. rewrite <- Hoc, <- Hic, <- Hst, <- Hb.
  destruct Hcases
    as [(_ & ->)
       | [(_ & _ & ->)
         | (_ & data & ctx & gain & _ & _ & _ & _ & ->)]];
    repeat split; reflexivity.
Qed.

(** ** The playback schedule *)

(** The turns that are not messages leave the cursor where it is. *)
Lemma connectUntilAwait_cursor (env : Env) (s : Sys) :
  nextStartTimeRef (hook (after (connectUntilAwait env s)))
  = nextStartTimeRef (hook s).
Proof.
  rewrite <- (fire_cursor halfSecond (CallConnect env) s eq_refl).
  unfold fire, bind.
  destruct (connectUntilAwait env s) as [[b|] s1 e1]; reflexivity.
Qed.

Lemma notify_cursor dec (n : Notification) (s : Sys) :
  (forall a, n <> OnMessage a) ->
  nextStartTimeRef (hook (after (notify dec n s)))
  = nextStartTimeRef (hook s).
Proof.
  intros Hn. apply (fire_cursor dec (Notify n) s).
  destruct n; try reflexivity. now destruct (Hn a).
Qed.

(** What one turn does to the schedule: nothing, and then the cursor does
    not move back; or a flush; or one segment, started at the cursor, which
    moves to the end of the segment. *)
Lemma turn_schedule dec (t : Turn) (l l1 : Loop) (e : list Event) :
  turn dec t l = Some (l1, e) ->
  (scheduledBy dec t l = []
   /\ (cursor l <= cursor l1)%Q
   /\ (current l -> current l1))
  \/ scheduledBy dec t l = [Flushed]
  \/ (exists seg : Scheduled,
        scheduledBy dec t l = [Enqueued seg]
        /\ startTime seg = cursor l
        /\ cursor l1 = endTime seg
        /\ (exists data, dec data = Some (buffer (segment seg)))
        /\ (current l -> (clockRead seg <= startTime seg)%Q)
        /\ (current l -> (0 <= duration (buffer (segment seg)))%Q ->
            current l1)).
Proof.
  intros Hturn.
  assert (Hsame :
    forall s' connects,
      nextStartTimeRef (hook s') = cursor l ->
      let l' := {| controller := s'; suspendedConnects := connects;
                   suspendedHandlers := suspendedHandlers l |} in
      (cursor l <= cursor l')%Q /\ (current l -> current l')).
  { intros s' connects Hc l'. unfold current, cursor in *. cbn.
    rewrite Hc. split; [apply Qle_refl | trivial]. }
  destruct t as [env | i | | n | i now accepted]; cbn [turn] in Hturn.
  - injection Hturn as <- <-. left. split; [reflexivity|].
    apply Hsame. apply connectUntilAwait_cursor.
  - destruct (pick i (suspendedConnects l)) as [[env others]|];
      [|discriminate Hturn].
    injection Hturn as <- <-. left. split; [reflexivity|].
    apply Hsame.
    exact (fire_cursor dec (ResumeConnect env) (controller l) eq_refl).
  - injection Hturn as <- <-. left. split; [reflexivity|].
    apply Hsame.
    exact (fire_cursor dec CallDisconnect (controller l) eq_refl).
  - pose proof (notify_cursor dec n (controller l)) as Hn.
    destruct n as [| a | source | | | data]; cbn [turn] in Hturn;
      try (injection Hturn as <- <-; left; split; [reflexivity|];
           apply Hsame; apply Hn; discriminate).
    clear Hn.
    injection Hturn as <- <-. cbn [scheduledBy].
    destruct (onmessageUntilAwait_cases (clock a) (message a) (controller l))
      as (s1 & e1 & _ & Hcursor & _ & _ & _ & _ & _ & _ & Hcases).
    destruct Hcases
      as [(-> & _)
         | [(-> & _ & ->)
           | (-> & data & ctx & gain & _ & _ & _ & _ & ->)]].
    + right. left. reflexivity.
    + left. split; [reflexivity|]. cbn [completion after].
      apply Hsame. exact Hcursor.
    + left. split; [reflexivity|]. cbn [completion after].
      unfold current, cursor. cbn. rewrite Hcursor. split.
      * apply Q.le_max_l.
      * intros Hcur. apply Forall_app. split.
        -- eapply Forall_impl; [|exact Hcur]. cbn. intros d Hd.
           eapply Qle_trans; [exact Hd | apply Q.le_max_l].
        -- constructor; [|constructor]. cbn. apply Q.le_max_r.
  - cbn [scheduledBy].
    destruct (pick i (suspendedHandlers l)) as [[d others]|] eqn:Hpick;
      [|discriminate Hturn].
    injection Hturn as <- <-.
    destruct (pick_In _ _ _ _ Hpick) as [Hd Hothers].
    assert (Hrest :
      forall s',
        (cursor l <= nextStartTimeRef (hook s'))%Q ->
        current l ->
        current {| controller := s';
                   suspendedConnects := suspendedConnects l;
                   suspendedHandlers := others |}).
    { intros s' Hle Hcur. unfold current, cursor in *. cbn.
      apply Forall_forall. intros d' Hd'.
      eapply Qle_trans; [|exact Hle].
      exact (proj1 (Forall_forall _ _) Hcur d' (Hothers d' Hd')). }
    destruct (audioAfterAwait_cases dec accepted d (controller l))
      as [(decoded & gain & Hdec & ->) | [(source & ->) | ->]].
    + right. right. cbn. eexists. split; [reflexivity|].
      cbn. split; [reflexivity|]. split; [reflexivity|].
      split; [exists (encoded d); exact Hdec|]. split.
      * intros Hcur.
        exact (proj1 (Forall_forall _ _) Hcur d Hd).
      * intros Hcur Hpos. apply Hrest; [|exact Hcur]. cbn.
        unfold cursor.
        rewrite <- (Qplus_0_r (nextStartTimeRef (hook (controller l))))
          at 1.
        apply Qplus_le_r. exact Hpos.
    + left. cbn. split; [reflexivity|]. split; [apply Qle_refl|].
      apply Hrest. apply Qle_refl.
    + left. cbn. split; [reflexivity|]. split; [apply Qle_refl|].
      apply Hrest. apply Qle_refl.
Qed.

Lemma schedule_spaced dec (ts : list Turn) :
  forall (l : Loop) (bound : option Q),
    match bound with
    | Some b => (b <= cursor l)%Q
    | None => True
    end ->
    spaced bound (schedule dec ts l).
Proof.
  induction ts as [|t rest IH]; intros l bound Hbound; [exact I|].
  cbn [schedule].
  destruct (turn dec t l) as [[l1 e1]|] eqn:Hturn; [|exact I].
  destruct (turn_schedule dec t l l1 e1 Hturn)
    as [(-> & Hle & _) | [-> | (seg & -> & Hstart & Hend & _)]].
  - cbn [app]. apply IH. destruct bound as [b|]; [|exact I].
    eapply Qle_trans; eassumption.
  - cbn [app spaced]. apply IH. exact I.
  - cbn [app spaced]. split.
    + destruct bound as [b|]; [|exact I]. rewrite Hstart. exact Hbound.
    + apply IH. rewrite Hend. apply Qle_refl.
Qed.

Lemma spaced_adjacent (l : list Playback) :
  forall (bound : option Q) (k : nat) (a b : Scheduled),
    spaced bound l ->
    nth_error l k = Some (Enqueued a) ->
    nth_error l (S k) = Some (Enqueued b) ->
    (endTime a <= startTime b)%Q.
Proof.
  induction l as [|p rest IH]; intros bound k a b Hgap Ha Hb.
  - destruct k; discriminate Ha.
  - destruct k as [|k].
    + simpl in Ha. injection Ha as ->. simpl in Hb, Hgap.
      destruct Hgap as (_ & Hrest).
      destruct rest as [|q rest']; [discriminate Hb|].
      simpl in Hb. injection Hb as ->. simpl in Hrest.
      destruct Hrest as (Hle & _). exact Hle.
    + simpl in Ha.
      destruct p as [seg|]; simpl in Hgap.
      * destruct Hgap as (_ & Hrest). exact (IH _ k a b Hrest Ha Hb).
      * exact (IH _ k a b Hgap Ha Hb).
Qed.

Lemma schedule_after_the_clock dec (ts : list Turn) :
  decodesSound dec ->
  forall l : Loop,
    current l ->
    ~ In Flushed (schedule dec ts l) ->
    forall a : Scheduled,
      In (Enqueued a) (schedule dec ts l) ->
      (clockRead a <= startTime a)%Q.
Proof.
  intros Hsound.
  induction ts as [|t rest IH]; intros l Hcur Hnone a Hin; [destruct Hin|].
  cbn [schedule] in Hnone, Hin.
  destruct (turn dec t l) as [[l1 e1]|] eqn:Hturn; [|destruct Hin].
  destruct (turn_schedule dec t l l1 e1 Hturn)
    as [(Hs & _ & Hkeep)
       | [Hs | (seg & Hs & _ & _ & (data & Hdec) & Hclock & Hkeep)]];
    rewrite Hs in Hnone, Hin.
  - apply (IH l1 (Hkeep Hcur)); assumption.
  - exfalso. apply Hnone. now left.
  - pose proof (Hsound _ _ Hdec) as Hpos.
    destruct Hin as [Hin | Hin].
    + injection Hin as <-. exact (Hclock Hcur).
    + apply (IH l1 (Hkeep Hcur Hpos)); [|exact Hin].
      intros Hf. apply Hnone. now right.
Qed.

(** C2, as amended.  Over any sequence of turns of the event loop, from any
    state and for any decoder: two segments enqueued one after the other,
    with no flush between them, do not overlap, the second is started no
    earlier than the start of the first plus its duration.  And while no
    flush takes place, from a state in which no suspended handler has been
    overtaken by one, and with a decoder whose buffers have a duration that
    is not negative, every segment is started no earlier than the clock
    reading its handler took before it awaited the decoder. *)
Theorem segments_do_not_overlap :
  forall dec (ts : list Turn) (l : Loop),
    (forall (k : nat) (a b : Scheduled),
        nth_error (schedule dec ts l) k = Some (Enqueued a) ->
        nth_error (schedule dec ts l) (S k) = Some (Enqueued b) ->
        (startTime a + duration (buffer (segment a)) <= startTime b)%Q)
    /\ (decodesSound dec ->
        current l ->
        ~ In Flushed (schedule dec ts l) ->
        forall a : Scheduled,
          In (Enqueued a) (schedule dec ts l) ->
          (clockRead a <= startTime a)%Q).
Proof.
  intros dec ts l. split.
  - intros k a b Ha Hb.
    exact (spaced_adjacent _ None k a b (schedule_spaced dec ts l None I)
             Ha Hb).
  - intros Hsound Hcur Hnone a Hin.
    exact (schedule_after_the_clock dec ts Hsound l Hcur Hnone a Hin).
Qed.

Lemma segments_do_not_overlap_witness :
  exists a b : Scheduled,
    schedule halfSecond outOfOrder (settled opened) = [Enqueued a; Enqueued b]
    /\ startTime a == 21 # 10
    /\ startTime b == 26 # 10
    /\ (startTime a + duration (buffer (segment a)) <= startTime b)%Q
    /\ clockRead b == 2
    /\ (clockRead b <= startTime b)%Q.
Proof.
  destruct (segments_do_not_overlap halfSecond outOfOrder (settled opened))
    as [Hnext Hclock].
  eexists. eexists.
  split; [vm_compute; reflexivity|].
  split; [reflexivity|]. split; [reflexivity|].
  split; [apply (Hnext 0%nat); vm_compute; reflexivity|].
  split; [reflexivity|].
  apply Hclock.
  - intros data decoded [= <-]. discriminate.
  - constructor.
  - vm_compute. intros [H | [H | []]]; discriminate H.
  - vm_compute. right. left. reflexivity.
Defined.

(** C2 as stated fails, in three ways.  Across a barge-in the schedule
    starts over: the segment enqueued after the flush starts at 2.3 s,
    before the 3 s at which the segment enqueued before it ends.  [start] is
    called once the decoder has settled, with the time fixed before: the
    first segment is started at 2 s when the clock is at 2.05 s.  And a
    handler that is decoding when the barge-in is handled finds the cursor
    at 0 when it resumes: its segment is started at 0, the handler having
    read the clock at 2.15 s. *)
Lemma playback_can_start_in_the_past :
  (exists a b c : Scheduled,
      schedule halfSecond conversation (settled opened)
      = [Enqueued a; Enqueued b; Flushed; Enqueued c]
      /\ startTime b == 5 # 2
      /\ duration (buffer (segment b)) == 1 # 2
      /\ startTime c == 23 # 10
      /\ (startTime c < startTime b + duration (buffer (segment b)))%Q
      /\ startTime a == 2
      /\ clockAtStart a == 205 # 100
      /\ (startTime a < clockAtStart a)%Q)
  /\ (exists d : Scheduled,
         schedule halfSecond overtaken (settled answering)
         = [Flushed; Enqueued d]
         /\ startTime d == 0
         /\ clockRead d == 215 # 100
         /\ clockAtStart d == 225 # 100
         /\ (startTime d < clockRead d)%Q).
Proof.
  split.
  - eexists. eexists. eexists.
    split; [vm_compute; reflexivity|]. repeat split.
  - eexists. split; [vm_compute; reflexivity|]. repeat split.
Qed.

(** Decoded out of order, two chunks are played out of order: the second
    chunk, decoded first, starts at 2.1 s and the first chunk follows it at
    2.6 s. *)
Lemma chunks_play_in_decoding_order :
  map (fun p =>
         match p with
         | Enqueued seg => Some (clockRead seg, startTime seg)
         | Flushed => None
         end)
      (schedule halfSecond outOfOrder (settled opened))
  = [Some (21 # 10, 21 # 10); Some (2, 52 # 20)]%Q.
Proof. vm_compute. reflexivity. Qed.







(** ** One session at a time, on the event loop *)

Lemma vacant_idle (l : Loop) :
  owned (controller l) -> vacant l = true ->
  idle (controller l) /\ suspendedConnects l = [].
Proof.
  intros [Hctxs Hstreams] Hvacant. unfold vacant in Hvacant.
  destruct (inputContextRef (hook (controller l))) eqn:Hic;
    [discriminate Hvacant|].
  destruct (outputContextRef (hook (controller l))) eqn:Hoc;
    [discriminate Hvacant|].
  destruct (streamRef (hook (controller l))) eqn:Hst;
    [discriminate Hvacant|].
  destruct (suspendedConnects l); [|discriminate Hvacant].
  split; [|reflexivity]. unfold idle.
  rewrite Hic, Hoc, Hst, Hctxs, Hstreams. repeat split; reflexivity.
Qed.

Lemma exclusive_same (l : Loop) (s' : Sys) (handlers : list Decoding) :
  inputContextRef (hook s') = inputContextRef (hook (controller l)) ->
  outputContextRef (hook s') = outputContextRef (hook (controller l)) ->
  streamRef (hook s') = streamRef (hook (controller l)) ->
  openContexts (browser s') = openContexts (browser (controller l)) ->
  liveStreams (browser s') = liveStreams (browser (controller l)) ->
  exclusive l ->
  exclusive {| controller := s'; suspendedConnects := suspendedConnects l;
               suspendedHandlers := handlers |}.
Proof.
  intros Hic Hoc Hst Hctxs Hstreams (Howned & Hrate & Hwait).
  destruct (owned_same (controller l) s' Hic Hoc Hst Hctxs Hstreams)
    as (H1 & _ & H3).
  unfold exclusive. cbn [controller suspendedConnects].
  split; [now apply H1|]. split; [now apply H3|].
  destruct Hwait as [Hnone | (env & Hone & Hnostream)]; [now left|].
  right. exists env. split; [exact Hone | now rewrite Hst].
Qed.

Lemma idle_exclusive (s : Sys) (connects : list Env)
    (handlers : list Decoding) :
  idle s ->
  (connects = [] \/ exists env, connects = [env]) ->
  exclusive {| controller := s; suspendedConnects := connects;
               suspendedHandlers := handlers |}.
Proof.
  intros Hidle Hwait. destruct (idle_in_order s Hidle) as [H1 H2].
  unfold exclusive. cbn [controller suspendedConnects].
  split; [exact H1|]. split; [exact H2|].
  destruct Hwait as [-> | (env & ->)]; [now left|].
  right. exists env. split; [reflexivity|].
  now destruct Hidle as (_ & _ & Hst & _).
Qed.

(** One turn keeps the loop in order, when [connect] is called on a vacant
    hook only. *)
Lemma turn_exclusive dec (t : Turn) (l l1 : Loop) (e : list Event) :
  exclusive l ->
  match t with
  | ConnectCalled _ => vacant l = true
  | _ => True
  end ->
  turn dec t l = Some (l1, e) ->
  exclusive l1.
Proof.
  intros Hex Hserial Hturn.
  pose proof Hex as (Howned & Hrate & Hwait).
  destruct t as [env | i | | n | i now accepted]; cbn [turn] in Hturn.
  - (* connect is called *)
    injection Hturn as <- <-.
    destruct (vacant_idle l Howned Hserial) as [Hidle Hnone].
    rewrite Hnone.
    destruct (truthy_opt (API_KEY env)) eqn:Hkey.
    + destruct (inputContextAvailable env && outputContextAvailable env)
        eqn:Hok.
      * destruct (connectUntilAwait_reached env (controller l) Hkey Hok)
          as (trace & -> & _).
        cbn [completion after app].
        destruct Hidle as (Hic & Hoc & Hst & Hctxs & Hstreams).
        unfold exclusive. cbn [controller suspendedConnects].
        split; [|split].
        -- unfold owned. cbn. rewrite Hctxs, Hstreams, Hst. split; reflexivity.
        -- unfold inputAtCaptureRate. cbn. intros ctx [= <-]. reflexivity.
        -- right. exists env. split; [reflexivity|]. cbn. exact Hst.
      * destruct (connectUntilAwait_failed env (controller l) Hkey Hok)
          as (h' & b' & before & -> & _ & _ & _ & _ & _ & _ & _ & _ & _ & _
              & Hown).
        cbn [completion after].
        apply idle_exclusive; [|now left].
        apply cleanup_releases, Hown, Hidle.
    + rewrite connectUntilAwait_unconfigured by assumption.
      cbn [completion after].
      rewrite <- Hnone.
      apply exclusive_same; try reflexivity. exact Hex.
  - (* the microphone request is answered *)
    destruct (pick i (suspendedConnects l)) as [[env others]|] eqn:Hpick;
      [|discriminate Hturn].
    injection Hturn as <- <-.
    destruct Hwait as [Hnone | (env' & Hone & Hst)];
      [rewrite Hnone in Hpick; destruct i; discriminate Hpick|].
    rewrite Hone in Hpick. apply pick_one in Hpick.
    destruct Hpick as [-> ->].
    destruct (microphoneGranted env' && clientConstructed env') eqn:Hok.
    + rewrite connectAfterAwait_joined by assumption. cbn [after].
      destruct Howned as [Hctxs Hstreams]. rewrite Hst in Hstreams.
      unfold exclusive. cbn [controller suspendedConnects].
      split; [|split; [exact Hrate | now left]].
      unfold owned. cbn. rewrite Hctxs, Hstreams. split; reflexivity.
    + destruct (connectAfterAwait_failed env' (controller l) Hok)
        as (h' & b' & before & -> & _ & _ & _ & _ & _ & _ & _ & _ & _ & _
            & Hown).
      cbn [after].
      apply idle_exclusive; [|now left].
      apply cleanup_releases, Hown; assumption.
  - (* disconnect is called *)
    injection Hturn as <- <-.
    apply idle_exclusive.
    + apply disconnect_releases. exact Howned.
    + destruct Hwait as [-> | (env & -> & _)]; [now left | right; eauto].
  - (* a callback of the hook *)
    pose proof (notify_keeps_resources dec n (controller l)) as Hkeep.
    destruct n as [| a | source | | | data]; cbn [turn] in Hturn;
      try (injection Hturn as <- <-;
           destruct Hkeep as (Hic & Hoc & Hst & Hctxs & Hstreams);
           apply exclusive_same; assumption).
    clear Hkeep. injection Hturn as <- <-.
    destruct (onmessageUntilAwait_keeps_resources (clock a) (message a)
                (controller l)) as (Hic & Hoc & Hst & Hctxs & Hstreams).
    apply exclusive_same; assumption.
  - (* a decoder settles *)
    destruct (pick i (suspendedHandlers l)) as [[d others]|];
      [|discriminate Hturn].
    injection Hturn as <- <-.
    destruct (audioAfterAwait_keeps_resources dec accepted d (controller l))
      as (Hic & Hoc & Hst & Hctxs & Hstreams).
    apply exclusive_same; assumption.
Qed.

Lemma turns_exclusive dec (ts : list Turn) :
  forall (l l' : Loop) (trace : list Event),
    exclusive l ->
    serial dec ts l = true ->
    turns dec ts l = Some (l', trace) ->
    exclusive l'.
Proof.
  induction ts as [|t rest IH]; intros l l' trace Hex Hserial Hturns.
  - injection Hturns as <- <-. exact Hex.
  - cbn [serial turns] in Hserial, Hturns.
    apply andb_true_iff in Hserial. destruct Hserial as [Hnow Hlater].
    destruct (turn dec t l) as [[l1 e1]|] eqn:Hturn; [|discriminate Hturns].
    destruct (turns dec rest l1) as [[l2 e2]|] eqn:Hrest;
      [|discriminate Hturns].
    injection Hturns as <- <-.
    apply (IH l1 l2 e2); [|exact Hlater | exact Hrest].
    apply (turn_exclusive dec t l l1 e1 Hex); [|exact Hturn].
    destruct t; try exact I. exact Hnow.
Qed.

(** A loop in order holds at most one stream and one output device. *)
Lemma exclusive_one (l : Loop) :
  exclusive l ->
  (List.length (liveStreams (browser (controller l))) <= 1)%nat
  /\ (List.length (outputDevices (browser (controller l))) <= 1)%nat.
Proof.
  intros ([Hctxs Hstreams] & Hrate & _). split.
  - rewrite Hstreams. destruct (streamRef (hook (controller l))); cbn; lia.
  - unfold outputDevices. rewrite Hctxs. unfold inputAtCaptureRate in Hrate.
    destruct (inputContextRef (hook (controller l))) as [ic|].
    + rewrite (filter_app _ (optionList (Some ic))). cbn.
      rewrite (Hrate ic eq_refl). cbn.
      destruct (outputContextRef (hook (controller l))) as [oc|]; cbn;
        [destruct (sampleRate oc =? 24000)%Z; cbn; lia | lia].
    + cbn. destruct (outputContextRef (hook (controller l))) as [oc|]; cbn;
        [destruct (sampleRate oc =? 24000)%Z; cbn; lia | lia].
Qed.

(** C6, as amended.  When [connect] is only called on a hook that holds no
    audio context and no microphone stream and has no earlier call of
    [connect] waiting for the microphone, then over any sequence of turns of
    the event loop (calls of [connect] and [disconnect], answers to the
    microphone request, callbacks of the channel and of the browser,
    decoders that settle, in any order) at most one microphone stream is
    live and at most one output context is open, each referred to by the
    hook.  It holds from any state in which the hook refers to every live
    context and stream, its input context, if it has one, is the 16 kHz one,
    and at most one [connect] is waiting, with no stream held; the page as
    loaded is one.  ([connect] itself does not look for a session that is
    already there or on its way: see the counterexample.) *)
Theorem one_session_at_a_time :
  forall dec (ts : list Turn) (l l' : Loop) (trace : list Event),
    exclusive l ->
    serial dec ts l = true ->
    turns dec ts l = Some (l', trace) ->
    (List.length (liveStreams (browser (controller l'))) <= 1)%nat
    /\ (List.length (outputDevices (browser (controller l'))) <= 1)%nat
    /\ owned (controller l').
Proof.
  intros dec ts l l' trace Hex Hserial Hturns.
  pose proof (turns_exclusive dec ts l l' trace Hex Hserial Hturns) as Hex'.
  destruct (exclusive_one l' Hex') as [Hmic Hout].
  split; [exact Hmic|]. split; [exact Hout|].
  now destruct Hex' as (Howned & _).
Qed.

Lemma one_session_at_a_time_witness :
  let played := turns halfSecond twoSessions (settled pageLoad) in
  let l' :=
    match played with
    | Some (l, _) => l
    | None => settled pageLoad
    end in
  liveStreams (browser (controller l')) = [{| stream_id := 12 |}]
  /\ (List.length (liveStreams (browser (controller l'))) <= 1)%nat
  /\ (List.length (outputDevices (browser (controller l'))) <= 1)%nat
  /\ owned (controller l').
Proof.
  intros played l'. split; [vm_compute; reflexivity|].
  apply (one_session_at_a_time halfSecond twoSessions (settled pageLoad) l'
           match played with
           | Some (_, trace) => trace
           | None => []
           end).
  - unfold exclusive. cbn.
    split; [split; reflexivity|]. split; [intros ctx; discriminate|].
    now left.
  - vm_compute. reflexivity.
  - vm_compute. reflexivity.
Defined.

(** C6 as stated fails: [connect] has no guard.  A second call with no
    [disconnect] in between leaves two microphone streams and two output
    contexts live, and the hook refers to the second of each only.  And a
    call made after [disconnect], while the call before it still waits for
    the microphone, finds the hook empty: when both requests are granted,
    two microphone streams are live and the hook refers to the second
    only. *)
Lemma second_connect_doubles_resources :
  List.length (liveStreams (browser (after (connect granted opened)))) = 2%nat
  /\ List.length (outputDevices (browser (after (connect granted opened))))
     = 2%nat
  /\ streamRef (hook (after (connect granted opened)))
     = Some {| stream_id := 14 |}
  /\ In {| stream_id := 5 |}
        (liveStreams (browser (after (connect granted opened))))
  /\ exists (l' : Loop) (trace : list Event),
       turns halfSecond overlappingConnects (settled pageLoad)
       = Some (l', trace)
       /\ liveStreams (browser (controller l'))
          = [{| stream_id := 10 |}; {| stream_id := 12 |}]
       /\ streamRef (hook (controller l')) = Some {| stream_id := 12 |}
       /\ serial halfSecond overlappingConnects (settled pageLoad) = false.
Proof.
  split; [vm_compute; reflexivity|]. split; [vm_compute; reflexivity|].
  split; [vm_compute; reflexivity|]. split; [vm_compute; auto|].
  eexists. eexists. split; [vm_compute; reflexivity|].
  vm_compute. repeat split; reflexivity.
Qed.
